(** * auto-slice: the analysis pipeline, embedded and verified

    Shallow embedding of the three pipeline stages of the repository:
    - [shape-decomposer.js]   (module [ShapeDecomposer]),
    - the grid detector       (module [GridDetector]),
    - the background remover  (modules [BackgroundRemover] and [Trim]),
    and of the part of the main application that runs them on a cell
    (modules [NineSlice] and [Analyzer]).

    Conventions of the embedding.
    - Coordinates, sizes and settings are JavaScript numbers holding
      integers; they are modelled as [Z].
    - A pixel buffer is a [Uint8ClampedArray]: a [list Z] read with [load]
      and written with [store].  A read outside the array yields
      [undefined]; every arithmetic result derived from [undefined] is
      [NaN].  Both are modelled by [None] in [num := option Z]: they are
      falsy, every comparison with them is false, and arithmetic on them
      gives [NaN] again.  A write outside a typed array is ignored.
    - [for (let i = a; i < b; i++)] is a left fold over [zrange a b]. *)

From Stdlib Require Import ZArith Lia List Bool.
From stdpp Require Import base list sorting.
Import ListNotations.
Open Scope Z_scope.

(** ** JavaScript numbers and typed arrays *)

Module Js.

Definition num := option Z.

(** [data[i]] on a typed array. *)
Definition load (data : list Z) (i : Z) : num :=
  if i <? 0 then None else data !! Z.to_nat i.

(** [data[i] = v] on a typed array (ignored out of range). *)
Definition store (data : list Z) (i v : Z) : list Z :=
  if i <? 0 then data else <[Z.to_nat i := v]> data.

(** [a > k], [a < k], [a === k] for a possibly undefined [a]. *)
Definition gt (a : num) (k : Z) : bool :=
  match a with Some v => k <? v | None => false end.

Definition lt (a : num) (k : Z) : bool :=
  match a with Some v => v <? k | None => false end.

Definition eqk (a : num) (k : Z) : bool :=
  match a with Some v => v =? k | None => false end.

(** Truthiness of a number: [0], [NaN] and [undefined] are falsy. *)
Definition truthy (a : num) : bool :=
  match a with Some v => negb (v =? 0) | None => false end.

(** Binary arithmetic: [NaN] as soon as one operand is. *)
Definition lift2 (f : Z -> Z -> Z) (a b : num) : num :=
  match a, b with Some x, Some y => Some (f x y) | _, _ => None end.

(** The indices visited by [for (let i = lo; i < hi; i++)]. *)
Definition zrange (lo hi : Z) : list Z :=
  map (fun i => lo + Z.of_nat i) (seq 0 (Z.to_nat (hi - lo))).

(** [Math.round (s / n)] for integers [s] and [n > 0]: halves round up. *)
Definition round_div (s n : Z) : Z := (2 * s + n) / (2 * n).

End Js.

Import Js.

(** An [ImageData]: [img_data] holds 4 bytes (R, G, B, A) per pixel,
    row by row. *)
Record ImageData := mkImage {
  img_width : Z;
  img_height : Z;
  img_data : list Z
}.

(** The PixelBuffer invariant of the data model. *)
Definition wellFormed (img : ImageData) : Prop :=
  0 <= img_width img /\ 0 <= img_height img /\
  Z.of_nat (length (img_data img)) = img_width img * img_height img * 4.

(** A colour as read from the buffer: [{r, g, b, a}]. *)
Record Color := mkColor {
  c_r : num;
  c_g : num;
  c_b : num;
  c_a : num
}.

(** [{ r: data[index], g: data[index + 1], b: data[index + 2],
       a: data[index + 3] }] *)
Definition pixelAt (data : list Z) (index : Z) : Color :=
  {| c_r := load data index;
     c_g := load data (index + 1);
     c_b := load data (index + 2);
     c_a := load data (index + 3) |}.

(** ** shape-decomposer.js *)

Module ShapeDecomposer.

Record Bounds := mkBounds {
  b_x : Z;
  b_y : Z;
  b_width : Z;
  b_height : Z
}.

(** The four named corners of [analyzeCorners], in the order of
    [Object.entries (cornerRegions)]. *)
Inductive CornerName := topLeft | topRight | bottomLeft | bottomRight.

Record Corners := mkCorners {
  r_topLeft : Z;
  r_topRight : Z;
  r_bottomLeft : Z;
  r_bottomRight : Z
}.

(** The shapes pushed by the detectors, one constructor per [type]. *)
Inductive Shape :=
| HorizontalLine (x y length thickness : Z) (color : Color)
| VerticalLine (x y length thickness : Z) (color : Color)
| Rectangle (x y width height : Z) (color : Color) (cornerRadius : Z)
| RoundedRectangle (x y width height : Z) (color : Color)
    (cornerRadius : Z) (corners : Corners).

Record ShapeAnalysis := mkAnalysis {
  shapes : list Shape;
  bounds : option Bounds;
  isEmpty : bool
}.

(** The running [minX, minY, maxX, maxY] of [findContentBounds]. *)
Record Extent := mkExtent {
  minX : Z;
  minY : Z;
  maxX : Z;
  maxY : Z
}.

Section Decompose.

Variable img : ImageData.

Let w := img_width img.
Let h := img_height img.
Let d := img_data img.

(** [data[(y * width + x) * 4 + 3]] *)
Definition alphaAt (x y : Z) : num := load d ((y * w + x) * 4 + 3).

Definition extendExtent (y : Z) (e : Extent) (x : Z) : Extent :=
  if gt (alphaAt x y) 0
  then {| minX := Z.min (minX e) x; minY := Z.min (minY e) y;
          maxX := Z.max (maxX e) x; maxY := Z.max (maxY e) y |}
  else e.

Definition scanExtent : Extent :=
  fold_left (fun e y => fold_left (extendExtent y) (zrange 0 w) e)
    (zrange 0 h) {| minX := w; minY := h; maxX := 0; maxY := 0 |}.

Definition findContentBounds : option Bounds :=
  let e := scanExtent in
  if maxX e <? minX e then None
  else Some {| b_x := minX e; b_y := minY e;
               b_width := maxX e - minX e + 1;
               b_height := maxY e - minY e + 1 |}.

(** The open run of a line scan: [lineStart] and [lineColor], which the
    source sets and clears together ([None] is [null]). *)
Definition Run := option (Z * Color).

(** [lineLength > extent * 0.8].  Both sides are integers below 2^50, for
    which the rounded product compares with an integer exactly as
    [4 * extent / 5] does. *)
Definition longRun (lineLength extent : Z) : bool :=
  4 * extent <? 5 * lineLength.

Definition hStep (b : Bounds) (y : Z) (st : list Shape * Run) (x : Z)
  : list Shape * Run :=
  let index := (y * w + x) * 4 in
  let alpha := if x <? b_x b + b_width b then load d (index + 3) else Some 0 in
  match snd st with
  | None =>
      if gt alpha 0 then (fst st, Some (x, pixelAt d index)) else st
  | Some (lineStart, lineColor) =>
      if eqk alpha 0 || (x =? b_x b + b_width b) then
        let lineLength := x - lineStart in
        (if longRun lineLength (b_width b)
         then fst st ++ [HorizontalLine lineStart y lineLength 1 lineColor]
         else fst st, None)
      else st
  end.

Definition detectHorizontalLines (b : Bounds) : list Shape :=
  fold_left
    (fun lines y =>
       fst (fold_left (hStep b y) (zrange (b_x b) (b_x b + b_width b + 1))
              (lines, None)))
    (zrange (b_y b) (b_y b + b_height b)) [].

Definition vStep (b : Bounds) (x : Z) (st : list Shape * Run) (y : Z)
  : list Shape * Run :=
  let index := (y * w + x) * 4 in
  let alpha := if y <? b_y b + b_height b then load d (index + 3) else Some 0 in
  match snd st with
  | None =>
      if gt alpha 0 then (fst st, Some (y, pixelAt d index)) else st
  | Some (lineStart, lineColor) =>
      if eqk alpha 0 || (y =? b_y b + b_height b) then
        let lineLength := y - lineStart in
        (if longRun lineLength (b_height b)
         then fst st ++ [VerticalLine x lineStart lineLength 1 lineColor]
         else fst st, None)
      else st
  end.

Definition detectVerticalLines (b : Bounds) : list Shape :=
  fold_left
    (fun lines x =>
       fst (fold_left (vStep b x) (zrange (b_y b) (b_y b + b_height b + 1))
              (lines, None)))
    (zrange (b_x b) (b_x b + b_width b)) [].

(** [filledPixels] of [checkIfRectangle]. *)
Definition countFilled (b : Bounds) : Z :=
  fold_left
    (fun n y =>
       fold_left (fun n x => if gt (alphaAt x y) 200 then n + 1 else n)
         (zrange (b_x b) (b_x b + b_width b)) n)
    (zrange (b_y b) (b_y b + b_height b)) 0.

(** [filled / total > 0.95] on integers.  A division by 0 gives [NaN]
    for [0 / 0] and an infinity with the sign of [filled] otherwise; a
    negative [total] turns the comparison around.  For the sizes of an
    image the rounded quotient is above the rounded constant exactly when
    the fraction is above 19 / 20. *)
Definition ratioAbove95 (filled total : Z) : bool :=
  if total =? 0 then 0 <? filled
  else if 0 <? total then 19 * total <? 20 * filled
  else 20 * filled <? 19 * total.

Definition checkIfRectangle (b : Bounds) : bool :=
  ratioAbove95 (countFilled b) (b_width b * b_height b).

(** [Math.floor (bounds.x + bounds.width / 2)] and the same for [y]. *)
Definition sampleDominantColor (b : Bounds) : Color :=
  let centerX := b_x b + b_width b / 2 in
  let centerY := b_y b + b_height b / 2 in
  pixelAt d ((centerY * w + centerX) * 4).

Definition detectRectangles (b : Bounds) : list Shape :=
  if checkIfRectangle b
  then [Rectangle (b_x b) (b_y b) (b_width b) (b_height b)
          (sampleDominantColor b) 0]
  else [].

(** The [{dx, dy}] of [diagonals[cornerName]]. *)
Definition diagonal (name : CornerName) : Z * Z :=
  match name with
  | topLeft => (1, 1)
  | topRight => (-1, 1)
  | bottomLeft => (1, -1)
  | bottomRight => (-1, -1)
  end.

(** The loop of [measureCornerRadius]: the first [i] of the list whose
    diagonal pixel has alpha above 128, and 0 when there is none. *)
Fixpoint walkDiagonal (startX startY dx dy : Z) (steps : list Z) : Z :=
  match steps with
  | [] => 0
  | i :: rest =>
      if gt (alphaAt (startX + dx * i) (startY + dy * i)) 128 then i
      else walkDiagonal startX startY dx dy rest
  end.

Definition measureCornerRadius (cx cy sampleSize : Z) (name : CornerName) : Z :=
  let '(dx, dy) := diagonal name in
  let startX := if dx =? 1 then cx else cx + sampleSize - 1 in
  let startY := if dy =? 1 then cy else cy + sampleSize - 1 in
  walkDiagonal startX startY dx dy (zrange 0 sampleSize).

Record CornerAnalysis := mkCornerAnalysis {
  hasRounding : bool;
  radius : Z;
  individual : Corners
}.

Definition analyzeCorners (b : Bounds) : CornerAnalysis :=
  let sampleSize := Z.min 20 (Z.min (b_width b) (b_height b) / 4) in
  let tl := measureCornerRadius (b_x b) (b_y b) sampleSize topLeft in
  let tr := measureCornerRadius (b_x b + b_width b - sampleSize) (b_y b)
              sampleSize topRight in
  let bl := measureCornerRadius (b_x b) (b_y b + b_height b - sampleSize)
              sampleSize bottomLeft in
  let br := measureCornerRadius (b_x b + b_width b - sampleSize)
              (b_y b + b_height b - sampleSize) sampleSize bottomRight in
  let tally := fun (acc : Z * Z) (r : Z) =>
                 if 0 <? r then (fst acc + r, snd acc + 1) else acc in
  let '(totalRadius, roundedCorners) := fold_left tally [tl; tr; bl; br] (0, 0) in
  {| hasRounding := 0 <? roundedCorners;
     radius := if 0 <? roundedCorners
               then round_div totalRadius roundedCorners else 0;
     individual := {| r_topLeft := tl; r_topRight := tr;
                      r_bottomLeft := bl; r_bottomRight := br |} |}.

Definition detectRoundedRectangles (b : Bounds) : list Shape :=
  let corners := analyzeCorners b in
  if hasRounding corners
  then [RoundedRectangle (b_x b) (b_y b) (b_width b) (b_height b)
          (sampleDominantColor b) (radius corners) (individual corners)]
  else [].

Definition decomposeIntoShapes : ShapeAnalysis :=
  match findContentBounds with
  | None => {| shapes := []; bounds := None; isEmpty := true |}
  | Some b =>
      let roundedRects := detectRoundedRectangles b in
      let first :=
        if (0 <? Z.of_nat (length roundedRects))%Z then roundedRects
        else detectRectangles b in
      let all := first ++ detectHorizontalLines b ++ detectVerticalLines b in
      {| shapes := all; bounds := Some b;
         isEmpty := (Z.of_nat (length all) =? 0)%Z |}
  end.

End Decompose.

Definition isHorizontalLine (s : Shape) : bool :=
  match s with HorizontalLine _ _ _ _ _ => true | _ => false end.

Definition isVerticalLine (s : Shape) : bool :=
  match s with VerticalLine _ _ _ _ _ => true | _ => false end.

Definition isRectangle (s : Shape) : bool :=
  match s with Rectangle _ _ _ _ _ _ => true | _ => false end.

Definition isRoundedRectangle (s : Shape) : bool :=
  match s with RoundedRectangle _ _ _ _ _ _ _ => true | _ => false end.

(** The [length] field of a line shape. *)
Definition lineLength (s : Shape) : option Z :=
  match s with
  | HorizontalLine _ _ l _ _ | VerticalLine _ _ l _ _ => Some l
  | _ => None
  end.

(** *** Vocabulary of the statements about the shape decomposer *)

(** Some pixel of the image has alpha above 0. *)
Definition hasContent (img : ImageData) : Prop :=
  exists x y, 0 <= x < img_width img /\ 0 <= y < img_height img /\
              gt (alphaAt img x y) 0 = true.

Definition countOf (p : Shape -> bool) (l : list Shape) : nat :=
  length (List.filter p l).

Definition red : Color :=
  {| c_r := Some 255; c_g := Some 0; c_b := Some 0; c_a := Some 255 |}.

(** The 50 x 4 fully opaque red strip. *)
Definition redStrip : ImageData :=
  {| img_width := 50; img_height := 4;
     img_data := concat (repeat [255; 0; 0; 255] 200) |}.

(** A 3 x 3 image whose only opaque pixels are two opposite corners. *)
Definition twoDots : ImageData :=
  {| img_width := 3; img_height := 3;
     img_data := [0; 0; 0; 255;  0; 0; 0; 0;  0; 0; 0; 0;
                  0; 0; 0; 0;    0; 0; 0; 0;  0; 0; 0; 0;
                  0; 0; 0; 0;    0; 0; 0; 0;  0; 0; 0; 255] |}.

(** An 8 x 8 opaque square whose four corner pixels are transparent. *)
Definition cutCorners : ImageData :=
  {| img_width := 8; img_height := 8;
     img_data :=
       flat_map
         (fun i => if (i =? 0) || (i =? 7) || (i =? 56) || (i =? 63)
                   then [0; 0; 0; 0] else [255; 0; 255; 255])
         (zrange 0 64) |}.

End ShapeDecomposer.

(** ** The grid detector *)

Module GridDetector.

(** [{start, end, center, width}], and after [refineDividerCenters] also
    [exactCenter = (start + end) / 2], kept here as its double
    [start + end] ([None] while the property is absent). *)
Record DividerGroup := mkGroup {
  g_start : Z;
  g_end : Z;
  g_center : Z;
  g_width : Z;
  g_exactCenter2 : option Z
}.

Record Cell := mkCell {
  cell_row : Z;
  cell_col : Z;
  cell_x : Z;
  cell_y : Z;
  cell_width : Z;
  cell_height : Z
}.

Inductive SegmentType := SegHorizontalLine | SegVerticalLine | SegIntersection.

(** A grid line segment; [seg_id] is the number in its
    [h-line-N], [v-line-N] or [intersection-N] identifier. *)
Record Segment := mkSegment {
  seg_id : Z;
  seg_type : SegmentType;
  seg_x : Z;
  seg_y : Z;
  seg_width : Z;
  seg_height : Z
}.

Record Borders := mkBorders {
  top : Z;
  right : Z;
  bottom : Z;
  left : Z
}.

Record GridConfig := mkGrid {
  columns : Z;
  rows : Z;
  horizontalSlices : list Z;
  verticalSlices : list Z;
  horizontalLineGroups : list DividerGroup;
  verticalLineGroups : list DividerGroup;
  cells : list Cell;
  gridLineSegments : list Segment;
  outerBorders : Borders
}.

(** [Math.abs (a - b) <= tolerance] *)
Definition within (a b : num) (tolerance : Z) : bool :=
  match lift2 Z.sub a b with
  | Some v => Z.abs v <=? tolerance
  | None => false
  end.

Definition colorsMatch (r1 g1 b1 a1 r2 g2 b2 a2 : num) (tolerance : Z) : bool :=
  within r1 r2 tolerance && within g1 g2 tolerance &&
  within b1 b2 tolerance && within a1 a2 tolerance.

Section Detect.

Variables (data : list Z) (width height tolerance : Z).

Definition matchesFirst (firstPixel : Color) (index : Z) : bool :=
  colorsMatch (c_r firstPixel) (c_g firstPixel) (c_b firstPixel) (c_a firstPixel)
    (load data index) (load data (index + 1)) (load data (index + 2))
    (load data (index + 3)) tolerance.

Definition isUniformRow (y : Z) : bool :=
  let firstPixel := pixelAt data (y * width * 4) in
  forallb (fun x => matchesFirst firstPixel ((y * width + x) * 4))
    (zrange 1 width).

Definition isUniformColumn (x : Z) : bool :=
  let firstPixel := pixelAt data (x * 4) in
  forallb (fun y => matchesFirst firstPixel ((y * width + x) * 4))
    (zrange 1 height).

(** One border loop of [detectOuterBorders]: the border value is updated
    while the scanned line is uniform, and the loop breaks at the first
    line that is not. *)
Fixpoint scanBorder (uniform : Z -> bool) (value : Z -> Z) (indices : list Z)
    (border : Z) : Z :=
  match indices with
  | [] => border
  | i :: rest =>
      if uniform i then scanBorder uniform value rest (value i) else border
  end.

Definition detectOuterBorders : Borders :=
  {| top := scanBorder isUniformRow (fun y => y + 1) (zrange 0 height) 0;
     bottom := scanBorder isUniformRow (fun y => height - y)
                 (rev (zrange 0 height)) 0;
     left := scanBorder isUniformColumn (fun x => x + 1) (zrange 0 width) 0;
     right := scanBorder isUniformColumn (fun x => width - x)
                (rev (zrange 0 width)) 0 |}.

End Detect.

(** The group pushed by [consolidateDividersToGroups];
    [Math.round ((start + end) / 2)] rounds a half up. *)
Definition group (groupStart groupEnd : Z) : DividerGroup :=
  {| g_start := groupStart; g_end := groupEnd;
     g_center := round_div (groupStart + groupEnd) 2;
     g_width := groupEnd - groupStart + 1;
     g_exactCenter2 := None |}.

(** The loop of [consolidateDividersToGroups] over [dividers[1..]],
    followed by the push of the final group. *)
Fixpoint consolidateFrom (groupStart groupEnd : Z) (rest : list Z)
    (groups : list DividerGroup) : list DividerGroup :=
  match rest with
  | [] => groups ++ [group groupStart groupEnd]
  | dv :: rest' =>
      if dv =? groupEnd + 1 then consolidateFrom groupStart dv rest' groups
      else consolidateFrom dv dv rest' (groups ++ [group groupStart groupEnd])
  end.

Definition consolidateDividersToGroups (dividers : list Z) : list DividerGroup :=
  match dividers with
  | [] => []
  | d0 :: rest => consolidateFrom d0 d0 rest []
  end.

Definition findHorizontalDividers (data : list Z) (width height tolerance : Z)
  : list DividerGroup :=
  consolidateDividersToGroups
    (filter (fun y => isUniformRow data width tolerance y = true)
       (zrange 0 height)).

Definition findVerticalDividers (data : list Z) (width height tolerance : Z)
  : list DividerGroup :=
  consolidateDividersToGroups
    (filter (fun x => isUniformColumn data width height tolerance x = true)
       (zrange 0 width)).

Definition refineDividerCenters (lineGroups : list DividerGroup)
  : list DividerGroup :=
  map (fun g =>
         {| g_start := g_start g; g_end := g_end g;
            g_center := round_div (g_start g + g_end g) 2;
            g_width := g_width g;
            g_exactCenter2 := Some (g_start g + g_end g) |})
    lineGroups.

(** One iteration of [enforceMinimumGap]; the state is [filtered] and
    [lastKept] ([None] is [null]). *)
Definition gapStep (minGap : Z)
    (st : list DividerGroup * option DividerGroup) (current : DividerGroup)
  : list DividerGroup * option DividerGroup :=
  match snd st with
  | None => (fst st ++ [current], Some current)
  | Some lastKept =>
      let distance := g_center current - g_center lastKept in
      if minGap <=? distance then (fst st ++ [current], Some current)
      else if g_width lastKept <? g_width current
      then (<[Nat.pred (length (fst st)) := current]> (fst st), Some current)
      else st
  end.

Definition enforceMinimumGap (lineGroups : list DividerGroup) (minGap : Z)
  : list DividerGroup :=
  fst (fold_left (gapStep minGap) lineGroups ([], None)).

(** [boundaries[i]] for an index the loops of [computeCells] keep in
    range.  The [outerBorders] argument of [computeCells] is not used by
    the source and is left out, as is the constant [type: 'cell']. *)
Definition at_ (boundaries : list Z) (i : Z) : Z :=
  nth (Z.to_nat i) boundaries 0.

Definition computeCells (horizontalLines verticalLines : list Z)
    (width height : Z) : list Cell :=
  match horizontalLines, verticalLines with
  | [], [] =>
      [{| cell_row := 0; cell_col := 0; cell_x := 0; cell_y := 0;
          cell_width := width; cell_height := height |}]
  | _, _ =>
      flat_map
        (fun row =>
           map (fun col =>
                  let y := at_ horizontalLines row in
                  let nextY := at_ horizontalLines (row + 1) in
                  let x := at_ verticalLines col in
                  let nextX := at_ verticalLines (col + 1) in
                  {| cell_row := row; cell_col := col; cell_x := x;
                     cell_y := y; cell_width := nextX - x;
                     cell_height := nextY - y |})
             (zrange 0 (Z.of_nat (length verticalLines) - 1)))
        (zrange 0 (Z.of_nat (length horizontalLines) - 1))
  end.

(** [computeGridLineSegments]; [segmentId] counts across the three
    loops. *)
Definition computeGridLineSegments (hGroups vGroups : list DividerGroup)
    (width height : Z) : list Segment :=
  let nh := Z.of_nat (length hGroups) in
  let nv := Z.of_nat (length vGroups) in
  imap (fun i g =>
          {| seg_id := Z.of_nat i; seg_type := SegHorizontalLine;
             seg_x := 0; seg_y := g_start g;
             seg_width := width; seg_height := g_width g |}) hGroups ++
  imap (fun i g =>
          {| seg_id := nh + Z.of_nat i; seg_type := SegVerticalLine;
             seg_x := g_start g; seg_y := 0;
             seg_width := g_width g; seg_height := height |}) vGroups ++
  concat
    (imap (fun i hg =>
             imap (fun j vg =>
                     {| seg_id := nh + nv + Z.of_nat i * nv + Z.of_nat j;
                        seg_type := SegIntersection;
                        seg_x := g_start vg; seg_y := g_start hg;
                        seg_width := g_width vg; seg_height := g_width hg |})
               vGroups)
       hGroups).

(** [detectGrid]; the settings read from [window.gridSettings]
    ([tolerance], [minXGap], [minYGap]) are parameters. *)
Definition detectGrid (img : ImageData) (tolerance minXGap minYGap : Z)
  : GridConfig :=
  let width := img_width img in
  let height := img_height img in
  let data := img_data img in
  let outer := detectOuterBorders data width height tolerance in
  let hGroups := findHorizontalDividers data width height tolerance in
  let vGroups := findVerticalDividers data width height tolerance in
  let filteredH := enforceMinimumGap (refineDividerCenters hGroups) minYGap in
  let filteredV := enforceMinimumGap (refineDividerCenters vGroups) minXGap in
  let hSlices := map g_center filteredH in
  let vSlices := map g_center filteredV in
  {| columns := if 0 <? Z.of_nat (length vSlices)
                then Z.of_nat (length vSlices) - 1 else 1;
     rows := if 0 <? Z.of_nat (length hSlices)
             then Z.of_nat (length hSlices) - 1 else 1;
     horizontalSlices := hSlices;
     verticalSlices := vSlices;
     horizontalLineGroups := filteredH;
     verticalLineGroups := filteredV;
     cells := computeCells hSlices vSlices width height;
     gridLineSegments := computeGridLineSegments filteredH filteredV width height;
     outerBorders := outer |}.

(** *** Vocabulary of the statements about the grid detector *)

(** The coordinates of the list grow strictly with the index. *)
Definition strictlyIncreasing (l : list Z) : Prop := StronglySorted Z.lt l.

(** Divider groups listed in the order of their centers. *)
Definition orderedGroups (groups : list DividerGroup) : Prop :=
  StronglySorted (fun a b => g_center a <= g_center b) groups.

(** A 2 x 2 image whose left column is uniform and whose right column
    and rows are not. *)
Definition oneColumnLine : ImageData :=
  {| img_width := 2; img_height := 2;
     img_data := [0; 0; 0; 255;  9; 9; 9; 255;
                  0; 0; 0; 255;  100; 100; 100; 255] |}.

(** The groups of the uniform lines 0-2, 5 and 7-8. *)
Definition threeBands : list DividerGroup :=
  consolidateDividersToGroups [0; 1; 2; 5; 7; 8].

(** [lastKept] is the last element of [filtered]. *)
Definition tracksLast (st : list DividerGroup * option DividerGroup) : Prop :=
  match snd st with
  | None => fst st = []
  | Some k => exists pre, fst st = pre ++ [k]
  end.

(** The run with the smaller gap ([st1]) is ahead of the run with the
    larger gap ([st2]): it has kept more groups, or as many with a last
    kept group that is no later and no thinner. *)
Definition ahead (st1 st2 : list DividerGroup * option DividerGroup) : Prop :=
  match snd st1, snd st2 with
  | None, None => fst st1 = [] /\ fst st2 = []
  | Some k1, Some k2 =>
      (length (fst st2) < length (fst st1))%nat \/
      (length (fst st2) = length (fst st1) /\
       g_center k1 <= g_center k2 /\ g_width k2 <= g_width k1)
  | _, _ => False
  end.

(** The last kept group is not after any group still to come. *)
Definition lastBelow (st : list DividerGroup * option DividerGroup)
    (l : list DividerGroup) : Prop :=
  forall k, snd st = Some k -> Forall (fun g => g_center k <= g_center g) l.

End GridDetector.

(** ** The background remover *)

Module BackgroundRemover.

(** [Math.sqrt (dr * dr + dg * dg + db * db) <= tolerance] for integer
    channel differences and an integer tolerance: the correctly rounded
    square root of [n] is at most [t] exactly when [t] is not negative
    and [n <= t * t]. *)
Definition distanceWithin (c1 c2 : Color) (tolerance : Z) : bool :=
  let dr := lift2 Z.sub (c_r c1) (c_r c2) in
  let dg := lift2 Z.sub (c_g c1) (c_g c2) in
  let db := lift2 Z.sub (c_b c1) (c_b c2) in
  match lift2 Z.add (lift2 Z.add (lift2 Z.mul dr dr) (lift2 Z.mul dg dg))
          (lift2 Z.mul db db) with
  | Some n => (0 <=? tolerance) && (n <=? tolerance * tolerance)
  | None => false
  end.

(** The directions tried by [isShadowPixel], and the eight of
    [checkForStrongNeighbor]. *)
Definition directions4 : list (Z * Z) := [(-1, 0); (1, 0); (0, -1); (0, 1)].

Definition directions8 : list (Z * Z) :=
  [(-1, 0); (1, 0); (0, -1); (0, 1); (-1, -1); (1, 1); (-1, 1); (1, -1)].

Definition inBounds (width height nx ny : Z) : bool :=
  (0 <=? nx) && (nx <? width) && (0 <=? ny) && (ny <? height).

(** [transparentNeighbors] of [isShadowPixel]. *)
Definition transparentNeighbors (data : list Z) (x y width height : Z) : Z :=
  fold_left
    (fun n '(dx, dy) =>
       let nx := x + dx in
       let ny := y + dy in
       if inBounds width height nx ny
          && eqk (load data ((ny * width + nx) * 4 + 3)) 0
       then n + 1 else n)
    directions4 0.

Definition isShadowPixel (data : list Z) (x y width height : Z) : bool :=
  let currentAlpha := load data ((y * width + x) * 4 + 3) in
  (2 <=? transparentNeighbors data x y width height) && lt currentAlpha 128.

(** The body of the pixel loop of [removeShadowsAlongSlices]. *)
Definition sliceShadowStep (width height y : Z) (data : list Z) (x : Z)
  : list Z :=
  let index := (y * width + x) * 4 in
  if gt (load data (index + 3)) 0 && lt (load data (index + 3)) 200
     && isShadowPixel data x y width height
  then store data (index + 3) 0
  else data.

(** The rows scanned around one slice line. *)
Definition sliceBand (height sliceLine shadowWidth : Z) : list Z :=
  zrange (Z.max 0 (sliceLine - shadowWidth))
         (Z.min height (sliceLine + shadowWidth)).

Definition sliceShadowRows (width height shadowWidth : Z) (data : list Z)
    (sliceLine : Z) : list Z :=
  fold_left
    (fun data y => fold_left (sliceShadowStep width height y) (zrange 0 width) data)
    (sliceBand height sliceLine shadowWidth) data.

(** [removeShadowsAlongSlices] works in place and returns its argument:
    the result is the image with the mutated buffer. *)
Definition removeShadowsAlongSlices (img : ImageData) (sliceLines : list Z)
    (shadowWidth : Z) : ImageData :=
  {| img_width := img_width img;
     img_height := img_height img;
     img_data := fold_left
                   (sliceShadowRows (img_width img) (img_height img) shadowWidth)
                   sliceLines (img_data img) |}.

Definition sampleBackgroundPoints (img : ImageData) : list Color :=
  let width := img_width img in
  let height := img_height img in
  let cornerPoints :=
    [(0, 0); (width - 1, 0); (0, height - 1); (width - 1, height - 1)] in
  let inset := Z.min 3 (Z.min width height / 4) in
  let points :=
    if (inset * 2 <? width) && (inset * 2 <? height)
    then cornerPoints ++
         [(inset, inset); (width - 1 - inset, inset);
          (inset, height - 1 - inset); (width - 1 - inset, height - 1 - inset)]
    else cornerPoints in
  map (fun '(x, y) => pixelAt (img_data img) ((y * width + x) * 4)) points.

(** A colour group of [findMostCommonColor]: its first colour and the
    colours pushed after it. *)
Definition ColorGroup := (Color * list Color)%type.

Definition groupLength (g : ColorGroup) : Z := 1 + Z.of_nat (length (snd g)).

(** The inner loop over [colorGroups]: the colour joins the first group
    whose first colour is within 20, and [None] reports [!foundGroup]. *)
Fixpoint joinGroup (color : Color) (groups : list ColorGroup)
  : option (list ColorGroup) :=
  match groups with
  | [] => None
  | g :: rest =>
      if distanceWithin color (fst g) 20
      then Some ((fst g, snd g ++ [color]) :: rest)
      else option_map (cons g) (joinGroup color rest)
  end.

Definition clusterColors (colors : list Color) : list ColorGroup :=
  fold_left
    (fun groups color =>
       match joinGroup color groups with
       | Some groups' => groups'
       | None => groups ++ [(color, [])]
       end)
    colors [].

Definition largestOf (first : ColorGroup) (groups : list ColorGroup)
  : ColorGroup :=
  fold_left
    (fun largest g => if groupLength largest <? groupLength g then g else largest)
    groups first.

(** [Math.round (sum / n)] of one channel, [NaN] when a sample was
    undefined. *)
Definition averageChannel (channel : Color -> num) (g : ColorGroup) : num :=
  option_map (fun s => round_div s (groupLength g))
    (fold_left (fun acc c => lift2 Z.add acc (channel c))
       (fst g :: snd g) (Some 0)).

Definition findMostCommonColor (colors : list Color) : Color :=
  match colors with
  | [] => {| c_r := Some 255; c_g := Some 255; c_b := Some 255; c_a := Some 255 |}
  | _ =>
      match clusterColors colors with
      | [] => {| c_r := None; c_g := None; c_b := None; c_a := None |}
      | first :: rest =>
          let largestGroup := largestOf first (first :: rest) in
          {| c_r := averageChannel c_r largestGroup;
             c_g := averageChannel c_g largestGroup;
             c_b := averageChannel c_b largestGroup;
             c_a := averageChannel c_a largestGroup |}
      end
  end.

(** The test [distance <= tolerance] of [createBackgroundMask] for pixel
    number [i]: the pixel is a background candidate. *)
Definition isCandidate (data : list Z) (backgroundColor : Color)
    (tolerance : Z) (i : Z) : bool :=
  let index := i * 4 in
  distanceWithin
    {| c_r := load data index; c_g := load data (index + 1);
       c_b := load data (index + 2); c_a := None |}
    backgroundColor tolerance.

(** The mask filled by the first loop of [createBackgroundMask]. *)
Definition candidateMask (data : list Z) (width height : Z)
    (backgroundColor : Color) (tolerance : Z) : list Z :=
  map (fun i => if isCandidate data backgroundColor tolerance i then 1 else 0)
    (zrange 0 (width * height)).

(** The queue of [floodFillFromEdges] before its [while] loop. *)
Definition edgeQueue (width height : Z) : list Z :=
  flat_map (fun x => [x; (height - 1) * width + x]) (zrange 0 width) ++
  flat_map (fun y => [y * width; y * width + width - 1]) (zrange 0 height).

(** The [while (queue.length > 0)] loop of [floodFillFromEdges].  Each
    unit of fuel pays for one [queue.shift ()]; [None] means the fuel ran
    out with the queue not yet empty. *)
Fixpoint floodLoop (fuel : nat) (mask : list Z) (width height : Z)
    (visited result queue : list Z) : option (list Z) :=
  match queue with
  | [] => Some result
  | index :: rest =>
      match fuel with
      | O => None
      | S fuel' =>
          if truthy (load visited index) || eqk (load mask index) 0
          then floodLoop fuel' mask width height visited result rest
          else
            let visited' := store visited index 1 in
            let result' := store result index 1 in
            let x := index mod width in
            let y := index / width in
            let q1 := if 0 <? x then rest ++ [index - 1] else rest in
            let q2 := if x <? width - 1 then q1 ++ [index + 1] else q1 in
            let q3 := if 0 <? y then q2 ++ [index - width] else q2 in
            let q4 := if y <? height - 1 then q3 ++ [index + width] else q3 in
            floodLoop fuel' mask width height visited' result' q4
      end
  end.

(** Every pixel is marked visited at most once and then pushes at most
    four neighbours, so the loop needs no more dequeues than this. *)
Definition floodFuel (width height : Z) : nat :=
  Z.to_nat (5 * (width * height) + 2 * width + 2 * height).

(** [floodFillFromEdges], as it is called on an image with
    [width >= 1] and [height >= 1]. *)
Definition floodFillFromEdges (mask : list Z) (width height : Z)
  : option (list Z) :=
  let zeros := replicate (Z.to_nat (width * height)) 0 in
  floodLoop (floodFuel width height) mask width height zeros zeros
    (edgeQueue width height).

Definition createBackgroundMask (img : ImageData) (backgroundColor : Color)
    (tolerance : Z) : option (list Z) :=
  floodFillFromEdges
    (candidateMask (img_data img) (img_width img) (img_height img)
       backgroundColor tolerance)
    (img_width img) (img_height img).

Definition maskStep (mask : list Z) (data : list Z) (i : Z) : list Z :=
  if eqk (load mask i) 1 then store data (i * 4 + 3) 0 else data.

(** [applyTransparencyMask], on the buffer of the image. *)
Definition applyTransparencyMask (data mask : list Z) : list Z :=
  fold_left (maskStep mask) (zrange 0 (Z.of_nat (length mask))) data.

Section GradientShadows.

(** [lowSaturation max min aggressiveness] stands for the floating-point
    test [saturation < 0.3 - aggressiveness / 500], where [saturation] is
    [max === 0 ? 0 : (max - min) / max].  Its rounding is not modelled:
    the development holds for every such function. *)
Variable lowSaturation : Z -> Z -> Z -> bool.

(** [checkForStrongNeighbor]: for bytes, [saturation > 0.3] is
    [10 * (max - min) > 3 * max], and [brightness > 150] is
    [r + g + b > 450]. *)
Definition checkForStrongNeighbor (data : list Z) (x y width height : Z)
  : bool :=
  existsb
    (fun '(dx, dy) =>
       let nx := x + dx in
       let ny := y + dy in
       let neighborIndex := (ny * width + nx) * 4 in
       inBounds width height nx ny
       && eqk (load data (neighborIndex + 3)) 255
       && match load data neighborIndex, load data (neighborIndex + 1),
                load data (neighborIndex + 2) with
          | Some r, Some g, Some b =>
              let mx := Z.max (Z.max r g) b in
              let mn := Z.min (Z.min r g) b in
              (3 * mx <? 10 * (mx - mn)) || (450 <? r + g + b)
          | _, _, _ => false
          end)
    directions8.

(** [isShadowLike] of [checkAndRemoveGradient]; [brightness < 200] is
    [r + g + b < 600]. *)
Definition isShadowLike (data : list Z) (index aggressiveness : Z) : bool :=
  match load data index, load data (index + 1), load data (index + 2) with
  | Some r, Some g, Some b =>
      let mx := Z.max (Z.max r g) b in
      let mn := Z.min (Z.min r g) b in
      lowSaturation mx mn aggressiveness && (r + g + b <? 600)
  | _, _, _ => false
  end.

Definition checkAndRemoveGradient (width height aggressiveness : Z)
    (data : list Z) (x y : Z) : list Z :=
  if (x <? 0) || (width <=? x) || (y <? 0) || (height <=? y) then data
  else
    let index := (y * width + x) * 4 in
    let alpha := load data (index + 3) in
    if eqk alpha 0 then data
    else if lt alpha 250 then store data (index + 3) 0
    else if isShadowLike data index aggressiveness
            && negb (checkForStrongNeighbor data x y width height)
    then store data (index + 3) 0
    else data.

Definition removeGradientShadows (width height : Z) (data : list Z)
    (aggressiveness : Z) : list Z :=
  let scanDepth := Z.max 3 (Z.min 15 (aggressiveness / 6)) in
  let check := checkAndRemoveGradient width height aggressiveness in
  fold_left
    (fun data depth =>
       let data :=
         fold_left
           (fun data x => check (check data x depth) x (height - 1 - depth))
           (zrange 0 width) data in
       fold_left
         (fun data y => check (check data depth y) (width - 1 - depth) y)
         (zrange 0 height) data)
    (zrange 0 scanDepth) data.

(** The body of the loop of [removeSemiTransparentPixels];
    [alpha < Math.max (200, 255 - aggressiveness * 1.5)] is compared
    after doubling both sides. *)
Definition semiTransparentStep (width height aggressiveness : Z)
    (data : list Z) (i : Z) : list Z :=
  let index := i * 4 in
  let alpha := load data (index + 3) in
  match alpha with
  | Some a =>
      if (0 <? a) && (2 * a <? Z.max 400 (510 - 3 * aggressiveness))
         && isShadowPixel data (i mod width) (i / width) width height
      then store data (index + 3) 0
      else data
  | None => data
  end.

Definition removeSemiTransparentPixels (width height : Z) (data : list Z)
    (aggressiveness : Z) : list Z :=
  fold_left (semiTransparentStep width height aggressiveness)
    (zrange 0 (width * height)) data.

(** [new ImageData (new Uint8ClampedArray (imageData.data), width,
    height)] throws unless both sizes are positive and the buffer holds
    [4 * width * height] bytes. *)
Definition validImageData (img : ImageData) : bool :=
  (0 <? img_width img) && (0 <? img_height img)
  && (Z.of_nat (length (img_data img)) =? img_width img * img_height img * 4).

(** [removeBackground]; [aggressiveness] is the [backgroundRemoval]
    setting.  [None] is the exception of the [ImageData] constructor, or
    a flood fill that ran out of fuel (which [removeBackground_returns]
    excludes).  Debug logging has no effect on the result and is left
    out. *)
Definition removeBackground (img : ImageData) (tolerance aggressiveness : Z)
  : option ImageData :=
  if validImageData img then
    let width := img_width img in
    let height := img_height img in
    let effectiveTolerance := Z.max tolerance (aggressiveness * 2) in
    let dominantBackground := findMostCommonColor (sampleBackgroundPoints img) in
    match createBackgroundMask img dominantBackground effectiveTolerance with
    | None => None
    | Some mask =>
        let data1 := applyTransparencyMask (img_data img) mask in
        let data2 := removeGradientShadows width height data1
                       (Z.max aggressiveness 25) in
        let data3 := removeSemiTransparentPixels width height data2
                       (Z.max aggressiveness 30) in
        Some {| img_width := width; img_height := height; img_data := data3 |}
    end
  else None.

End GradientShadows.

(** The older [removeBackground] of [background-remover.js]: the first
    corner colour is the background, and only the mask is applied. *)
Definition removeBackgroundFirstCorner (img : ImageData) (tolerance : Z)
  : option ImageData :=
  if validImageData img then
    let backgroundColor := pixelAt (img_data img) 0 in
    match createBackgroundMask img backgroundColor tolerance with
    | None => None
    | Some mask =>
        Some {| img_width := img_width img; img_height := img_height img;
                img_data := applyTransparencyMask (img_data img) mask |}
    end
  else None.

(** The real-number reading of the saturation test:
    [(max - min) / max < (150 - aggressiveness) / 500].  On bytes it
    agrees with the test in double arithmetic for every setting of the
    documented range 0-100 (and up to 141); above, the rounding of
    [0.3 - aggressiveness / 500] makes the two differ at single settings
    such as 142.  No theorem depends on it: the theorems hold for every
    [lowSaturation], and this reading only instantiates them at the
    settings 0 and 30. *)
Definition lowSaturationExact (mx mn aggressiveness : Z) : bool :=
  if mx =? 0 then 0 <? 150 - aggressiveness
  else 500 * (mx - mn) <? mx * (150 - aggressiveness).

(** *** Vocabulary of the statements about the background remover *)

Section Reachability.

Variables (candidate : Z -> bool) (width height : Z).

Definition inside (x y : Z) : Prop := 0 <= x < width /\ 0 <= y < height.

Definition onEdge (x y : Z) : Prop :=
  x = 0 \/ x = width - 1 \/ y = 0 \/ y = height - 1.

Definition adjacent (x y x' y' : Z) : Prop :=
  (x' = x - 1 /\ y' = y) \/ (x' = x + 1 /\ y' = y) \/
  (x' = x /\ y' = y - 1) \/ (x' = x /\ y' = y + 1).

(** Pixel [(x, y)] ends a 4-connected path of candidate pixels that
    starts on the border of the image. *)
Inductive reachable : Z -> Z -> Prop :=
| reach_edge x y :
    inside x y -> onEdge x y -> candidate (y * width + x) = true ->
    reachable x y
| reach_step x y x' y' :
    reachable x y -> inside x' y' -> adjacent x y x' y' ->
    candidate (y' * width + x') = true -> reachable x' y'.

(** [region] touches no edge of the image, and every pixel next to it
    that is not in it is not a candidate. *)
Definition enclosed (region : Z -> Z -> Prop) : Prop :=
  forall x y, region x y ->
    inside x y /\ ~ onEdge x y /\
    forall x' y', adjacent x y x' y' ->
                  region x' y' \/ candidate (y' * width + x') = false.

End Reachability.

(** The number of entries of a [visited] array that are still 0. *)
Fixpoint zeros (l : list Z) : nat :=
  match l with
  | [] => 0
  | v :: l' => (if v =? 0 then 1 else 0) + zeros l'
  end.

(** What the flood fill has marked so far is a candidate reachable from
    the border. *)
Definition markedReachable (candidate : Z -> bool) (width height : Z)
    (result : list Z) : Prop :=
  forall i, 0 <= i < width * height -> load result i = Some 1 ->
    candidate i = true /\
    reachable candidate width height (i mod width) (i / width).

(** A queued pixel is a pixel of the image that lies on the border or
    next to a reachable candidate. *)
Definition queuedNearReachable (candidate : Z -> bool) (width height : Z)
    (q : Z) : Prop :=
  0 <= q < width * height /\
  (onEdge width height (q mod width) (q / width) \/
   exists x y, reachable candidate width height x y /\
               adjacent x y (q mod width) (q / width)).

(** The bytes of [after] are those of [before], except that alpha bytes
    may have been set to 0. *)
Definition onlyAlphaCleared (before after : list Z) : Prop :=
  length after = length before /\
  forall i : nat,
    after !! i = before !! i \/ ((i mod 4 = 3)%nat /\ after !! i = Some 0).

(** Pixel by pixel: R, G and B are kept, alpha is kept or 0, and alpha
    never grows. *)
Definition colorKeptAlphaLowered (before after : list Z) : Prop :=
  forall p : nat,
    after !! (4 * p)%nat = before !! (4 * p)%nat /\
    after !! (4 * p + 1)%nat = before !! (4 * p + 1)%nat /\
    after !! (4 * p + 2)%nat = before !! (4 * p + 2)%nat /\
    (after !! (4 * p + 3)%nat = before !! (4 * p + 3)%nat \/
     after !! (4 * p + 3)%nat = Some 0) /\
    (forall a, before !! (4 * p + 3)%nat = Some a ->
               exists a', after !! (4 * p + 3)%nat = Some a' /\ a' <= a).

(** Every byte is in the range of a [Uint8ClampedArray]. *)
Definition bytes (data : list Z) : Prop := Forall (fun v => 0 <= v <= 255) data.

(** A 3 x 1 image: a half-transparent pixel between two transparent
    ones. *)
Definition fringe (alpha : Z) : ImageData :=
  {| img_width := 3; img_height := 1;
     img_data := [0; 0; 0; 0;  0; 0; 0; alpha;  0; 0; 0; 0] |}.

(** A 5 x 5 white image with a black ring around a white center. *)
Definition ringed : ImageData :=
  let W := [255; 255; 255; 255] in
  let B := [0; 0; 0; 255] in
  {| img_width := 5; img_height := 5;
     img_data := concat [W; W; W; W; W;  W; B; B; B; W;  W; B; W; B; W;
                         W; B; B; B; W;  W; W; W; W; W] |}.

Definition white : Color :=
  {| c_r := Some 255; c_g := Some 255; c_b := Some 255; c_a := Some 255 |}.

End BackgroundRemover.

(** ** Nine-slice borders (the main application) *)

Module NineSlice.

Import ShapeDecomposer.

(** [{top, right, bottom, left}] *)
Record Insets := mkInsets {
  ns_top : Z;
  ns_right : Z;
  ns_bottom : Z;
  ns_left : Z
}.

(** What a call does: it returns a value, or it throws (here the
    [TypeError] of reading [bounds.width] when [bounds] is [null]). *)
Inductive Outcome (A : Type) :=
| Returns (value : A)
| Throws.

Arguments Returns {A} value.
Arguments Throws {A}.

(** The body of the loop over [shapeAnalysis.shapes]. *)
Definition widen (borders : Insets) (shape : Shape) : Insets :=
  match shape with
  | RoundedRectangle _ _ _ _ _ cornerRadius _ =>
      if 0 <? cornerRadius then
        let radius := cornerRadius + 2 in
        {| ns_top := Z.max (ns_top borders) radius;
           ns_right := Z.max (ns_right borders) radius;
           ns_bottom := Z.max (ns_bottom borders) radius;
           ns_left := Z.max (ns_left borders) radius |}
      else borders
  | _ => borders
  end.

(** [calculateNineSliceBorders]; [None] is its [null]. *)
Definition calculateNineSliceBorders (img : ImageData)
    (shapeAnalysis : ShapeAnalysis) : Outcome (option Insets) :=
  if isEmpty shapeAnalysis then Returns None
  else
    match bounds shapeAnalysis with
    | None => Throws
    | Some b =>
        let defaultBorder :=
          Z.min (Z.min (b_width b / 4) (b_height b / 4)) 16 in
        Returns
          (Some (fold_left widen (shapes shapeAnalysis)
                   {| ns_top := defaultBorder; ns_right := defaultBorder;
                      ns_bottom := defaultBorder; ns_left := defaultBorder |}))
    end.

End NineSlice.

(** ** Processing a cell (the main application) *)

Module Analyzer.

Import ShapeDecomposer BackgroundRemover NineSlice.

(** What [analyze] computes for a cell; the fields copied from the cell
    ([id], [name], [type], [row], [col], the source position and size)
    are left out. *)
Record Component := mkComponent {
  comp_imageData : ImageData;
  comp_shapes : list Shape;
  comp_nineSlice : option Insets
}.

(** The body of the loop over [splitData.cells] in [analyze], for the
    image data of the cell and [cell.height].  [removeBackground] is
    called with its default tolerance 10; [removeShadowsAlongSlices]
    works on [cleanedData] in place, so the later steps see its
    result. *)
Definition processCell (lowSaturation : Z -> Z -> Z -> bool)
    (cellImageData : ImageData) (cellHeight aggressiveness : Z)
  : Outcome Component :=
  match removeBackground lowSaturation cellImageData 10 aggressiveness with
  | None => Throws
  | Some cleanedData =>
      let cleanedData :=
        removeShadowsAlongSlices cleanedData [0; cellHeight - 1] 3 in
      let shapes := decomposeIntoShapes cleanedData in
      match calculateNineSliceBorders cleanedData shapes with
      | Throws => Throws
      | Returns nineSlice =>
          Returns {| comp_imageData := cleanedData;
                     comp_shapes := ShapeDecomposer.shapes shapes;
                     comp_nineSlice := nineSlice |}
      end
  end.

End Analyzer.

(** ** Trimming transparent padding (the background remover) *)

Module Trim.

Import ShapeDecomposer.

Record Trimmed := mkTrimmed {
  t_image : ImageData;
  t_bounds : Bounds;
  t_isEmpty : bool
}.

(** The result for a transparent or too small component:
    [new ImageData (1, 1)] is one transparent black pixel. *)
Definition emptyTrim : Trimmed :=
  {| t_image := {| img_width := 1; img_height := 1; img_data := [0; 0; 0; 0] |};
     t_bounds := {| b_x := 0; b_y := 0; b_width := 0; b_height := 0 |};
     t_isEmpty := true |}.

(** The bounding box scan of [trimTransparentPadding]: the loop body is
    that of [findContentBounds], the maxima start at -1. *)
Definition trimExtent (img : ImageData) : Extent :=
  fold_left
    (fun e y => fold_left (extendExtent img y) (zrange 0 (img_width img)) e)
    (zrange 0 (img_height img))
    {| minX := img_width img; minY := img_height img; maxX := -1; maxY := -1 |}.

(** [trimmedData[i] = v] on a [Uint8ClampedArray]: an [undefined] value
    is stored as 0, a number is clamped to the range of a byte. *)
Definition storeNum (data : list Z) (i : Z) (v : num) : list Z :=
  store data i (match v with Some z => Z.max 0 (Z.min 255 z) | None => 0 end).

(** The body of the copy loop: the four channels of one pixel. *)
Definition copyPixel (data : list Z) (width minX minY trimmedWidth y : Z)
    (trimmedData : list Z) (x : Z) : list Z :=
  let srcIndex := ((minY + y) * width + (minX + x)) * 4 in
  let dstIndex := (y * trimmedWidth + x) * 4 in
  let t0 := storeNum trimmedData dstIndex (load data srcIndex) in
  let t1 := storeNum t0 (dstIndex + 1) (load data (srcIndex + 1)) in
  let t2 := storeNum t1 (dstIndex + 2) (load data (srcIndex + 2)) in
  storeNum t2 (dstIndex + 3) (load data (srcIndex + 3)).

Definition copyRegion (data : list Z) (width minX minY trimmedWidth trimmedHeight : Z)
  : list Z :=
  fold_left
    (fun trimmedData y =>
       fold_left (copyPixel data width minX minY trimmedWidth y)
         (zrange 0 trimmedWidth) trimmedData)
    (zrange 0 trimmedHeight)
    (replicate (Z.to_nat (trimmedWidth * trimmedHeight * 4)) 0).

Definition trimTransparentPadding (img : ImageData) : Trimmed :=
  let e := trimExtent img in
  if (maxX e =? -1) || (maxY e =? -1) then emptyTrim
  else
    let trimmedWidth := maxX e - minX e + 1 in
    let trimmedHeight := maxY e - minY e + 1 in
    if (trimmedWidth <? 3) || (trimmedHeight <? 3) then emptyTrim
    else
      {| t_image :=
           {| img_width := trimmedWidth; img_height := trimmedHeight;
              img_data := copyRegion (img_data img) (img_width img)
                            (minX e) (minY e) trimmedWidth trimmedHeight |};
         t_bounds := {| b_x := minX e; b_y := minY e;
                        b_width := trimmedWidth; b_height := trimmedHeight |};
         t_isEmpty := false |}.

End Trim.

(** ** Vocabulary of the further statements *)

Module Terms.

Import ShapeDecomposer.

(** Pixel [(x, y)] is a pixel of the image with alpha above 0. *)
Definition visibleAt (img : ImageData) (x y : Z) : Prop :=
  0 <= x < img_width img /\ 0 <= y < img_height img /\
  gt (alphaAt img x y) 0 = true.

(** The box lies inside the image and is not empty. *)
Definition boxInside (img : ImageData) (b : Bounds) : Prop :=
  0 <= b_x b /\ 1 <= b_width b /\ b_x b + b_width b <= img_width img /\
  0 <= b_y b /\ 1 <= b_height b /\ b_y b + b_height b <= img_height img.

(** The geometry a shape of the analysis has with respect to the content
    box [b]: a line is a run of one row or column of the box that is
    longer than 80% of the box and carries the colour of its first
    pixel; a rectangle or rounded rectangle is the box itself, with the
    colour of the pixel at its center. *)
Definition shapeFits (img : ImageData) (b : Bounds) (s : Shape) : Prop :=
  match s with
  | HorizontalLine x y len thickness color =>
      b_x b <= x /\ x + len <= b_x b + b_width b /\
      b_y b <= y < b_y b + b_height b /\
      4 * b_width b < 5 * len /\ thickness = 1 /\
      color = pixelAt (img_data img) ((y * img_width img + x) * 4)
  | VerticalLine x y len thickness color =>
      b_y b <= y /\ y + len <= b_y b + b_height b /\
      b_x b <= x < b_x b + b_width b /\
      4 * b_height b < 5 * len /\ thickness = 1 /\
      color = pixelAt (img_data img) ((y * img_width img + x) * 4)
  | Rectangle x y width height color cornerRadius =>
      x = b_x b /\ y = b_y b /\ width = b_width b /\ height = b_height b /\
      cornerRadius = 0 /\ color = sampleDominantColor img b
  | RoundedRectangle x y width height color cornerRadius corners =>
      x = b_x b /\ y = b_y b /\ width = b_width b /\ height = b_height b /\
      color = sampleDominantColor img b
  end.

End Terms.

(** *** Vocabulary for the grid detector *)

Module GridTerms.

Import GridDetector.

(** The lines a divider group stands for: [start, ..., end]. *)
Definition linesOf (g : DividerGroup) : list Z :=
  zrange (g_start g) (g_end g + 1).

(** The fields of a group agree: the center lies between start and end,
    and the width counts the lines from start to end. *)
Definition wellShaped (g : DividerGroup) : Prop :=
  g_start g <= g_center g <= g_end g /\
  g_width g = g_end g - g_start g + 1.

(** Every two neighbours of the list have centers at least [minGap]
    apart. *)
Fixpoint spaced (minGap : Z) (groups : list DividerGroup) : Prop :=
  match groups with
  | a :: (b :: _) as rest =>
      minGap <= g_center b - g_center a /\ spaced minGap rest
  | _ => True
  end.

(** The point [(px, py)] lies in the rectangle of the cell. *)
Definition cellContains (c : Cell) (px py : Z) : Prop :=
  cell_x c <= px < cell_x c + cell_width c /\
  cell_y c <= py < cell_y c + cell_height c.

(** The rectangle of the segment lies inside the image. *)
Definition segmentInside (img : ImageData) (s : Segment) : Prop :=
  0 <= seg_x s /\ seg_x s + seg_width s <= img_width img /\
  0 <= seg_y s /\ seg_y s + seg_height s <= img_height img.

(** The group is a run of at least one line inside [0, size). *)
Definition groupInside (size : Z) (g : DividerGroup) : Prop :=
  0 <= g_start g /\ 1 <= g_width g /\ g_start g + g_width g <= size.

(** Every pixel of the image has the four bytes of the first pixel. *)
Definition singleColour (img : ImageData) : Prop :=
  forall p c, 0 <= p < img_width img * img_height img -> 0 <= c < 4 ->
    load (img_data img) (p * 4 + c) = load (img_data img) c.

(** A 3 x 2 image of one colour. *)
Definition plain : ImageData :=
  {| img_width := 3; img_height := 2;
     img_data := concat (repeat [10; 20; 30; 255] 6) |}.

End GridTerms.

(** *** Vocabulary for the background remover *)

Module BackgroundTerms.

Import BackgroundRemover.

(** The four channels of the colour were read inside the buffer. *)
Definition definedColor (c : Color) : Prop :=
  is_Some (c_r c) /\ is_Some (c_g c) /\ is_Some (c_b c) /\ is_Some (c_a c).

(** The points sampled by [sampleBackgroundPoints] when the inset points
    are taken: the four corners, then the four points [inset] pixels
    inwards. *)
Definition samplePoints (width height : Z) : list (Z * Z) :=
  let inset := Z.min 3 (Z.min width height / 4) in
  [(0, 0); (width - 1, 0); (0, height - 1); (width - 1, height - 1);
   (inset, inset); (width - 1 - inset, inset);
   (inset, height - 1 - inset); (width - 1 - inset, height - 1 - inset)].

(** Pixel [(x, y)] is fewer than [depth] pixels away from an edge of the
    image. *)
Definition nearEdge (width height depth x y : Z) : Prop :=
  x < depth \/ y < depth \/ width - 1 - depth < x \/ height - 1 - depth < y.

(** An alpha value that is neither 0 nor at least 250. *)
Definition halfTransparent (alpha : num) : Prop :=
  exists a, alpha = Some a /\ 0 < a < 250.

(** The rows that [removeShadowsAlongSlices] scans for the slice lines. *)
Definition inSomeBand (height shadowWidth : Z) (sliceLines : list Z) (y : Z)
  : Prop :=
  exists s, In s sliceLines /\ In y (sliceBand height s shadowWidth).

(** The state of the flood fill covers the reachable pixels: a candidate
    on the border, or next to a visited pixel, is visited or waits in
    the queue. *)
Definition floodCovers (candidate : Z -> bool) (width height : Z)
    (visited queue : list Z) : Prop :=
  (forall x y,
     inside width height x y -> onEdge width height x y ->
     candidate (y * width + x) = true ->
     load visited (y * width + x) = Some 1 \/ In (y * width + x) queue) /\
  (forall x y x' y',
     inside width height x y -> load visited (y * width + x) = Some 1 ->
     inside width height x' y' -> adjacent x y x' y' ->
     candidate (y' * width + x') = true ->
     load visited (y' * width + x') = Some 1 \/ In (y' * width + x') queue).

(** The entries of a [visited] or [result] array are 0 or 1. *)
Definition flags (width height : Z) (marks : list Z) : Prop :=
  Z.of_nat (length marks) = width * height /\
  Forall (fun v => v = 0 \/ v = 1) marks.

End BackgroundTerms.

(** *** Vocabulary for trimming *)

Module TrimTerms.

(** A 5 x 5 image: an opaque 3 x 3 square with one transparent pixel of
    padding on each side. *)
Definition padded : ImageData :=
  let T := [0; 0; 0; 0] in
  let C := [10; 20; 30; 255] in
  {| img_width := 5; img_height := 5;
     img_data := concat [T; T; T; T; T;  T; C; C; C; T;  T; C; C; C; T;
                         T; C; C; C; T;  T; T; T; T; T] |}.

End TrimTerms.

(** * Proofs *)

(** ** Typed arrays and loops *)

Module JsFacts.

Lemma in_zrange lo hi x : In x (zrange lo hi) <-> lo <= x < hi.
Proof.
  unfold zrange. rewrite in_map_iff. split.
  - intros (i & <- & Hi). apply in_seq in Hi. lia.
  - intros Hx. exists (Z.to_nat (x - lo)). split; [lia|].
    apply in_seq. lia.
Qed.

Lemma zrange_empty lo hi : hi <= lo -> zrange lo hi = [].
Proof.
  intros Hle. unfold zrange.
  replace (Z.to_nat (hi - lo)) with 0%nat by lia. reflexivity.
Qed.

Lemma length_zrange lo hi : length (zrange lo hi) = Z.to_nat (hi - lo).
Proof. unfold zrange. now rewrite length_map, length_seq. Qed.


Lemma load_Some_range (data : list Z) i a :
  load data i = Some a -> 0 <= i < Z.of_nat (length data).
Proof.
  unfold load. destruct (Z.ltb_spec i 0); [discriminate|].
  intros Hl. apply lookup_lt_Some in Hl. lia.
Qed.

Lemma load_in_range (data : list Z) i :
  0 <= i < Z.of_nat (length data) -> exists a, load data i = Some a.
Proof.
  intros Hi. unfold load. destruct (Z.ltb_spec i 0); [lia|].
  destruct (lookup_lt_is_Some_2 data (Z.to_nat i)) as [a Ha]; [lia|].
  now exists a.
Qed.

Lemma load_lookup (data : list Z) (n : nat) :
  load data (Z.of_nat n) = data !! n.
Proof.
  unfold load. destruct (Z.ltb_spec (Z.of_nat n) 0); [lia|].
  now rewrite Nat2Z.id.
Qed.

Lemma length_store (data : list Z) i v : length (store data i v) = length data.
Proof. unfold store. destruct (i <? 0); [reflexivity|apply length_insert]. Qed.

Lemma load_store_eq (data : list Z) i v a :
  load data i = Some a -> load (store data i v) i = Some v.
Proof.
  intros Hl. pose proof (load_Some_range _ _ _ Hl) as Hr.
  unfold load, store. destruct (Z.ltb_spec i 0); [lia|].
  apply list_lookup_insert_eq. lia.
Qed.

Lemma load_store_ne (data : list Z) i j v :
  i <> j -> load (store data i v) j = load data j.
Proof.
  intros Hne. unfold load, store.
  destruct (Z.ltb_spec j 0); [reflexivity|].
  destruct (Z.ltb_spec i 0); [reflexivity|].
  apply list_lookup_insert_ne. lia.
Qed.

Lemma lookup_store (data : list Z) i v (n : nat) :
  store data i v !! n = data !! n \/
  (i = Z.of_nat n /\ store data i v !! n = Some v).
Proof.
  unfold store. destruct (Z.ltb_spec i 0); [now left|].
  destruct (Nat.eq_dec (Z.to_nat i) n) as [<-|Hne].
  - destruct (Nat.lt_ge_cases (Z.to_nat i) (length data)).
    + right. split; [lia|]. now apply list_lookup_insert_eq.
    + left. now rewrite list_insert_ge.
  - left. now apply list_lookup_insert_ne.
Qed.

(** An invariant of the loop state survives the loop. *)
Lemma fold_left_inv {A B} (P : A -> Prop) (f : A -> B -> A) (l : list B) :
  (forall a b, In b l -> P a -> P (f a b)) ->
  forall a, P a -> P (fold_left f l a).
Proof.
  induction l as [|b l IH]; simpl; intros Hstep a Ha; [exact Ha|].
  apply IH; [|apply Hstep; auto].
  intros a' b' Hb'. apply Hstep. now right.
Qed.

(** A loop in which one iteration turns [P] into [Q], while every
    iteration keeps [P] and keeps [Q], ends in [Q]. *)
Lemma fold_left_hits {A B} (P Q : A -> Prop) (f : A -> B -> A) (l : list B)
    (hit : B) :
  In hit l ->
  (forall a b, P a -> P (f a b)) ->
  (forall a b, Q a -> Q (f a b)) ->
  (forall a, P a -> Q (f a hit)) ->
  forall a, P a -> Q (fold_left f l a).
Proof.
  intros Hin HP HQ Hhit.
  induction l as [|b l IH]; simpl; [destruct Hin|].
  intros a Ha. destruct Hin as [->|Hin].
  - apply fold_left_inv; [intros; now apply HQ|now apply Hhit].
  - apply IH; [exact Hin|now apply HP].
Qed.

Lemma gt_weaken (a : num) k k' : k' <= k -> gt a k = true -> gt a k' = true.
Proof.
  destruct a as [v|]; simpl; [|discriminate].
  intros Hle Hk. apply Z.ltb_lt in Hk. apply Z.ltb_lt. lia.
Qed.

End JsFacts.

Import JsFacts.

(** ** The shape decomposer *)

Module ShapeFacts.

Import ShapeDecomposer.

Section Kinds.

Variable img : ImageData.

Lemma hStep_kind b y st x :
  Forall (fun s => isHorizontalLine s = true) (fst st) ->
  Forall (fun s => isHorizontalLine s = true) (fst (hStep img b y st x)).
Proof.
  intros Hst. unfold hStep. destruct st as [lines [[s c]|]]; simpl in *.
  - destruct (_ || _); simpl; [|exact Hst].
    destruct (longRun _ _); [|exact Hst].
    apply Forall_app. split; [exact Hst|]. now constructor.
  - destruct (gt _ 0); exact Hst.
Qed.

Lemma vStep_kind b x st y :
  Forall (fun s => isVerticalLine s = true) (fst st) ->
  Forall (fun s => isVerticalLine s = true) (fst (vStep img b x st y)).
Proof.
  intros Hst. unfold vStep. destruct st as [lines [[s c]|]]; simpl in *.
  - destruct (_ || _); simpl; [|exact Hst].
    destruct (longRun _ _); [|exact Hst].
    apply Forall_app. split; [exact Hst|]. now constructor.
  - destruct (gt _ 0); exact Hst.
Qed.

Lemma detectHorizontalLines_kind b :
  Forall (fun s => isHorizontalLine s = true) (detectHorizontalLines img b).
Proof.
  unfold detectHorizontalLines.
  apply fold_left_inv; [|constructor].
  intros lines y _ Hlines.
  apply (fold_left_inv
           (fun st => Forall (fun s => isHorizontalLine s = true) (fst st)));
    [|exact Hlines].
  intros st x _. apply hStep_kind.
Qed.

Lemma detectVerticalLines_kind b :
  Forall (fun s => isVerticalLine s = true) (detectVerticalLines img b).
Proof.
  unfold detectVerticalLines.
  apply fold_left_inv; [|constructor].
  intros lines x _ Hlines.
  apply (fold_left_inv
           (fun st => Forall (fun s => isVerticalLine s = true) (fst st)));
    [|exact Hlines].
  intros st y _. apply vStep_kind.
Qed.

Lemma detectRectangles_kind b :
  Forall (fun s => isRoundedRectangle s = false) (detectRectangles img b).
Proof. unfold detectRectangles. destruct (checkIfRectangle _ _); repeat constructor. Qed.

Lemma detectRoundedRectangles_kind b :
  Forall (fun s => isRectangle s = false) (detectRoundedRectangles img b).
Proof.
  unfold detectRoundedRectangles.
  destruct (hasRounding _); repeat constructor.
Qed.

Lemma lines_not_rectangles (l : list Shape) :
  Forall (fun s => isHorizontalLine s = true) l \/
  Forall (fun s => isVerticalLine s = true) l ->
  Forall (fun s => isRectangle s = false /\ isRoundedRectangle s = false) l.
Proof.
  intros [H|H]; eapply Forall_impl; try exact H;
    intros [] Hs; simpl in *; try discriminate; auto.
Qed.

End Kinds.

(** *** A buffer without visible pixels yields no shape *)

Section Transparent.

Variable img : ImageData.

Hypothesis transparent : forall x y, gt (alphaAt img x y) 0 = false.

Lemma hStep_idle b y lines x : hStep img b y (lines, None) x = (lines, None).
Proof.
  unfold hStep; simpl.
  destruct (x <? b_x b + b_width b).
  - fold (alphaAt img x y). now rewrite transparent.
  - reflexivity.
Qed.

Lemma vStep_idle b x lines y : vStep img b x (lines, None) y = (lines, None).
Proof.
  unfold vStep; simpl.
  destruct (y <? b_y b + b_height b).
  - fold (alphaAt img x y). now rewrite transparent.
  - reflexivity.
Qed.

Lemma detectHorizontalLines_transparent b : detectHorizontalLines img b = [].
Proof.
  unfold detectHorizontalLines.
  apply (fold_left_inv (fun lines => lines = [])); [|reflexivity].
  intros lines y _ ->.
  assert (H : forall xs, fold_left (hStep img b y) xs ([], None) = ([], None)).
  { induction xs as [|x xs IH]; simpl; [reflexivity|].
    now rewrite hStep_idle. }
  now rewrite H.
Qed.

Lemma detectVerticalLines_transparent b : detectVerticalLines img b = [].
Proof.
  unfold detectVerticalLines.
  apply (fold_left_inv (fun lines => lines = [])); [|reflexivity].
  intros lines x _ ->.
  assert (H : forall ys, fold_left (vStep img b x) ys ([], None) = ([], None)).
  { induction ys as [|y ys IH]; simpl; [reflexivity|].
    now rewrite vStep_idle. }
  now rewrite H.
Qed.

Lemma above_false k x y : 0 <= k -> gt (alphaAt img x y) k = false.
Proof.
  intros Hk. destruct (gt (alphaAt img x y) k) eqn:E; [|reflexivity].
  apply (gt_weaken _ _ 0) in E; [|exact Hk]. now rewrite transparent in E.
Qed.

Lemma countFilled_transparent b : countFilled img b = 0.
Proof.
  unfold countFilled.
  apply (fold_left_inv (fun n => n = 0)); [|reflexivity].
  intros n y _ ->.
  apply (fold_left_inv (fun n => n = 0)); [|reflexivity].
  intros n x _ ->. now rewrite above_false.
Qed.

Lemma detectRectangles_transparent b : detectRectangles img b = [].
Proof.
  unfold detectRectangles, checkIfRectangle, ratioAbove95.
  rewrite countFilled_transparent.
  destruct (Z.eqb_spec (b_width b * b_height b) 0); [reflexivity|].
  destruct (Z.ltb_spec 0 (b_width b * b_height b)).
  - destruct (Z.ltb_spec (19 * (b_width b * b_height b)) (20 * 0)); [lia|reflexivity].
  - destruct (Z.ltb_spec (20 * 0) (19 * (b_width b * b_height b))); [lia|reflexivity].
Qed.

Lemma walkDiagonal_transparent sx sy dx dy steps :
  walkDiagonal img sx sy dx dy steps = 0.
Proof.
  induction steps as [|i rest IH]; simpl; [reflexivity|].
  now rewrite above_false.
Qed.

Lemma detectRoundedRectangles_transparent b : detectRoundedRectangles img b = [].
Proof.
  unfold detectRoundedRectangles, analyzeCorners, measureCornerRadius.
  simpl. now rewrite !walkDiagonal_transparent.
Qed.

Lemma decompose_transparent :
  shapes (decomposeIntoShapes img) = [] /\
  isEmpty (decomposeIntoShapes img) = true.
Proof.
  unfold decomposeIntoShapes.
  destruct (findContentBounds img) as [b|]; [|now split].
  rewrite detectRoundedRectangles_transparent, detectRectangles_transparent,
    detectHorizontalLines_transparent, detectVerticalLines_transparent.
  now split.
Qed.

End Transparent.

Lemma isEmpty_shapes img :
  isEmpty (decomposeIntoShapes img) = true <->
  shapes (decomposeIntoShapes img) = [].
Proof.
  unfold decomposeIntoShapes.
  destruct (findContentBounds img) as [b|]; simpl; [|tauto].
  match goal with |- context [length ?l] => destruct l end; simpl.
  - tauto.
  - split; discriminate.
Qed.

(** In a well-formed buffer, every alpha byte that can be read at all is
    the alpha of a pixel of the image. *)
Lemma no_content_transparent img :
  wellFormed img -> ~ hasContent img ->
  forall x y, gt (alphaAt img x y) 0 = false.
Proof.
  intros (Hw & Hh & Hlen) Hno x y.
  destruct (gt (alphaAt img x y) 0) eqn:E; [|reflexivity].
  exfalso. apply Hno.
  unfold alphaAt in E.
  destruct (load (img_data img) ((y * img_width img + x) * 4 + 3)) as [a|] eqn:El;
    [|discriminate].
  pose proof (load_Some_range _ _ _ El) as Hr.
  set (p := y * img_width img + x) in *.
  assert (Hp : 0 <= p < img_width img * img_height img) by lia.
  assert (Hwpos : 0 < img_width img) by nia.
  exists (p mod img_width img), (p / img_width img).
  pose proof (Z.mod_pos_bound p (img_width img) Hwpos).
  pose proof (Z.div_mod p (img_width img) ltac:(lia)).
  assert (0 <= p / img_width img) by (apply Z.div_pos; lia).
  assert (p / img_width img < img_height img)
    by (apply Z.div_lt_upper_bound; lia).
  split; [lia|]. split; [lia|].
  unfold alphaAt.
  replace (p / img_width img * img_width img + p mod img_width img) with p by lia.
  now rewrite El.
Qed.

(** *** The model on small images *)

Example twoDots_analysis :
  decomposeIntoShapes twoDots =
    {| shapes := [];
       bounds := Some {| b_x := 0; b_y := 0; b_width := 3; b_height := 3 |};
       isEmpty := true |}.
Proof. reflexivity. Qed.

Example cutCorners_rounded :
  List.filter isRoundedRectangle (shapes (decomposeIntoShapes cutCorners)) =
    [RoundedRectangle 0 0 8 8
       {| c_r := Some 255; c_g := Some 0; c_b := Some 255; c_a := Some 255 |} 1
       {| r_topLeft := 1; r_topRight := 1;
          r_bottomLeft := 1; r_bottomRight := 1 |}].
Proof. vm_compute. reflexivity. Qed.

Example zero_width_bounds :
  bounds (decomposeIntoShapes (mkImage 0 5 [])) =
    Some {| b_x := 0; b_y := 5; b_width := 1; b_height := -4 |}.
Proof. reflexivity. Qed.

(** *** Claims about [decomposeIntoShapes] *)

(** C1, as stated, fails: the two opaque dots of [twoDots] fire no
    detector, so [isEmpty] is true although the buffer has content. *)
Lemma isEmpty_with_content :
  ~ (isEmpty (decomposeIntoShapes twoDots) = true <-> ~ hasContent twoDots).
Proof.
  intros [Hto _]. apply Hto; [reflexivity|].
  exists 0, 0. repeat split; try reflexivity; simpl; lia.
Qed.

(** C1, amended: [isEmpty] is true exactly when the returned shape list
    is empty, and it is true for every well-formed buffer that has no
    pixel with alpha above 0. *)
Theorem isEmpty_characterised img :
  wellFormed img ->
  (isEmpty (decomposeIntoShapes img) = true <->
   shapes (decomposeIntoShapes img) = []) /\
  (~ hasContent img -> isEmpty (decomposeIntoShapes img) = true).
Proof.
  intros Hwf. split; [apply isEmpty_shapes|].
  intros Hno. apply decompose_transparent.
  now apply no_content_transparent.
Qed.

Lemma isEmpty_characterised_witness :
  wellFormed twoDots /\
  ((isEmpty (decomposeIntoShapes twoDots) = true <->
    shapes (decomposeIntoShapes twoDots) = []) /\
   (~ hasContent twoDots -> isEmpty (decomposeIntoShapes twoDots) = true)).
Proof.
  assert (Hwf : wellFormed twoDots) by (unfold wellFormed; simpl; lia).
  split; [exact Hwf|]. exact (isEmpty_characterised twoDots Hwf).
Defined.

(** C2, as stated, fails on the red strip: it has four horizontal lines,
    not one, and it does have vertical lines. *)
Lemma redStrip_not_one_line :
  ~ (countOf isHorizontalLine (shapes (decomposeIntoShapes redStrip)) = 1%nat /\
     (forall s, In s (shapes (decomposeIntoShapes redStrip)) ->
                isHorizontalLine s = true ->
                exists l, lineLength s = Some l /\ 40 <= l <= 50) /\
     countOf isVerticalLine (shapes (decomposeIntoShapes redStrip)) = 0%nat).
Proof.
  intros (Hone & _ & _). vm_compute in Hone. discriminate.
Qed.

(** C2, amended: on the 50 x 4 opaque red strip, [decomposeIntoShapes]
    returns one rectangle, then one horizontal line of length 50 for each
    of the 4 rows, then one vertical line of length 4 for each of the 50
    columns. *)
Theorem redStrip_shapes :
  shapes (decomposeIntoShapes redStrip) =
    Rectangle 0 0 50 4 red 0
    :: map (fun y => HorizontalLine 0 y 50 1 red) (zrange 0 4)
    ++ map (fun x => VerticalLine x 0 4 1 red) (zrange 0 50).
Proof. vm_compute. reflexivity. Qed.

(** C7: when the shape list holds a rounded rectangle, it holds no plain
    rectangle. *)
Theorem rounded_excludes_rectangle img :
  existsb isRoundedRectangle (shapes (decomposeIntoShapes img)) = true ->
  existsb isRectangle (shapes (decomposeIntoShapes img)) = false.
Proof.
  unfold decomposeIntoShapes.
  destruct (findContentBounds img) as [b|]; simpl; [|discriminate].
  pose proof (lines_not_rectangles _ (or_introl (detectHorizontalLines_kind img b)))
    as HH.
  pose proof (lines_not_rectangles _ (or_intror (detectVerticalLines_kind img b)))
    as HV.
  set (hl := detectHorizontalLines img b) in *.
  set (vl := detectVerticalLines img b) in *.
  assert (Hlines_rect : existsb isRectangle (hl ++ vl) = false).
  { apply not_true_is_false. intros H. apply existsb_exists in H.
    destruct H as (s & Hin & Hs). apply in_app_or in Hin.
    rewrite Forall_forall in HH, HV.
    destruct Hin as [Hin|Hin];
      [apply list_elem_of_In, HH in Hin|apply list_elem_of_In, HV in Hin];
      destruct Hin; congruence. }
  assert (Hlines_round : existsb isRoundedRectangle (hl ++ vl) = false).
  { apply not_true_is_false. intros H. apply existsb_exists in H.
    destruct H as (s & Hin & Hs). apply in_app_or in Hin.
    rewrite Forall_forall in HH, HV.
    destruct Hin as [Hin|Hin];
      [apply list_elem_of_In, HH in Hin|apply list_elem_of_In, HV in Hin];
      destruct Hin; congruence. }
  destruct (detectRoundedRectangles img b) as [|r rs] eqn:Er; simpl.
  - rewrite !existsb_app.
    pose proof (detectRectangles_kind img b) as Hk.
    intros H. apply orb_true_iff in H. destruct H as [H|H].
    + apply existsb_exists in H. destruct H as (s & Hin & Hs).
      rewrite Forall_forall in Hk. apply list_elem_of_In, Hk in Hin. congruence.
    + rewrite <- existsb_app in H. congruence.
  - intros _. pose proof (detectRoundedRectangles_kind img b) as Hk.
    rewrite Er in Hk. apply Forall_cons in Hk. destruct Hk as [Hr Hrs].
    rewrite Hr. simpl. rewrite existsb_app, Hlines_rect, orb_false_r.
    apply not_true_is_false. intros H. apply existsb_exists in H.
    destruct H as (s & Hin & Hs).
    rewrite Forall_forall in Hrs. apply list_elem_of_In, Hrs in Hin. congruence.
Qed.

Lemma rounded_excludes_rectangle_witness :
  existsb isRoundedRectangle (shapes (decomposeIntoShapes cutCorners)) = true /\
  existsb isRectangle (shapes (decomposeIntoShapes cutCorners)) = false.
Proof.
  assert (H : existsb isRoundedRectangle
                (shapes (decomposeIntoShapes cutCorners)) = true)
    by (vm_compute; reflexivity).
  split; [exact H|]. exact (rounded_excludes_rectangle cutCorners H).
Defined.

(** *** Buffers with a side of length 0 *)




Section ZeroWidth.

Variable img : ImageData.

Hypothesis Hheight : 1 <= img_height img.

Let box : Bounds :=
  {| b_x := 0; b_y := img_height img; b_width := 1;
     b_height := 1 - img_height img |}.





End ZeroWidth.

Example zero_by_zero_analysis :
  decomposeIntoShapes (mkImage 0 0 [0; 0; 0; 255]) =
    {| shapes :=
         [Rectangle 0 0 1 1
            {| c_r := Some 0; c_g := Some 0; c_b := Some 0; c_a := Some 255 |} 0;
          HorizontalLine 0 0 1 1
            {| c_r := Some 0; c_g := Some 0; c_b := Some 0; c_a := Some 255 |};
          VerticalLine 0 0 1 1
            {| c_r := Some 0; c_g := Some 0; c_b := Some 0; c_a := Some 255 |}];
       bounds := Some {| b_x := 0; b_y := 0; b_width := 1; b_height := 1 |};
       isEmpty := false |}.
Proof. reflexivity. Qed.




End ShapeFacts.

(** ** The grid detector *)

Module GridFacts.

Import GridDetector.

(** *** Sorted coordinate lists *)

Lemma zrange_cons lo hi : lo < hi -> zrange lo hi = lo :: zrange (lo + 1) hi.
Proof.
  intros Hlt. unfold zrange.
  replace (Z.to_nat (hi - lo)) with (S (Z.to_nat (hi - (lo + 1)))) by lia.
  simpl. f_equal; [lia|].
  rewrite <- seq_shift, map_map. apply map_ext. intros i. lia.
Qed.

Lemma zrange_increasing lo hi : StronglySorted Z.lt (zrange lo hi).
Proof.
  remember (Z.to_nat (hi - lo)) as n eqn:Hn.
  revert lo Hn. induction n as [|n IH]; intros lo Hn.
  - rewrite zrange_empty by lia. constructor.
  - rewrite zrange_cons by lia. constructor.
    + apply IH. lia.
    + apply List.Forall_forall. intros x Hx. apply in_zrange in Hx. lia.
Qed.

Lemma filter_increasing (P : Z -> Prop) `{!forall x, Decision (P x)} (l : list Z) :
  StronglySorted Z.lt l -> StronglySorted Z.lt (filter P l).
Proof.
  induction 1 as [|a l Hl IH Ha]; [constructor|].
  rewrite filter_cons. destruct (decide (P a)); [|exact IH].
  constructor; [exact IH|].
  apply Forall_forall. intros x Hx. apply list_elem_of_filter in Hx.
  rewrite Forall_forall in Ha. now apply Ha.
Qed.

Lemma sorted_drop_middle {A} (R : relation A) (l1 l2 : list A) x :
  StronglySorted R (l1 ++ x :: l2) -> StronglySorted R (l1 ++ l2).
Proof.
  rewrite !StronglySorted_app, StronglySorted_cons.
  intros (Hall & H1 & _ & H2). repeat split; try assumption.
  intros x1 x2 Hx1 Hx2. apply Hall; [exact Hx1|]. now apply list_elem_of_further.
Qed.

Lemma sorted_lookup_lt (l : list Z) (i j : nat) a b :
  StronglySorted Z.lt l -> l !! i = Some a -> l !! j = Some b -> (i < j)%nat ->
  a < b.
Proof.
  intros Hs. revert i j. induction Hs as [|c l Hl IH Hc]; intros i j Hi Hj Hij.
  - discriminate.
  - destruct j as [|j]; [lia|]. simpl in Hj. destruct i as [|i]; simpl in Hi.
    + injection Hi as <-. rewrite List.Forall_forall in Hc.
      apply Hc. apply list_elem_of_In. eapply list_elem_of_lookup_2; eauto.
    + eapply IH; eauto. lia.
Qed.

(** *** Consolidation *)

Lemma round_div_2_between s e : s <= e -> s <= round_div (s + e) 2 <= e.
Proof.
  intros Hle. unfold round_div.
  pose proof (Z.div_mod (2 * (s + e) + 2) (2 * 2) ltac:(lia)).
  pose proof (Z.mod_pos_bound (2 * (s + e) + 2) (2 * 2) ltac:(lia)).
  lia.
Qed.

Lemma consolidateFrom_groups s e rest groups :
  consolidateFrom s e rest groups = groups ++ consolidateFrom s e rest [].
Proof.
  revert s e groups. induction rest as [|dv rest IH]; intros s e groups; simpl.
  - reflexivity.
  - destruct (dv =? e + 1); [apply IH|].
    rewrite (IH dv dv (groups ++ _)), (IH dv dv [group s e]).
    simpl. now rewrite <- app_assoc.
Qed.

Lemma consolidateFrom_centers rest : forall s e,
  s <= e -> StronglySorted Z.lt rest -> Forall (fun dv => e < dv) rest ->
  StronglySorted Z.lt (map g_center (consolidateFrom s e rest [])) /\
  Forall (fun g => s <= g_center g) (consolidateFrom s e rest []) /\
  Forall (fun g => g_center g = round_div (g_start g + g_end g) 2)
    (consolidateFrom s e rest []).
Proof.
  induction rest as [|dv rest IH]; intros s e Hse Hsorted Hafter; simpl.
  - pose proof (round_div_2_between s e Hse).
    repeat split; repeat constructor; simpl; lia.
  - apply StronglySorted_cons in Hsorted. destruct Hsorted as [Hdv Hrest].
    apply Forall_cons in Hafter. destruct Hafter as [Hedv Hafter].
    destruct (Z.eqb_spec dv (e + 1)) as [->|Hne].
    + apply IH; [lia|exact Hrest|exact Hdv].
    + rewrite consolidateFrom_groups. simpl.
      destruct (IH dv dv ltac:(lia) Hrest Hdv) as (Hs & Hlow & Hc).
      pose proof (round_div_2_between s e Hse).
      repeat split.
      * constructor; [exact Hs|].
        apply List.Forall_forall. intros c Hc'. apply in_map_iff in Hc'.
        destruct Hc' as (g & <- & Hg). rewrite Forall_forall in Hlow.
        apply list_elem_of_In, Hlow in Hg. simpl. lia.
      * constructor; [simpl; lia|].
        eapply Forall_impl; [exact Hlow|]. simpl. intros g Hg. lia.
      * constructor; [reflexivity|exact Hc].
Qed.

Lemma refined_centers groups :
  Forall (fun g => g_center g = round_div (g_start g + g_end g) 2) groups ->
  map g_center (refineDividerCenters groups) = map g_center groups.
Proof.
  unfold refineDividerCenters. rewrite map_map. simpl.
  induction 1 as [|g gs Hg Hgs IH]; simpl; [reflexivity|].
  now rewrite IH, Hg.
Qed.

Lemma consolidate_centers dividers :
  StronglySorted Z.lt dividers ->
  StronglySorted Z.lt
    (map g_center (refineDividerCenters (consolidateDividersToGroups dividers))).
Proof.
  intros Hs. unfold consolidateDividersToGroups.
  destruct dividers as [|d0 rest]; [constructor|].
  apply StronglySorted_cons in Hs. destruct Hs as [Hd0 Hrest].
  destruct (consolidateFrom_centers rest d0 d0 ltac:(lia) Hrest Hd0)
    as (Hsorted & _ & Hc).
  now rewrite refined_centers.
Qed.

(** *** Minimum-gap enforcement *)

Lemma insert_last {A} (pre : list A) k c :
  <[Nat.pred (length (pre ++ [k])) := c]> (pre ++ [k]) = pre ++ [c].
Proof.
  rewrite length_app. simpl.
  replace (Nat.pred (length pre + 1)) with (length pre + 0)%nat by lia.
  now rewrite insert_app_r.
Qed.

Lemma gapStep_tracks minGap st c :
  tracksLast st -> tracksLast (gapStep minGap st c).
Proof.
  unfold tracksLast, gapStep. destruct st as [filtered [k|]]; simpl.
  - intros [pre ->].
    destruct (minGap <=? _); simpl; [now exists (pre ++ [k])|].
    destruct (g_width k <? g_width c); simpl.
    + exists pre. apply insert_last.
    + now exists pre.
  - intros ->. now exists [].
Qed.

Lemma gapStep_sorted (R : relation DividerGroup) minGap st c l :
  tracksLast st ->
  StronglySorted R (fst st ++ c :: l) ->
  StronglySorted R (fst (gapStep minGap st c) ++ l).
Proof.
  unfold tracksLast, gapStep. destruct st as [filtered [k|]]; simpl.
  - intros [pre ->] Hs.
    destruct (minGap <=? _); simpl; [now rewrite <- app_assoc|].
    destruct (g_width k <? g_width c); simpl.
    + rewrite insert_last. rewrite <- app_assoc in Hs |- *. simpl in *.
      now apply sorted_drop_middle in Hs.
    + now apply sorted_drop_middle in Hs.
  - intros -> Hs. exact Hs.
Qed.

Lemma enforce_sorted (R : relation DividerGroup) minGap l : forall st,
  tracksLast st -> StronglySorted R (fst st ++ l) ->
  StronglySorted R (fst (fold_left (gapStep minGap) l st)).
Proof.
  induction l as [|c l IH]; simpl; intros st Ht Hs.
  - now rewrite app_nil_r in Hs.
  - apply IH; [now apply gapStep_tracks|now apply gapStep_sorted].
Qed.

Lemma sorted_by_center groups :
  StronglySorted Z.lt (map g_center groups) ->
  StronglySorted (fun a b => g_center a < g_center b) groups.
Proof.
  induction groups as [|g gs IH]; simpl; intros Hs; [constructor|].
  apply StronglySorted_cons in Hs. destruct Hs as [Hg Hgs].
  constructor; [now apply IH|].
  apply List.Forall_forall. intros x Hx. rewrite Forall_forall in Hg.
  apply Hg, list_elem_of_In, in_map, Hx.
Qed.

Lemma enforceMinimumGap_increasing groups minGap :
  StronglySorted Z.lt (map g_center groups) ->
  StronglySorted Z.lt (map g_center (enforceMinimumGap groups minGap)).
Proof.
  intros Hs. unfold enforceMinimumGap.
  apply (StronglySorted_fmap g_center (fun a b => g_center a < g_center b));
    [auto|].
  apply enforce_sorted; [reflexivity|]. simpl. now apply sorted_by_center.
Qed.

Lemma gapStep_snd minGap st c :
  snd (gapStep minGap st c) = Some c \/ snd (gapStep minGap st c) = snd st.
Proof.
  unfold gapStep. destruct st as [filtered [k|]]; simpl; [|now left].
  destruct (minGap <=? _); simpl; [now left|].
  destruct (g_width k <? g_width c); simpl; [now left|now right].
Qed.

Lemma gapStep_lastBelow minGap st c l :
  StronglySorted (fun a b => g_center a <= g_center b) (c :: l) ->
  lastBelow st (c :: l) -> lastBelow (gapStep minGap st c) l.
Proof.
  intros Hs Hst k Hk. apply StronglySorted_cons in Hs. destruct Hs as [Hc _].
  destruct (gapStep_snd minGap st c) as [E|E]; rewrite E in Hk.
  - injection Hk as <-. exact Hc.
  - apply Hst in Hk. now apply Forall_cons in Hk.
Qed.

Lemma gapStep_ahead g1 g2 st1 st2 c :
  g1 <= g2 -> ahead st1 st2 ->
  lastBelow st1 [c] -> lastBelow st2 [c] ->
  ahead (gapStep g1 st1 c) (gapStep g2 st2 c).
Proof.
  intros Hg Ha H1 H2. unfold ahead, gapStep in *.
  destruct st1 as [f1 [k1|]], st2 as [f2 [k2|]]; simpl in *;
    try contradiction.
  - specialize (H1 k1 eq_refl). specialize (H2 k2 eq_refl).
    apply Forall_cons in H1. apply Forall_cons in H2.
    destruct H1 as [H1 _], H2 as [H2 _].
    destruct (Z.leb_spec g1 (g_center c - g_center k1));
      destruct (Z.leb_spec g2 (g_center c - g_center k2));
      destruct (Z.ltb_spec (g_width k1) (g_width c));
      destruct (Z.ltb_spec (g_width k2) (g_width c));
      simpl; rewrite ?length_app, ?length_insert; simpl; lia.
  - destruct Ha as [-> ->]. simpl. right. lia.
Qed.

Lemma enforce_ahead g1 g2 l : forall st1 st2,
  g1 <= g2 -> ahead st1 st2 ->
  StronglySorted (fun a b => g_center a <= g_center b) l ->
  lastBelow st1 l -> lastBelow st2 l ->
  ahead (fold_left (gapStep g1) l st1) (fold_left (gapStep g2) l st2).
Proof.
  induction l as [|c l IH]; simpl; intros st1 st2 Hg Ha Hs H1 H2; [exact Ha|].
  apply IH; try assumption.
  - apply gapStep_ahead; try assumption.
    + intros k Hk. specialize (H1 k Hk). apply Forall_cons in H1.
      constructor; [tauto|constructor].
    + intros k Hk. specialize (H2 k Hk). apply Forall_cons in H2.
      constructor; [tauto|constructor].
  - now apply StronglySorted_cons in Hs.
  - now apply gapStep_lastBelow.
  - now apply gapStep_lastBelow.
Qed.

(** *** Cells *)

Lemma at_increasing (l : list Z) i :
  StronglySorted Z.lt l -> 0 <= i -> i + 1 < Z.of_nat (length l) ->
  at_ l i < at_ l (i + 1).
Proof.
  intros Hs Hi Hlen. unfold at_.
  destruct (lookup_lt_is_Some_2 l (Z.to_nat i)) as [a Ha]; [lia|].
  destruct (lookup_lt_is_Some_2 l (Z.to_nat (i + 1))) as [b Hb]; [lia|].
  rewrite (nth_lookup_Some _ _ _ _ Ha), (nth_lookup_Some _ _ _ _ Hb).
  eapply sorted_lookup_lt; eauto. lia.
Qed.

Lemma cells_between hs vs width height :
  hs <> [] \/ vs <> [] ->
  StronglySorted Z.lt hs -> StronglySorted Z.lt vs ->
  Forall (fun c => 0 < cell_width c /\ 0 < cell_height c)
    (computeCells hs vs width height).
Proof.
  intros Hne Hh Hv.
  assert (E : computeCells hs vs width height =
              flat_map
                (fun row =>
                   map (fun col =>
                          {| cell_row := row; cell_col := col;
                             cell_x := at_ vs col; cell_y := at_ hs row;
                             cell_width := at_ vs (col + 1) - at_ vs col;
                             cell_height := at_ hs (row + 1) - at_ hs row |})
                     (zrange 0 (Z.of_nat (length vs) - 1)))
                (zrange 0 (Z.of_nat (length hs) - 1))).
  { unfold computeCells. destruct hs, vs; try reflexivity.
    destruct Hne; contradiction. }
  rewrite E. apply List.Forall_forall. intros c Hc.
  apply in_flat_map in Hc. destruct Hc as (row & Hrow & Hc).
  apply in_map_iff in Hc. destruct Hc as (col & <- & Hcol).
  apply in_zrange in Hrow, Hcol. simpl.
  pose proof (at_increasing vs col Hv ltac:(lia) ltac:(lia)).
  pose proof (at_increasing hs row Hh ltac:(lia) ltac:(lia)).
  lia.
Qed.

(** *** The model on small inputs *)

Example oneColumnLine_grid :
  let grid := detectGrid oneColumnLine 5 50 50 in
  (columns grid, rows grid, horizontalSlices grid, verticalSlices grid,
   cells grid) = (0, 1, [], [0], []).
Proof. reflexivity. Qed.

Example threeBands_centers :
  map g_center threeBands = [1; 5; 8] /\
  map g_center (enforceMinimumGap threeBands 3) = [1; 5; 8] /\
  map g_center (enforceMinimumGap threeBands 4) = [1; 8].
Proof. repeat split; reflexivity. Qed.

(** *** Claims about [detectGrid] *)

(** C3, as stated, fails: [oneColumnLine] yields exactly one vertical
    slice and reports 0 columns, not 1. *)
Lemma one_slice_no_column :
  ~ (columns (detectGrid oneColumnLine 5 50 50) =
       Z.max (Z.of_nat (length (verticalSlices (detectGrid oneColumnLine 5 50 50))) - 1) 1 /\
     rows (detectGrid oneColumnLine 5 50 50) =
       Z.max (Z.of_nat (length (horizontalSlices (detectGrid oneColumnLine 5 50 50))) - 1) 1).
Proof. intros [Hc _]. vm_compute in Hc. discriminate. Qed.

(** C3, amended: [columns] is the number of vertical slices minus one
    when there is a vertical slice, and 1 when there is none; so it is
    [max (verticalSlices.length - 1, 1)] except for exactly one slice,
    which reports 0 columns.  The same holds for [rows] and the
    horizontal slices. *)
Theorem grid_counts img tolerance minXGap minYGap :
  columns (detectGrid img tolerance minXGap minYGap) =
    (if Z.of_nat (length (verticalSlices (detectGrid img tolerance minXGap minYGap))) =? 1
     then 0
     else Z.max (Z.of_nat (length (verticalSlices (detectGrid img tolerance minXGap minYGap))) - 1) 1) /\
  rows (detectGrid img tolerance minXGap minYGap) =
    (if Z.of_nat (length (horizontalSlices (detectGrid img tolerance minXGap minYGap))) =? 1
     then 0
     else Z.max (Z.of_nat (length (horizontalSlices (detectGrid img tolerance minXGap minYGap))) - 1) 1).
Proof.
  unfold detectGrid; simpl.
  split.
  - set (n := Z.of_nat (length _)).
    destruct (Z.ltb_spec 0 n), (Z.eqb_spec n 1); subst n; lia.
  - set (n := Z.of_nat (length _)).
    destruct (Z.ltb_spec 0 n), (Z.eqb_spec n 1); subst n; lia.
Qed.

(** C5: on divider groups listed in the order of their centers, a larger
    minimum gap never retains more groups. *)
Theorem minimum_gap_monotone groups g1 g2 :
  orderedGroups groups -> g1 <= g2 ->
  (length (enforceMinimumGap groups g2) <= length (enforceMinimumGap groups g1))%nat.
Proof.
  intros Hs Hg. unfold enforceMinimumGap.
  assert (Ha : ahead (fold_left (gapStep g1) groups ([], None))
                     (fold_left (gapStep g2) groups ([], None))).
  { apply enforce_ahead; try assumption.
    - now split.
    - intros k Hk. discriminate.
    - intros k Hk. discriminate. }
  unfold ahead in Ha.
  destruct (snd (fold_left (gapStep g1) groups ([], None))),
           (snd (fold_left (gapStep g2) groups ([], None)));
    try contradiction.
  - lia.
  - destruct Ha as [-> ->]. simpl. lia.
Qed.

Lemma minimum_gap_monotone_witness :
  orderedGroups threeBands /\
  3 <= 4 /\
  (length (enforceMinimumGap threeBands 4)
   <= length (enforceMinimumGap threeBands 3))%nat.
Proof.
  assert (Ho : orderedGroups threeBands).
  { unfold orderedGroups. repeat constructor; vm_compute; discriminate. }
  assert (Hg : 3 <= 4) by lia.
  split; [exact Ho|]. split; [exact Hg|].
  exact (minimum_gap_monotone threeBands 3 4 Ho Hg).
Defined.

(** C10: the horizontal and the vertical slices of [detectGrid] are
    strictly increasing, and every cell laid out between consecutive
    slices (every cell, unless there is no slice at all) has positive
    width and height. *)
Theorem slices_increasing img tolerance minXGap minYGap :
  strictlyIncreasing (horizontalSlices (detectGrid img tolerance minXGap minYGap)) /\
  strictlyIncreasing (verticalSlices (detectGrid img tolerance minXGap minYGap)) /\
  ((horizontalSlices (detectGrid img tolerance minXGap minYGap) = [] /\
    verticalSlices (detectGrid img tolerance minXGap minYGap) = []) \/
   Forall (fun c => 0 < cell_width c /\ 0 < cell_height c)
     (cells (detectGrid img tolerance minXGap minYGap))).
Proof.
  unfold strictlyIncreasing, detectGrid; simpl.
  set (hs := map g_center (enforceMinimumGap _ minYGap)).
  set (vs := map g_center (enforceMinimumGap _ minXGap)).
  assert (Hh : StronglySorted Z.lt hs).
  { apply enforceMinimumGap_increasing, consolidate_centers,
      filter_increasing, zrange_increasing. }
  assert (Hv : StronglySorted Z.lt vs).
  { apply enforceMinimumGap_increasing, consolidate_centers,
      filter_increasing, zrange_increasing. }
  split; [exact Hh|]. split; [exact Hv|].
  destruct hs as [|h0 hs'] eqn:Eh.
  - destruct vs as [|v0 vs'] eqn:Ev; [now left|].
    right. apply cells_between; auto.
  - right. apply cells_between; auto.
Qed.

End GridFacts.

(** ** The background remover *)

Module BackgroundFacts.

Import BackgroundRemover.

(** *** Only alpha bytes are written, and only with 0 *)

Lemma cleared_refl data : onlyAlphaCleared data data.
Proof. split; [reflexivity|]. intros i. now left. Qed.

Lemma cleared_trans d1 d2 d3 :
  onlyAlphaCleared d1 d2 -> onlyAlphaCleared d2 d3 -> onlyAlphaCleared d1 d3.
Proof.
  intros [Hl12 H12] [Hl23 H23]. split; [congruence|].
  intros i. destruct (H23 i) as [E|E]; [|now right].
  rewrite E. apply H12.
Qed.

Lemma alpha_index k (i : nat) : k * 4 + 3 = Z.of_nat i -> (i mod 4 = 3)%nat.
Proof.
  intros Hi. apply Nat2Z.inj. rewrite Nat2Z.inj_mod, <- Hi.
  change (Z.of_nat 4) with 4. change (Z.of_nat 3) with 3.
  now rewrite Z.add_comm, Z.mod_add by lia.
Qed.

Lemma color_index (p c : nat) : (c < 4)%nat -> ((4 * p + c) mod 4 = c)%nat.
Proof.
  intros Hc. replace (4 * p + c)%nat with (c + p * 4)%nat by lia.
  rewrite Nat.Div0.mod_add. now apply Nat.mod_small.
Qed.

Lemma cleared_store data k : onlyAlphaCleared data (store data (k * 4 + 3) 0).
Proof.
  split; [apply length_store|].
  intros i. destruct (lookup_store data (k * 4 + 3) 0 i) as [E|[Hi E]].
  - now left.
  - right. split; [now apply (alpha_index k)|exact E].
Qed.

(** A loop whose iterations only clear alpha bytes only clears alpha
    bytes. *)
Lemma cleared_fold {B} (f : list Z -> B -> list Z) (l : list B) :
  (forall d b, onlyAlphaCleared d (f d b)) ->
  forall d, onlyAlphaCleared d (fold_left f l d).
Proof.
  intros Hf d.
  apply (fold_left_inv (onlyAlphaCleared d)); [|apply cleared_refl].
  intros d' b _ Hd'. eapply cleared_trans; [exact Hd'|apply Hf].
Qed.

Lemma sliceShadowStep_cleared width height y data x :
  onlyAlphaCleared data (sliceShadowStep width height y data x).
Proof.
  unfold sliceShadowStep.
  destruct (_ && _); [apply cleared_store|apply cleared_refl].
Qed.

Lemma sliceShadowRows_cleared width height shadowWidth data sliceLine :
  onlyAlphaCleared data (sliceShadowRows width height shadowWidth data sliceLine).
Proof.
  unfold sliceShadowRows. apply cleared_fold. intros d y.
  apply cleared_fold. intros d' x. apply sliceShadowStep_cleared.
Qed.

Lemma removeShadowsAlongSlices_cleared img sliceLines shadowWidth :
  onlyAlphaCleared (img_data img)
    (img_data (removeShadowsAlongSlices img sliceLines shadowWidth)).
Proof.
  unfold removeShadowsAlongSlices; simpl. apply cleared_fold.
  intros d s. apply sliceShadowRows_cleared.
Qed.

Lemma applyTransparencyMask_cleared data mask :
  onlyAlphaCleared data (applyTransparencyMask data mask).
Proof.
  unfold applyTransparencyMask. apply cleared_fold. intros d i.
  unfold maskStep. destruct (eqk _ 1); [apply cleared_store|apply cleared_refl].
Qed.

Lemma checkAndRemoveGradient_cleared lowSaturation width height aggressiveness
    data x y :
  onlyAlphaCleared data
    (checkAndRemoveGradient lowSaturation width height aggressiveness data x y).
Proof.
  unfold checkAndRemoveGradient.
  destruct (_ || _); [apply cleared_refl|].
  destruct (eqk _ 0); [apply cleared_refl|].
  destruct (lt _ 250); [apply cleared_store|].
  destruct (_ && _); [apply cleared_store|apply cleared_refl].
Qed.

Lemma removeGradientShadows_cleared lowSaturation width height data aggressiveness :
  onlyAlphaCleared data
    (removeGradientShadows lowSaturation width height data aggressiveness).
Proof.
  unfold removeGradientShadows. apply cleared_fold. intros d depth.
  cbv zeta. eapply cleared_trans.
  2: { apply cleared_fold. intros d' i. eapply cleared_trans.
       2: apply checkAndRemoveGradient_cleared.
       apply checkAndRemoveGradient_cleared. }
  apply cleared_fold. intros d' i. eapply cleared_trans.
  2: apply checkAndRemoveGradient_cleared.
  apply checkAndRemoveGradient_cleared.
Qed.

Lemma removeSemiTransparentPixels_cleared width height data aggressiveness :
  onlyAlphaCleared data
    (removeSemiTransparentPixels width height data aggressiveness).
Proof.
  unfold removeSemiTransparentPixels. apply cleared_fold. intros d i.
  unfold semiTransparentStep.
  destruct (load d (i * 4 + 3)); [|apply cleared_refl].
  destruct (_ && _); [apply cleared_store|apply cleared_refl].
Qed.

Lemma cleared_pixels before after :
  bytes before -> onlyAlphaCleared before after ->
  colorKeptAlphaLowered before after.
Proof.
  intros Hb [_ Hc] p.
  repeat split.
  - destruct (Hc (4 * p)%nat) as [E|[Hm _]]; [exact E|].
    replace (4 * p)%nat with (4 * p + 0)%nat in Hm by lia.
    rewrite color_index in Hm; lia.
  - destruct (Hc (4 * p + 1)%nat) as [E|[Hm _]]; [exact E|].
    rewrite color_index in Hm; lia.
  - destruct (Hc (4 * p + 2)%nat) as [E|[Hm _]]; [exact E|].
    rewrite color_index in Hm; lia.
  - destruct (Hc (4 * p + 3)%nat) as [E|[_ E]]; [now left|now right].
  - intros a Ha.
    destruct (Hc (4 * p + 3)%nat) as [E|[_ E]].
    + exists a. split; [congruence|lia].
    + exists 0. split; [exact E|].
      unfold bytes in Hb. rewrite Forall_lookup in Hb.
      apply Hb in Ha. lia.
Qed.

(** *** Shadows along slice lines *)

Lemma cleared_load before after i :
  onlyAlphaCleared before after ->
  load after i = load before i \/ load after i = Some 0.
Proof.
  intros [_ Hc]. unfold load. destruct (i <? 0); [now left|].
  destruct (Hc (Z.to_nat i)) as [E|[_ E]]; [now left|now right].
Qed.

Lemma cleared_zero before after i :
  onlyAlphaCleared before after ->
  load before i = Some 0 -> load after i = Some 0.
Proof.
  intros Hc Hz. destruct (cleared_load before after i Hc); congruence.
Qed.

Lemma neighbors_mono_from before after x y width height dirs :
  onlyAlphaCleared before after ->
  forall n n', n <= n' ->
  fold_left
    (fun n '(dx, dy) =>
       if inBounds width height (x + dx) (y + dy)
          && eqk (load before (((y + dy) * width + (x + dx)) * 4 + 3)) 0
       then n + 1 else n) dirs n
  <= fold_left
    (fun n '(dx, dy) =>
       if inBounds width height (x + dx) (y + dy)
          && eqk (load after (((y + dy) * width + (x + dx)) * 4 + 3)) 0
       then n + 1 else n) dirs n'.
Proof.
  intros Hc. induction dirs as [|[dx dy] dirs IH]; simpl; intros n n' Hn.
  - exact Hn.
  - apply IH.
    destruct (inBounds width height (x + dx) (y + dy)); simpl; [|exact Hn].
    destruct (load before (((y + dy) * width + (x + dx)) * 4 + 3)) as [v|] eqn:Eb;
      simpl.
    + destruct (Z.eqb_spec v 0) as [->|Hv].
      * rewrite (cleared_zero _ _ _ Hc Eb). simpl. lia.
      * destruct (eqk _ 0); lia.
    + destruct (eqk _ 0); lia.
Qed.

Lemma transparentNeighbors_mono before after x y width height :
  onlyAlphaCleared before after ->
  transparentNeighbors before x y width height
  <= transparentNeighbors after x y width height.
Proof.
  intros Hc. unfold transparentNeighbors.
  apply neighbors_mono_from; [exact Hc|lia].
Qed.

Section OnePixel.

Variables (width height x y : Z).

Let index := (y * width + x) * 4.

(** The pixel is transparent already, or the scan will clear it. *)
Let doomed (data : list Z) : Prop :=
  load data (index + 3) = Some 0 \/
  exists a, load data (index + 3) = Some a /\ 0 < a < 128 /\
            2 <= transparentNeighbors data x y width height.

Let gone (data : list Z) : Prop := load data (index + 3) = Some 0.

Lemma doomed_cleared before after :
  onlyAlphaCleared before after -> doomed before -> doomed after.
Proof.
  intros Hc [Hz|(a & Ha & Hr & Hn)].
  - left. now apply (cleared_zero before).
  - destruct (cleared_load before after (index + 3) Hc) as [E|E].
    + right. exists a. split; [congruence|]. split; [exact Hr|].
      pose proof (transparentNeighbors_mono before after x y width height Hc).
      lia.
    + now left.
Qed.

Lemma gone_cleared before after :
  onlyAlphaCleared before after -> gone before -> gone after.
Proof. intros Hc Hz. now apply (cleared_zero before). Qed.

Lemma sliceShadowStep_hits data :
  doomed data -> gone (sliceShadowStep width height y data x).
Proof.
  unfold gone, sliceShadowStep, isShadowPixel. fold index.
  intros [Hz|(a & Ha & Hr & Hn)].
  - rewrite Hz. simpl. exact Hz.
  - rewrite Ha. simpl.
    destruct (Z.ltb_spec 0 a); [|lia].
    destruct (Z.ltb_spec a 200); [|lia].
    destruct (Z.leb_spec 2 (transparentNeighbors data x y width height)); [|lia].
    destruct (Z.ltb_spec a 128); [|lia].
    simpl. now apply (load_store_eq _ _ _ a).
Qed.

Lemma sliceShadowRows_hits shadowWidth sliceLine data :
  0 <= x < width -> 0 <= y < height ->
  sliceLine - shadowWidth <= y < sliceLine + shadowWidth ->
  doomed data -> gone (sliceShadowRows width height shadowWidth data sliceLine).
Proof.
  intros Hx Hy Hband. unfold sliceShadowRows.
  apply (fold_left_hits doomed gone) with (hit := y).
  - apply in_zrange. lia.
  - intros d y' Hd. eapply doomed_cleared; [|exact Hd].
    apply cleared_fold. intros. apply sliceShadowStep_cleared.
  - intros d y' Hd. eapply gone_cleared; [|exact Hd].
    apply cleared_fold. intros. apply sliceShadowStep_cleared.
  - intros d. apply (fold_left_hits doomed gone) with (hit := x).
    + apply in_zrange. lia.
    + intros d' x' Hd. eapply doomed_cleared; [|exact Hd].
      apply sliceShadowStep_cleared.
    + intros d' x' Hd. eapply gone_cleared; [|exact Hd].
      apply sliceShadowStep_cleared.
    + apply sliceShadowStep_hits.
Qed.

Lemma sliceLines_hit shadowWidth sliceLines sliceLine data :
  In sliceLine sliceLines ->
  0 <= x < width -> 0 <= y < height ->
  sliceLine - shadowWidth <= y < sliceLine + shadowWidth ->
  doomed data ->
  gone (fold_left (sliceShadowRows width height shadowWidth) sliceLines data).
Proof.
  intros Hin Hx Hy Hband.
  apply (fold_left_hits doomed gone) with (hit := sliceLine).
  - exact Hin.
  - intros d s Hd. eapply doomed_cleared; [|exact Hd].
    apply sliceShadowRows_cleared.
  - intros d s Hd. eapply gone_cleared; [|exact Hd].
    apply sliceShadowRows_cleared.
  - intros d. now apply sliceShadowRows_hits.
Qed.

End OnePixel.

(** C4, as stated, fails: the middle pixel of [fringe 150] has alpha 150
    and two transparent neighbours, lies on the slice line, and keeps its
    alpha. *)
Lemma opaque_fringe_survives :
  ~ (forall s x y a,
       In s [0] -> Z.abs (y - s) <= 3 ->
       0 <= x < img_width (fringe 150) -> 0 <= y < img_height (fringe 150) ->
       load (img_data (fringe 150)) ((y * img_width (fringe 150) + x) * 4 + 3) = Some a ->
       0 < a < 200 ->
       2 <= transparentNeighbors (img_data (fringe 150)) x y
              (img_width (fringe 150)) (img_height (fringe 150)) ->
       load (img_data (removeShadowsAlongSlices (fringe 150) [0] 3))
         ((y * img_width (fringe 150) + x) * 4 + 3) = Some 0).
Proof.
  intros H.
  specialize (H 0 1 0 150 (or_introl eq_refl)).
  assert (E : load (img_data (removeShadowsAlongSlices (fringe 150) [0] 3))
                ((0 * img_width (fringe 150) + 1) * 4 + 3) = Some 150)
    by reflexivity.
  rewrite H in E; try discriminate; try reflexivity; simpl; lia.
Qed.

(** C4, amended: after [removeShadowsAlongSlices], every pixel of a row
    [y] with [s - shadowWidth <= y < s + shadowWidth] for a given slice
    coordinate [s], whose alpha [a] in the input satisfies [0 < a < 128]
    and which has at least 2 fully transparent 4-connected in-bounds
    neighbours in the input, has alpha 0. *)
Theorem slice_shadows_removed img sliceLines shadowWidth s x y a :
  In s sliceLines ->
  s - shadowWidth <= y < s + shadowWidth ->
  0 <= x < img_width img -> 0 <= y < img_height img ->
  load (img_data img) ((y * img_width img + x) * 4 + 3) = Some a ->
  0 < a < 128 ->
  2 <= transparentNeighbors (img_data img) x y (img_width img) (img_height img) ->
  load (img_data (removeShadowsAlongSlices img sliceLines shadowWidth))
    ((y * img_width img + x) * 4 + 3) = Some 0.
Proof.
  intros Hin Hband Hx Hy Ha Hr Hn. unfold removeShadowsAlongSlices; simpl.
  apply (sliceLines_hit _ _ _ _ _ _ s); try assumption.
  right. exists a. auto.
Qed.

Lemma slice_shadows_removed_witness :
  load (img_data (removeShadowsAlongSlices (fringe 100) [0] 3))
    ((0 * img_width (fringe 100) + 1) * 4 + 3) = Some 0.
Proof.
  apply (slice_shadows_removed (fringe 100) [0] 3 0 1 0 100).
  - left. reflexivity.
  - lia.
  - simpl. lia.
  - simpl. lia.
  - reflexivity.
  - lia.
  - vm_compute. discriminate.
Defined.

(** *** The flood fill *)

Lemma zeros_replicate n : zeros (replicate n 0) = n.
Proof. induction n as [|n IH]; simpl; [reflexivity|now rewrite IH]. Qed.

Lemma zeros_insert (visited : list Z) (n : nat) :
  visited !! n = Some 0 ->
  (zeros (<[n := 1%Z]> visited) + 1 = zeros visited)%nat.
Proof.
  revert n. induction visited as [|v visited IH]; intros n Hn; [discriminate|].
  destruct n as [|n]; simpl in *.
  - injection Hn as ->. simpl. lia.
  - rewrite <- (IH n Hn). lia.
Qed.

Lemma zeros_store visited index :
  load visited index = Some 0 ->
  (zeros (store visited index 1%Z) + 1 = zeros visited)%nat.
Proof.
  unfold load, store. destruct (index <? 0); [discriminate|].
  apply zeros_insert.
Qed.

Lemma length_edge_pairs (f g : Z -> Z) (l : list Z) :
  length (flat_map (fun i => [f i; g i]) l) = (2 * length l)%nat.
Proof. induction l as [|i l IH]; simpl; [reflexivity|]. rewrite IH. lia. Qed.

Lemma load_map_zrange (f : Z -> Z) n i :
  0 <= i < n -> load (map f (zrange 0 n)) i = Some (f i).
Proof.
  intros Hi. unfold load, zrange. destruct (Z.ltb_spec i 0); [lia|].
  rewrite map_map.
  change (map ?g ?l) with (g <$> l). rewrite list_lookup_fmap.
  rewrite lookup_seq_lt by lia. simpl. f_equal. f_equal. lia.
Qed.

Section Grid.

Variables (width height : Z).

Hypothesis width_pos : 0 < width.
Hypothesis height_pos : 0 < height.

(** Pixel number [index] is the pixel of column [index mod width] and
    row [index / width]. *)
Lemma coords index :
  0 <= index < width * height ->
  index = index / width * width + index mod width /\
  0 <= index mod width < width /\ 0 <= index / width < height.
Proof.
  intros Hi.
  pose proof (Z.div_mod index width ltac:(lia)).
  pose proof (Z.mod_pos_bound index width width_pos).
  assert (0 <= index / width) by (apply Z.div_pos; lia).
  assert (index / width < height) by (apply Z.div_lt_upper_bound; lia).
  lia.
Qed.

Lemma coords_of x y :
  0 <= x < width -> (y * width + x) mod width = x /\ (y * width + x) / width = y.
Proof.
  intros Hx. split.
  - symmetry. apply (Z.mod_unique _ _ y); lia.
  - symmetry. apply (Z.div_unique _ _ y x); lia.
Qed.

Lemma index_in_range x y :
  0 <= x < width -> 0 <= y < height -> 0 <= y * width + x < width * height.
Proof. intros Hx Hy. nia. Qed.

End Grid.

Lemma Forall_push {A} (P : A -> Prop) (c : bool) (q : list A) v :
  Forall P q -> (c = true -> P v) -> Forall P (if c then q ++ [v] else q).
Proof.
  intros Hq Hv. destruct c; [|exact Hq].
  apply Forall_app. split; [exact Hq|]. constructor; [now apply Hv|constructor].
Qed.

Lemma length_push {A} (c : bool) (q : list A) v :
  (length (if c then q ++ [v] else q) <= length q + 1)%nat.
Proof. destruct c; [rewrite length_app; simpl|]; lia. Qed.

Section Flood.

Variables (candidate : Z -> bool) (width height : Z) (mask : list Z).

Hypothesis width_pos : 0 < width.
Hypothesis height_pos : 0 < height.
Hypothesis mask_candidate :
  forall i, 0 <= i < width * height ->
            load mask i = Some (if candidate i then 1 else 0).

Lemma visit_reachable index :
  queuedNearReachable candidate width height index ->
  candidate index = true ->
  reachable candidate width height (index mod width) (index / width).
Proof.
  intros [Hr Hnear] Hc.
  destruct (coords width height width_pos index Hr) as (E & Hx & Hy).
  destruct Hnear as [He|(x & y & Hxy & Ha)].
  - apply reach_edge; [now split|exact He|now rewrite <- E].
  - apply (reach_step _ _ _ x y); [exact Hxy|now split|exact Ha|now rewrite <- E].
Qed.

(** The four indices pushed after a visit are queued legitimately. *)
Lemma neighbour_queued index j :
  0 <= index < width * height ->
  reachable candidate width height (index mod width) (index / width) ->
  (j = index - 1 /\ 0 < index mod width) \/
  (j = index + 1 /\ index mod width < width - 1) \/
  (j = index - width /\ 0 < index / width) \/
  (j = index + width /\ index / width < height - 1) ->
  queuedNearReachable candidate width height j.
Proof.
  intros Hr Hreach Hj.
  destruct (coords width height width_pos index Hr) as (E & Hx & Hy).
  set (x := index mod width) in *. set (y := index / width) in *.
  assert (Hgen : forall x' y', 0 <= x' < width -> 0 <= y' < height ->
                   j = y' * width + x' -> adjacent x y x' y' ->
                   queuedNearReachable candidate width height j).
  { intros x' y' Hx' Hy' -> Hadj. split.
    - now apply index_in_range.
    - destruct (coords_of width x' y' Hx') as [-> ->].
      right. exists x, y. now split. }
  destruct Hj as [[-> Hc]|[[-> Hc]|[[-> Hc]|[-> Hc]]]].
  - apply (Hgen (x - 1) y); [lia|lia|lia|]. left. now split.
  - apply (Hgen (x + 1) y); [lia|lia|lia|]. right. left. now split.
  - apply (Hgen x (y - 1)); [lia|lia|lia|]. right. right. left. now split.
  - apply (Hgen x (y + 1)); [lia|lia|lia|]. right. right. right. now split.
Qed.

(** The loop stops within its fuel and marks only reachable
    candidates. *)
Lemma floodLoop_spec fuel : forall visited result queue,
  Z.of_nat (length visited) = width * height ->
  markedReachable candidate width height result ->
  Forall (queuedNearReachable candidate width height) queue ->
  (5 * zeros visited + length queue <= fuel)%nat ->
  exists r, floodLoop fuel mask width height visited result queue = Some r /\
            markedReachable candidate width height r.
Proof.
  induction fuel as [|fuel IH]; intros visited result queue Hlen Hmarked Hqueue Hfuel.
  - destruct queue; simpl in *; [eauto|lia].
  - destruct queue as [|index rest]; [simpl; eauto|].
    apply Forall_cons in Hqueue. destruct Hqueue as [Hq Hrest].
    cbn [floodLoop]. simpl in Hfuel.
    destruct (truthy (load visited index) || eqk (load mask index) 0) eqn:Hskip.
    + apply IH; try assumption. lia.
    + apply orb_false_iff in Hskip. destruct Hskip as [Hv Hm].
      pose proof Hq as [Hr _].
      destruct (load_in_range visited index ltac:(lia)) as [v Hvis].
      assert (v = 0) as ->.
      { rewrite Hvis in Hv. simpl in Hv. apply negb_false_iff, Z.eqb_eq in Hv.
        exact Hv. }
      assert (Hc : candidate index = true).
      { rewrite (mask_candidate index Hr) in Hm.
        destruct (candidate index); [reflexivity|discriminate]. }
      pose proof (visit_reachable index Hq Hc) as Hreach.
      pose proof (zeros_store visited index Hvis) as Hz.
      apply IH.
      * now rewrite length_store.
      * intros i Hi Hl. destruct (Z.eq_dec i index) as [->|Hne]; [now split|].
        rewrite load_store_ne in Hl by congruence. now apply Hmarked.
      * repeat apply Forall_push; try exact Hrest;
          intros Hcond; apply Z.ltb_lt in Hcond;
          apply (neighbour_queued index); try assumption; tauto.
      * set (q1 := if 0 <? index mod width then rest ++ [index - 1] else rest).
        set (q2 := if index mod width <? width - 1 then q1 ++ [index + 1] else q1).
        set (q3 := if 0 <? index / width then q2 ++ [index - width] else q2).
        pose proof (length_push (0 <? index mod width) rest (index - 1)) as L1.
        pose proof (length_push (index mod width <? width - 1) q1 (index + 1)) as L2.
        pose proof (length_push (0 <? index / width) q2 (index - width)) as L3.
        pose proof (length_push (index / width <? height - 1) q3 (index + width)) as L4.
        fold q1 in L1. fold q2 in L2. fold q3 in L3. lia.
Qed.

Lemma edgeQueue_queued :
  Forall (queuedNearReachable candidate width height) (edgeQueue width height).
Proof.
  unfold edgeQueue. apply Forall_app. split.
  - apply List.Forall_forall. intros q Hq. apply in_flat_map in Hq.
    destruct Hq as (x & Hx & Hq). apply in_zrange in Hx.
    destruct Hq as [<-|[<-|[]]].
    + replace x with (0 * width + x) by lia. split.
      * apply index_in_range; lia.
      * destruct (coords_of width x 0 ltac:(lia)) as [-> ->].
        left. unfold onEdge. lia.
    + split.
      * apply index_in_range; lia.
      * destruct (coords_of width x (height - 1) ltac:(lia)) as [-> ->].
        left. unfold onEdge. lia.
  - apply List.Forall_forall. intros q Hq. apply in_flat_map in Hq.
    destruct Hq as (y & Hy & Hq). apply in_zrange in Hy.
    destruct Hq as [<-|[<-|[]]].
    + replace (y * width) with (y * width + 0) by lia. split.
      * apply index_in_range; lia.
      * destruct (coords_of width 0 y ltac:(lia)) as [-> ->].
        left. unfold onEdge. lia.
    + replace (y * width + width - 1) with (y * width + (width - 1)) by lia.
      split.
      * apply index_in_range; lia.
      * destruct (coords_of width (width - 1) y ltac:(lia)) as [-> ->].
        left. unfold onEdge. lia.
Qed.

Lemma floodFillFromEdges_spec :
  exists r, floodFillFromEdges mask width height = Some r /\
            markedReachable candidate width height r.
Proof.
  unfold floodFillFromEdges. apply floodLoop_spec.
  - rewrite length_replicate. nia.
  - intros i Hi Hl. unfold load in Hl.
    destruct (i <? 0); [discriminate|].
    apply lookup_replicate in Hl. destruct Hl as [Hl _]. discriminate.
  - apply edgeQueue_queued.
  - rewrite zeros_replicate. unfold edgeQueue, floodFuel.
    rewrite length_app, !length_edge_pairs, !length_zrange. nia.
Qed.

End Flood.

Lemma createBackgroundMask_spec img backgroundColor tolerance :
  validImageData img = true ->
  exists mask,
    createBackgroundMask img backgroundColor tolerance = Some mask /\
    markedReachable (isCandidate (img_data img) backgroundColor tolerance)
      (img_width img) (img_height img) mask.
Proof.
  intros Hvalid. unfold validImageData in Hvalid.
  apply andb_true_iff in Hvalid. destruct Hvalid as [Hvalid _].
  apply andb_true_iff in Hvalid. destruct Hvalid as [Hw Hh].
  apply Z.ltb_lt in Hw, Hh.
  unfold createBackgroundMask. apply floodFillFromEdges_spec; try assumption.
  intros i Hi. unfold candidateMask.
  now rewrite (load_map_zrange
                 (fun i => if isCandidate (img_data img) backgroundColor tolerance i
                           then 1 else 0)).
Qed.

Lemma reachable_candidate candidate width height x y :
  reachable candidate width height x y -> candidate (y * width + x) = true.
Proof. now destruct 1. Qed.

Lemma adjacent_sym x y x' y' : adjacent x y x' y' -> adjacent x' y' x y.
Proof. unfold adjacent. lia. Qed.

(** The flood never enters an enclosed region. *)
Lemma enclosed_unreachable candidate width height region x y :
  enclosed candidate width height region ->
  reachable candidate width height x y -> ~ region x y.
Proof.
  intros Henc Hreach.
  induction Hreach as [x y _ Hedge _|x y x' y' Hreach IH _ Hadj Hc];
    intros Hin.
  - destruct (Henc x y Hin) as (_ & Hno & _). contradiction.
  - destruct (Henc x' y' Hin) as (_ & _ & Hnext).
    destruct (Hnext x y (adjacent_sym _ _ _ _ Hadj)) as [Hr|Hn].
    + contradiction.
    + apply reachable_candidate in Hreach. congruence.
Qed.

Lemma applyTransparencyMask_keeps data mask i :
  eqk (load mask i) 1 = false ->
  load (applyTransparencyMask data mask) (i * 4 + 3) = load data (i * 4 + 3).
Proof.
  intros Hi. unfold applyTransparencyMask.
  apply (fold_left_inv (fun d => load d (i * 4 + 3) = load data (i * 4 + 3)));
    [|reflexivity].
  intros d j _ Hd. unfold maskStep.
  destruct (eqk (load mask j) 1) eqn:Ej; [|exact Hd].
  rewrite load_store_ne; [exact Hd|].
  intros E. assert (j = i) by lia. subst j. congruence.
Qed.

(** *** The model on a small image *)

(** The white center of [ringed] is enclosed by the black ring: the mask
    leaves it alone, and so do the shadow passes. *)
Example ringed_background_removed :
  option_map
    (fun out => map (fun p => load (img_data out) (p * 4 + 3)) (zrange 0 25))
    (removeBackground lowSaturationExact ringed 10 30) =
  Some (map Some [0; 0; 0; 0; 0;
                  0; 255; 255; 255; 0;
                  0; 255; 255; 255; 0;
                  0; 255; 255; 255; 0;
                  0; 0; 0; 0; 0]).
Proof. vm_compute. reflexivity. Qed.

Example ringed_center_enclosed :
  enclosed (isCandidate (img_data ringed) white 60) 5 5
    (fun x y => x = 2 /\ y = 2).
Proof.
  intros x y [-> ->]. split; [unfold inside; lia|].
  split; [unfold onEdge; lia|].
  intros x' y' [[-> ->]|[[-> ->]|[[-> ->]|[-> ->]]]]; right; reflexivity.
Qed.

Example fringe_150_kept :
  load (img_data (removeShadowsAlongSlices (fringe 150) [0] 3)) 7 = Some 150.
Proof. reflexivity. Qed.

Example fringe_100_cleared :
  load (img_data (removeShadowsAlongSlices (fringe 100) [0] 3)) 7 = Some 0.
Proof. reflexivity. Qed.

(** *** Claims about the background remover *)

(** C6: on a valid image, for every background colour and tolerance (in
    particular those [removeBackground] computes), the flood fill returns
    a mask; the mask marks a pixel only if the pixel is a background
    candidate reachable from a border pixel through 4-connected
    candidates; consequently no pixel of a region that touches no image
    edge and is enclosed by non-candidates is marked, and applying the
    mask keeps its alpha. *)
Theorem mask_marks_edge_connected_background img backgroundColor tolerance :
  validImageData img = true ->
  exists mask,
    createBackgroundMask img backgroundColor tolerance = Some mask /\
    (forall x y,
       inside (img_width img) (img_height img) x y ->
       load mask (y * img_width img + x) = Some 1 ->
       isCandidate (img_data img) backgroundColor tolerance
         (y * img_width img + x) = true /\
       reachable (isCandidate (img_data img) backgroundColor tolerance)
         (img_width img) (img_height img) x y) /\
    (forall region x y,
       enclosed (isCandidate (img_data img) backgroundColor tolerance)
         (img_width img) (img_height img) region ->
       region x y ->
       load mask (y * img_width img + x) <> Some 1 /\
       load (applyTransparencyMask (img_data img) mask)
         ((y * img_width img + x) * 4 + 3)
       = load (img_data img) ((y * img_width img + x) * 4 + 3)).
Proof.
  intros Hvalid.
  destruct (createBackgroundMask_spec img backgroundColor tolerance Hvalid)
    as (mask & Hmask & Hmarked).
  assert (Hw : 0 < img_width img).
  { unfold validImageData in Hvalid.
    apply andb_true_iff in Hvalid. destruct Hvalid as [Hvalid _].
    apply andb_true_iff in Hvalid. destruct Hvalid as [Hw _].
    now apply Z.ltb_lt in Hw. }
  assert (Hsound : forall x y,
            inside (img_width img) (img_height img) x y ->
            load mask (y * img_width img + x) = Some 1 ->
            isCandidate (img_data img) backgroundColor tolerance
              (y * img_width img + x) = true /\
            reachable (isCandidate (img_data img) backgroundColor tolerance)
              (img_width img) (img_height img) x y).
  { intros x y [Hx Hy] Hl.
    destruct (Hmarked (y * img_width img + x)) as [Hc Hreach];
      [apply index_in_range; assumption|exact Hl|].
    destruct (coords_of (img_width img) x y Hx) as [Ex Ey].
    rewrite Ex, Ey in Hreach. now split. }
  exists mask. split; [exact Hmask|]. split; [exact Hsound|].
  intros region x y Henc Hin.
  destruct (Henc x y Hin) as (Hinside & _ & _).
  assert (Hnot : load mask (y * img_width img + x) <> Some 1).
  { intros Hl. destruct (Hsound x y Hinside Hl) as [_ Hreach].
    now apply (enclosed_unreachable _ _ _ region x y Henc Hreach). }
  split; [exact Hnot|].
  apply applyTransparencyMask_keeps.
  destruct (load mask (y * img_width img + x)) as [v|]; [|reflexivity].
  simpl. destruct (Z.eqb_spec v 1) as [->|]; [|reflexivity].
  now contradiction Hnot.
Qed.

Lemma mask_marks_edge_connected_background_witness :
  exists mask,
    createBackgroundMask ringed white 60 = Some mask /\
    (forall x y,
       inside (img_width ringed) (img_height ringed) x y ->
       load mask (y * img_width ringed + x) = Some 1 ->
       isCandidate (img_data ringed) white 60 (y * img_width ringed + x) = true /\
       reachable (isCandidate (img_data ringed) white 60)
         (img_width ringed) (img_height ringed) x y) /\
    (forall region x y,
       enclosed (isCandidate (img_data ringed) white 60)
         (img_width ringed) (img_height ringed) region ->
       region x y ->
       load mask (y * img_width ringed + x) <> Some 1 /\
       load (applyTransparencyMask (img_data ringed) mask)
         ((y * img_width ringed + x) * 4 + 3)
       = load (img_data ringed) ((y * img_width ringed + x) * 4 + 3)).
Proof.
  apply (mask_marks_edge_connected_background ringed white 60).
  reflexivity.
Defined.

(** C9: [removeShadowsAlongSlices] and [removeBackground] (the current
    one and the older one of [background-remover.js]) keep the R, G and
    B bytes of every pixel and leave its alpha unchanged or 0, hence not
    above the input alpha; and [removeBackground] does return on every
    valid image. *)
Theorem removers_only_clear_alpha
    lowSaturation img tolerance aggressiveness sliceLines shadowWidth :
  bytes (img_data img) ->
  colorKeptAlphaLowered (img_data img)
    (img_data (removeShadowsAlongSlices img sliceLines shadowWidth)) /\
  (forall out,
     removeBackground lowSaturation img tolerance aggressiveness = Some out ->
     colorKeptAlphaLowered (img_data img) (img_data out)) /\
  (forall out,
     removeBackgroundFirstCorner img tolerance = Some out ->
     colorKeptAlphaLowered (img_data img) (img_data out)) /\
  (validImageData img = true ->
   (exists out,
      removeBackground lowSaturation img tolerance aggressiveness = Some out) /\
   (exists out, removeBackgroundFirstCorner img tolerance = Some out)).
Proof.
  intros Hb. split; [|split; [|split; [|intros H; split]]].
  - apply cleared_pixels; [exact Hb|]. apply removeShadowsAlongSlices_cleared.
  - intros out Hout. apply cleared_pixels; [exact Hb|].
    unfold removeBackground in Hout.
    destruct (validImageData img); [|discriminate].
    destruct (createBackgroundMask _ _ _) as [mask|]; [|discriminate].
    injection Hout as <-. simpl.
    eapply cleared_trans; [|apply removeSemiTransparentPixels_cleared].
    eapply cleared_trans; [|apply removeGradientShadows_cleared].
    apply applyTransparencyMask_cleared.
  - intros out Hout. apply cleared_pixels; [exact Hb|].
    unfold removeBackgroundFirstCorner in Hout.
    destruct (validImageData img); [|discriminate].
    destruct (createBackgroundMask _ _ _) as [mask|]; [|discriminate].
    injection Hout as <-. simpl. apply applyTransparencyMask_cleared.
  - unfold removeBackground. rewrite H.
    destruct (createBackgroundMask_spec img
                (findMostCommonColor (sampleBackgroundPoints img))
                (Z.max tolerance (aggressiveness * 2)) H) as (mask & -> & _).
    eauto.
  - unfold removeBackgroundFirstCorner. rewrite H.
    destruct (createBackgroundMask_spec img (pixelAt (img_data img) 0)
                tolerance H) as (mask & -> & _).
    eauto.
Qed.

Lemma removers_only_clear_alpha_witness :
  colorKeptAlphaLowered (img_data ringed)
    (img_data (removeShadowsAlongSlices ringed [0; 4] 3)) /\
  (forall out,
     removeBackground lowSaturationExact ringed 10 30 = Some out ->
     colorKeptAlphaLowered (img_data ringed) (img_data out)) /\
  (forall out,
     removeBackgroundFirstCorner ringed 10 = Some out ->
     colorKeptAlphaLowered (img_data ringed) (img_data out)) /\
  (validImageData ringed = true ->
   (exists out, removeBackground lowSaturationExact ringed 10 30 = Some out) /\
   (exists out, removeBackgroundFirstCorner ringed 10 = Some out)).
Proof.
  apply (removers_only_clear_alpha lowSaturationExact ringed 10 30 [0; 4] 3).
  unfold bytes, ringed. simpl. repeat (constructor; [lia|]). constructor.
Defined.

End BackgroundFacts.

(** * Further properties *)

(** ** Loops over index ranges *)

Module LoopFacts.

Lemma zrange_first lo hi : lo < hi -> zrange lo hi = lo :: zrange (lo + 1) hi.
Proof.
  intros Hlt. unfold zrange.
  replace (Z.to_nat (hi - lo)) with (S (Z.to_nat (hi - (lo + 1)))) by lia.
  simpl. f_equal; [lia|].
  rewrite <- seq_shift, map_map. apply map_ext. intros i. lia.
Qed.

Lemma zrange_last lo hi : lo <= hi -> zrange lo (hi + 1) = zrange lo hi ++ [hi].
Proof.
  intros Hle. unfold zrange.
  replace (Z.to_nat (hi + 1 - lo)) with (Z.to_nat (hi - lo) + 1)%nat by lia.
  rewrite seq_app, map_app. simpl. do 3 f_equal. lia.
Qed.

(** A loop over [lo .. hi - 1] whose state satisfies [I x] before the
    iteration for [x] satisfies [I hi] at the end. *)
Lemma fold_zrange_inv {A} (I : Z -> A -> Prop) (f : A -> Z -> A) lo hi a :
  lo <= hi -> I lo a ->
  (forall x a, lo <= x < hi -> I x a -> I (x + 1) (f a x)) ->
  I hi (fold_left f (zrange lo hi) a).
Proof.
  intros Hle. remember (Z.to_nat (hi - lo)) as n eqn:Hn.
  revert lo a Hle Hn. induction n as [|n IH]; intros lo a Hle Hn Ha Hstep.
  - assert (lo = hi) as -> by lia. now rewrite zrange_empty by lia.
  - rewrite zrange_first by lia. simpl. apply IH; try lia.
    + apply Hstep; [lia|exact Ha].
    + intros x a' Hx. apply Hstep. lia.
Qed.

(** A loop whose iterations all leave the state alone. *)
Lemma fold_left_idle {A B} (f : A -> B -> A) (l : list B) a :
  (forall b, In b l -> forall a, f a b = a) -> fold_left f l a = a.
Proof.
  induction l as [|b l IH]; simpl; intros Hf; [reflexivity|].
  rewrite Hf by now left. apply IH. intros b' Hb'. apply Hf. now right.
Qed.

(** As [fold_left_hits], with the elements of the list known. *)
Lemma fold_left_hits_in {A B} (P Q : A -> Prop) (f : A -> B -> A) (l : list B)
    (hit : B) :
  In hit l ->
  (forall a b, In b l -> P a -> P (f a b)) ->
  (forall a b, In b l -> Q a -> Q (f a b)) ->
  (forall a, P a -> Q (f a hit)) ->
  forall a, P a -> Q (fold_left f l a).
Proof.
  induction l as [|b l IH]; simpl; intros Hin HP HQ Hhit a Ha; [destruct Hin|].
  destruct Hin as [->|Hin].
  - apply fold_left_inv; [|now apply Hhit].
    intros a' b' Hb'. apply HQ. now right.
  - apply IH; try assumption.
    + intros a' b' Hb'. apply HP. now right.
    + intros a' b' Hb'. apply HQ. now right.
    + apply HP; [now left|exact Ha].
Qed.

End LoopFacts.

Import LoopFacts.

(** ** More on the shape decomposer *)

Module ShapeMore.

Import ShapeDecomposer Terms.

(** *** The bounding box scan *)

Section Extent.

Variable img : ImageData.

(** The scan started from any extent whose minima are the image sizes
    and whose maxima are not positive: this covers [findContentBounds]
    (maxima 0) and [trimTransparentPadding] (maxima -1). *)
Variable e0 : Extent.

Hypothesis e0_minX : minX e0 = img_width img.
Hypothesis e0_minY : minY e0 = img_height img.
Hypothesis e0_maxX : maxX e0 <= 0.
Hypothesis e0_maxY : maxY e0 <= 0.

Lemma extend_keeps e x y X Y :
  minX e <= X <= maxX e /\ minY e <= Y <= maxY e ->
  minX (extendExtent img y e x) <= X <= maxX (extendExtent img y e x) /\
  minY (extendExtent img y e x) <= Y <= maxY (extendExtent img y e x).
Proof.
  intros Hc. unfold extendExtent. destruct (gt _ 0); simpl; lia.
Qed.

Lemma extend_hits e X Y :
  gt (alphaAt img X Y) 0 = true ->
  minX (extendExtent img Y e X) <= X <= maxX (extendExtent img Y e X) /\
  minY (extendExtent img Y e X) <= Y <= maxY (extendExtent img Y e X).
Proof.
  intros Hv. unfold extendExtent. rewrite Hv. simpl. lia.
Qed.

Lemma scan_covers X Y :
  visibleAt img X Y ->
  let e := fold_left
             (fun e y => fold_left (extendExtent img y) (zrange 0 (img_width img)) e)
             (zrange 0 (img_height img)) e0 in
  minX e <= X <= maxX e /\ minY e <= Y <= maxY e.
Proof.
  intros (HX & HY & Hv). cbv zeta.
  apply (fold_left_hits (fun _ => True)
           (fun e => minX e <= X <= maxX e /\ minY e <= Y <= maxY e))
    with (hit := Y); try exact I.
  - apply in_zrange. lia.
  - auto.
  - intros e y He. apply fold_left_inv; [|exact He].
    intros e' x _. apply extend_keeps.
  - intros e _.
    apply (fold_left_hits (fun _ => True)
             (fun e => minX e <= X <= maxX e /\ minY e <= Y <= maxY e))
      with (hit := X); try exact I.
    + apply in_zrange. lia.
    + auto.
    + intros e' x. apply extend_keeps.
    + intros e' _. now apply extend_hits.
Qed.

Lemma extend_attained e x y :
  0 <= x < img_width img -> 0 <= y < img_height img ->
  e = e0 \/
  ((exists y', visibleAt img (minX e) y') /\ (exists y', visibleAt img (maxX e) y') /\
   (exists x', visibleAt img x' (minY e)) /\ (exists x', visibleAt img x' (maxY e))) ->
  let e' := extendExtent img y e x in
  e' = e0 \/
  ((exists y', visibleAt img (minX e') y') /\ (exists y', visibleAt img (maxX e') y') /\
   (exists x', visibleAt img x' (minY e')) /\ (exists x', visibleAt img x' (maxY e'))).
Proof.
  intros Hx Hy He. cbv zeta. unfold extendExtent.
  destruct (gt (alphaAt img x y) 0) eqn:Hv; [|exact He].
  right. assert (Hvis : visibleAt img x y) by (repeat split; lia || exact Hv).
  simpl. destruct He as [->|(H1 & H2 & H3 & H4)].
  - rewrite e0_minX, e0_minY.
    rewrite (Z.min_r (img_width img) x), (Z.min_r (img_height img) y),
      (Z.max_r (maxX e0) x), (Z.max_r (maxY e0) y) by lia.
    repeat split; eauto.
  - repeat split.
    + destruct (Z.min_spec (minX e) x) as [[_ ->]|[_ ->]]; eauto.
    + destruct (Z.max_spec (maxX e) x) as [[_ ->]|[_ ->]]; eauto.
    + destruct (Z.min_spec (minY e) y) as [[_ ->]|[_ ->]]; eauto.
    + destruct (Z.max_spec (maxY e) y) as [[_ ->]|[_ ->]]; eauto.
Qed.

Lemma scan_attained :
  let e := fold_left
             (fun e y => fold_left (extendExtent img y) (zrange 0 (img_width img)) e)
             (zrange 0 (img_height img)) e0 in
  e = e0 \/
  ((exists y', visibleAt img (minX e) y') /\ (exists y', visibleAt img (maxX e) y') /\
   (exists x', visibleAt img x' (minY e)) /\ (exists x', visibleAt img x' (maxY e))).
Proof.
  cbv zeta. apply fold_left_inv; [|now left].
  intros e y Hy He. apply in_zrange in Hy.
  apply fold_left_inv; [|exact He].
  intros e' x Hx He'. apply in_zrange in Hx.
  now apply extend_attained.
Qed.

Lemma scan_idle :
  ~ hasContent img ->
  fold_left
    (fun e y => fold_left (extendExtent img y) (zrange 0 (img_width img)) e)
    (zrange 0 (img_height img)) e0 = e0.
Proof.
  intros Hno. apply fold_left_idle. intros y Hy e. apply in_zrange in Hy.
  apply fold_left_idle. intros x Hx e'. apply in_zrange in Hx.
  unfold extendExtent. destruct (gt (alphaAt img x y) 0) eqn:Hv; [|reflexivity].
  exfalso. apply Hno. exists x, y. repeat split; lia || exact Hv.
Qed.

End Extent.

(** X1: for an image of positive width, [findContentBounds] returns
    [null] exactly when no pixel of the image has alpha above 0. *)
Theorem content_bounds_null_iff img :
  0 < img_width img ->
  (findContentBounds img = None <-> ~ hasContent img).
Proof.
  intros Hw. unfold findContentBounds, scanExtent. split.
  - intros Hnone (X & Y & HX & HY & Hv).
    pose proof (scan_covers img
                  {| minX := img_width img; minY := img_height img;
                     maxX := 0; maxY := 0 |} X Y
                  ltac:(repeat split; lia || exact Hv)) as Hc.
    cbv zeta in Hc. set (e := fold_left _ _ _) in *.
    revert Hnone. destruct (Z.ltb_spec (maxX e) (minX e)); [lia|discriminate].
  - intros Hno. rewrite scan_idle by (reflexivity || exact Hno). simpl.
    destruct (Z.ltb_spec 0 (img_width img)); [reflexivity|lia].
Qed.

Lemma content_bounds_null_iff_witness :
  findContentBounds twoDots = None <-> ~ hasContent twoDots.
Proof.
  apply (content_bounds_null_iff twoDots). simpl. lia.
Defined.

(** X2: the box [findContentBounds] returns for an image of positive
    width is the tight bounding box of the visible pixels: it lies
    inside the image, it contains every pixel with alpha above 0, and
    each of its four sides holds such a pixel. *)
Theorem content_bounds_tight img b :
  0 < img_width img ->
  findContentBounds img = Some b ->
  boxInside img b /\
  (forall x y, visibleAt img x y ->
     b_x b <= x < b_x b + b_width b /\ b_y b <= y < b_y b + b_height b) /\
  (exists y, visibleAt img (b_x b) y) /\
  (exists y, visibleAt img (b_x b + b_width b - 1) y) /\
  (exists x, visibleAt img x (b_y b)) /\
  (exists x, visibleAt img x (b_y b + b_height b - 1)).
Proof.
  intros Hw. unfold findContentBounds, scanExtent.
  set (e0 := {| minX := img_width img; minY := img_height img;
                maxX := 0; maxY := 0 |}).
  pose proof (scan_attained img e0 eq_refl eq_refl ltac:(simpl; lia)
                ltac:(simpl; lia)) as Hatt.
  pose proof (fun X Y => scan_covers img e0 X Y) as Hcov.
  cbv zeta in Hatt, Hcov.
  set (e := fold_left _ _ e0) in *.
  destruct (Z.ltb_spec (maxX e) (minX e)) as [|Hle]; [discriminate|].
  intros Hb. injection Hb as <-. simpl.
  destruct Hatt as [E|(H1 & H2 & H3 & H4)].
  { rewrite E in Hle. simpl in Hle. lia. }
  destruct H1 as (y1 & V1). destruct H2 as (y2 & V2).
  destruct H3 as (x3 & V3). destruct H4 as (x4 & V4).
  pose proof (Hcov _ _ V1). pose proof (Hcov _ _ V2).
  pose proof (Hcov _ _ V3). pose proof (Hcov _ _ V4).
  pose proof V1 as (? & ? & _). pose proof V2 as (? & ? & _).
  pose proof V3 as (? & ? & _). pose proof V4 as (? & ? & _).
  split; [unfold boxInside; simpl; lia|].
  split; [intros x y V; pose proof (Hcov _ _ V); lia|].
  split; [now exists y1|].
  split; [exists y2; now replace (minX e + (maxX e - minX e + 1) - 1) with (maxX e) by lia|].
  split; [now exists x3|].
  exists x4. now replace (minY e + (maxY e - minY e + 1) - 1) with (maxY e) by lia.
Qed.

Lemma content_bounds_tight_witness :
  boxInside cutCorners (mkBounds 0 0 8 8) /\
  (forall x y, visibleAt cutCorners x y ->
     b_x (mkBounds 0 0 8 8) <= x < b_x (mkBounds 0 0 8 8) + b_width (mkBounds 0 0 8 8) /\
     b_y (mkBounds 0 0 8 8) <= y < b_y (mkBounds 0 0 8 8) + b_height (mkBounds 0 0 8 8)) /\
  (exists y, visibleAt cutCorners (b_x (mkBounds 0 0 8 8)) y) /\
  (exists y, visibleAt cutCorners
               (b_x (mkBounds 0 0 8 8) + b_width (mkBounds 0 0 8 8) - 1) y) /\
  (exists x, visibleAt cutCorners x (b_y (mkBounds 0 0 8 8))) /\
  (exists x, visibleAt cutCorners x
               (b_y (mkBounds 0 0 8 8) + b_height (mkBounds 0 0 8 8) - 1)).
Proof.
  apply (content_bounds_tight cutCorners (mkBounds 0 0 8 8)).
  - simpl. lia.
  - vm_compute. reflexivity.
Defined.

(** X3: for an image of width 0, whatever its height and buffer,
    [findContentBounds] does not return [null]: the test
    [maxX < minX] compares 0 with 0, and the box is
    [{x: 0, y: height, width: 1, height: 1 - height}]. *)
Theorem zero_width_box height data :
  findContentBounds (mkImage 0 height data) =
    Some {| b_x := 0; b_y := height; b_width := 1; b_height := 1 - height |}.
Proof.
  unfold findContentBounds, scanExtent. simpl.
  rewrite fold_left_idle by reflexivity. simpl.
  do 2 f_equal. lia.
Qed.

(** *** The geometry of the shapes *)

Lemma fold_zrange_inv_any {A} (I : Z -> A -> Prop) (f : A -> Z -> A) lo hi a :
  I lo a ->
  (forall x a, lo <= x < hi -> I x a -> I (x + 1) (f a x)) ->
  exists x, I x (fold_left f (zrange lo hi) a).
Proof.
  intros Ha Hstep. destruct (Z.le_gt_cases lo hi).
  - exists hi. now apply fold_zrange_inv.
  - exists lo. now rewrite zrange_empty by lia.
Qed.

Section Fits.

Variable img : ImageData.
Variable b : Bounds.

Lemma hStep_fits y st x :
  b_y b <= y < b_y b + b_height b ->
  b_x b <= x < b_x b + b_width b + 1 ->
  Forall (shapeFits img b) (fst st) /\
  match snd st with
  | Some (s, c) =>
      b_x b <= s < x /\ c = pixelAt (img_data img) ((y * img_width img + s) * 4)
  | None => True
  end ->
  Forall (shapeFits img b) (fst (hStep img b y st x)) /\
  match snd (hStep img b y st x) with
  | Some (s, c) =>
      b_x b <= s < x + 1 /\ c = pixelAt (img_data img) ((y * img_width img + s) * 4)
  | None => True
  end.
Proof.
  intros Hy Hx [Hlines Hrun]. unfold hStep.
  destruct st as [lines [[s c]|]]; simpl in *.
  - destruct Hrun as [Hs ->].
    destruct (_ || _); simpl.
    + split; [|exact I]. unfold longRun.
      destruct (Z.ltb_spec (4 * b_width b) (5 * (x - s))); [|exact Hlines].
      apply Forall_app. split; [exact Hlines|].
      constructor; [|constructor]. simpl. repeat split; lia.
    + split; [exact Hlines|]. split; [lia|reflexivity].
  - destruct (gt _ 0); simpl; split; try exact Hlines; try exact I.
    split; [lia|reflexivity].
Qed.

Lemma vStep_fits x st y :
  b_x b <= x < b_x b + b_width b ->
  b_y b <= y < b_y b + b_height b + 1 ->
  Forall (shapeFits img b) (fst st) /\
  match snd st with
  | Some (s, c) =>
      b_y b <= s < y /\ c = pixelAt (img_data img) ((s * img_width img + x) * 4)
  | None => True
  end ->
  Forall (shapeFits img b) (fst (vStep img b x st y)) /\
  match snd (vStep img b x st y) with
  | Some (s, c) =>
      b_y b <= s < y + 1 /\ c = pixelAt (img_data img) ((s * img_width img + x) * 4)
  | None => True
  end.
Proof.
  intros Hx Hy [Hlines Hrun]. unfold vStep.
  destruct st as [lines [[s c]|]]; simpl in *.
  - destruct Hrun as [Hs ->].
    destruct (_ || _); simpl.
    + split; [|exact I]. unfold longRun.
      destruct (Z.ltb_spec (4 * b_height b) (5 * (y - s))); [|exact Hlines].
      apply Forall_app. split; [exact Hlines|].
      constructor; [|constructor]. simpl. repeat split; lia.
    + split; [exact Hlines|]. split; [lia|reflexivity].
  - destruct (gt _ 0); simpl; split; try exact Hlines; try exact I.
    split; [lia|reflexivity].
Qed.

Lemma detectHorizontalLines_fit :
  Forall (shapeFits img b) (detectHorizontalLines img b).
Proof.
  unfold detectHorizontalLines. apply fold_left_inv; [|constructor].
  intros lines y Hy Hlines. apply in_zrange in Hy.
  destruct (fold_zrange_inv_any
              (fun x st =>
                 Forall (shapeFits img b) (fst st) /\
                 match snd st with
                 | Some (s, c) =>
                     b_x b <= s < x /\
                     c = pixelAt (img_data img) ((y * img_width img + s) * 4)
                 | None => True
                 end)
              (hStep img b y) (b_x b) (b_x b + b_width b + 1) (lines, None))
    as (x & Hfit & _).
  - now split.
  - intros x st Hx Hst. now apply hStep_fits.
  - exact Hfit.
Qed.

Lemma detectVerticalLines_fit :
  Forall (shapeFits img b) (detectVerticalLines img b).
Proof.
  unfold detectVerticalLines. apply fold_left_inv; [|constructor].
  intros lines x Hx Hlines. apply in_zrange in Hx.
  destruct (fold_zrange_inv_any
              (fun y st =>
                 Forall (shapeFits img b) (fst st) /\
                 match snd st with
                 | Some (s, c) =>
                     b_y b <= s < y /\
                     c = pixelAt (img_data img) ((s * img_width img + x) * 4)
                 | None => True
                 end)
              (vStep img b x) (b_y b) (b_y b + b_height b + 1) (lines, None))
    as (y & Hfit & _).
  - now split.
  - intros y st Hy Hst. now apply vStep_fits.
  - exact Hfit.
Qed.

Lemma detectRectangles_fit : Forall (shapeFits img b) (detectRectangles img b).
Proof.
  unfold detectRectangles. destruct (checkIfRectangle img b); repeat constructor.
Qed.

Lemma detectRoundedRectangles_fit :
  Forall (shapeFits img b) (detectRoundedRectangles img b).
Proof.
  unfold detectRoundedRectangles.
  destruct (hasRounding _); repeat constructor.
Qed.

End Fits.

(** The list [decomposeIntoShapes] builds when there is a content box. *)
Lemma decompose_shapes img b :
  bounds (decomposeIntoShapes img) = Some b ->
  findContentBounds img = Some b /\
  shapes (decomposeIntoShapes img) =
    (match detectRoundedRectangles img b with
     | [] => detectRectangles img b
     | rounded => rounded
     end) ++ detectHorizontalLines img b ++ detectVerticalLines img b.
Proof.
  unfold decomposeIntoShapes.
  destruct (findContentBounds img) as [b'|]; simpl; [|discriminate].
  intros Hb. injection Hb as ->. split; [reflexivity|].
  now destruct (detectRoundedRectangles img b).
Qed.

(** X4: every shape of the analysis has the geometry of its kind with
    respect to the content box: a line is a run inside one row or column
    of the box, longer than 80% of the box, of thickness 1, with the
    colour of its first pixel; a rectangle or rounded rectangle is the
    box itself, with the colour of the box's center pixel. *)
Theorem shapes_fit_bounds img b :
  bounds (decomposeIntoShapes img) = Some b ->
  Forall (shapeFits img b) (shapes (decomposeIntoShapes img)).
Proof.
  intros Hb. destruct (decompose_shapes img b Hb) as [_ ->].
  apply Forall_app. split; [|apply Forall_app; split].
  - pose proof (detectRoundedRectangles_fit img b) as Hr.
    destruct (detectRoundedRectangles img b); [apply detectRectangles_fit|exact Hr].
  - apply detectHorizontalLines_fit.
  - apply detectVerticalLines_fit.
Qed.

Lemma shapes_fit_bounds_witness :
  Forall (shapeFits cutCorners (mkBounds 0 0 8 8))
    (shapes (decomposeIntoShapes cutCorners)).
Proof.
  apply (shapes_fit_bounds cutCorners (mkBounds 0 0 8 8)).
  vm_compute. reflexivity.
Defined.

Lemma content_box_inside img b :
  0 < img_width img -> findContentBounds img = Some b -> boxInside img b.
Proof.
  intros Hw. unfold findContentBounds, scanExtent.
  set (e0 := {| minX := img_width img; minY := img_height img;
                maxX := 0; maxY := 0 |}).
  pose proof (scan_attained img e0 eq_refl eq_refl ltac:(simpl; lia)
                ltac:(simpl; lia)) as Hatt.
  pose proof (fun X Y => scan_covers img e0 X Y) as Hcov.
  cbv zeta in Hatt, Hcov.
  set (e := fold_left _ _ e0) in *.
  destruct (Z.ltb_spec (maxX e) (minX e)) as [|Hle]; [discriminate|].
  intros Hb. injection Hb as <-.
  destruct Hatt as [E|(H1 & H2 & H3 & H4)].
  { rewrite E in Hle. simpl in Hle. lia. }
  destruct H1 as (y1 & V1). destruct H2 as (y2 & V2).
  destruct H3 as (x3 & V3). destruct H4 as (x4 & V4).
  pose proof (Hcov _ _ V1). pose proof (Hcov _ _ V2).
  pose proof (Hcov _ _ V3). pose proof (Hcov _ _ V4).
  destruct V1 as (? & ? & _). destruct V2 as (? & ? & _).
  destruct V3 as (? & ? & _). destruct V4 as (? & ? & _).
  unfold boxInside; simpl. lia.
Qed.

(** *** Corner radii *)

Lemma walkDiagonal_member img sx sy dx dy steps :
  walkDiagonal img sx sy dx dy steps = 0 \/
  In (walkDiagonal img sx sy dx dy steps) steps.
Proof.
  induction steps as [|i rest IH]; simpl; [now left|].
  destruct (gt _ 128); [right; now left|].
  destruct IH as [IH|IH]; [now left|right; now right].
Qed.

Lemma measureCornerRadius_range img cx cy sampleSize name :
  0 <= measureCornerRadius img cx cy sampleSize name /\
  (measureCornerRadius img cx cy sampleSize name = 0 \/
   measureCornerRadius img cx cy sampleSize name < sampleSize).
Proof.
  unfold measureCornerRadius. destruct (diagonal name) as [dx dy].
  match goal with |- context [walkDiagonal img ?sx ?sy dx dy ?l] =>
    destruct (walkDiagonal_member img sx sy dx dy l) as [E|E] end.
  - rewrite E. lia.
  - apply in_zrange in E. lia.
Qed.

Lemma round_div_mean t n m :
  0 < n -> n <= t -> t <= n * m -> 1 <= round_div t n <= m.
Proof.
  intros Hn Hlo Hhi. unfold round_div. split.
  - apply Z.div_le_lower_bound; lia.
  - apply Z.lt_succ_r. apply Z.div_lt_upper_bound; nia.
Qed.

Lemma analyzeCorners_range img b :
  hasRounding (analyzeCorners img b) = true ->
  let S := Z.min 20 (Z.min (b_width b) (b_height b) / 4) in
  1 <= radius (analyzeCorners img b) <= S - 1 /\
  0 <= r_topLeft (individual (analyzeCorners img b)) <= S - 1 /\
  0 <= r_topRight (individual (analyzeCorners img b)) <= S - 1 /\
  0 <= r_bottomLeft (individual (analyzeCorners img b)) <= S - 1 /\
  0 <= r_bottomRight (individual (analyzeCorners img b)) <= S - 1.
Proof.
  cbv zeta. unfold analyzeCorners.
  set (S := Z.min 20 (Z.min (b_width b) (b_height b) / 4)).
  pose proof (measureCornerRadius_range img (b_x b) (b_y b) S topLeft) as Htl.
  pose proof (measureCornerRadius_range img (b_x b + b_width b - S) (b_y b) S
                topRight) as Htr.
  pose proof (measureCornerRadius_range img (b_x b) (b_y b + b_height b - S) S
                bottomLeft) as Hbl.
  pose proof (measureCornerRadius_range img (b_x b + b_width b - S)
                (b_y b + b_height b - S) S bottomRight) as Hbr.
  set (tl := measureCornerRadius _ _ _ _ topLeft) in *.
  set (tr := measureCornerRadius _ _ _ _ topRight) in *.
  set (bl := measureCornerRadius _ _ _ _ bottomLeft) in *.
  set (br := measureCornerRadius _ _ _ _ bottomRight) in *.
  simpl.
  destruct (Z.ltb_spec 0 tl), (Z.ltb_spec 0 tr), (Z.ltb_spec 0 bl),
    (Z.ltb_spec 0 br); simpl; intros Hround; try discriminate;
    (split; [apply round_div_mean; lia|lia]).
Qed.

Lemma rounded_origin img x y w h c r corners :
  In (RoundedRectangle x y w h c r corners) (shapes (decomposeIntoShapes img)) ->
  exists b, bounds (decomposeIntoShapes img) = Some b /\
            In (RoundedRectangle x y w h c r corners)
              (detectRoundedRectangles img b).
Proof.
  intros Hin.
  destruct (bounds (decomposeIntoShapes img)) as [b|] eqn:Hb.
  - exists b. split; [reflexivity|].
    destruct (decompose_shapes img b Hb) as [_ E]. rewrite E in Hin.
    apply in_app_or in Hin. destruct Hin as [Hin|Hin].
    + destruct (detectRoundedRectangles img b) eqn:Er; [|exact Hin].
      pose proof (ShapeFacts.detectRectangles_kind img b) as Hk.
      rewrite Forall_forall in Hk.
      apply list_elem_of_In, Hk in Hin. discriminate.
    + apply in_app_or in Hin.
      pose proof (ShapeFacts.lines_not_rectangles _
                    (or_introl (ShapeFacts.detectHorizontalLines_kind img b))) as HH.
      pose proof (ShapeFacts.lines_not_rectangles _
                    (or_intror (ShapeFacts.detectVerticalLines_kind img b))) as HV.
      rewrite Forall_forall in HH, HV.
      destruct Hin as [Hin|Hin];
        [apply list_elem_of_In, HH in Hin|apply list_elem_of_In, HV in Hin];
        destruct Hin; discriminate.
  - unfold decomposeIntoShapes in Hin, Hb.
    destruct (findContentBounds img); [discriminate|]. destruct Hin.
Qed.

Lemma rounded_radius_facts img b x y w h c r corners :
  In (RoundedRectangle x y w h c r corners) (detectRoundedRectangles img b) ->
  w = b_width b /\ h = b_height b /\
  1 <= r <= 19 /\ 4 * (r + 1) <= w /\ 4 * (r + 1) <= h /\
  0 <= r_topLeft corners <= 19 /\ 0 <= r_topRight corners <= 19 /\
  0 <= r_bottomLeft corners <= 19 /\ 0 <= r_bottomRight corners <= 19.
Proof.
  unfold detectRoundedRectangles.
  destruct (hasRounding (analyzeCorners img b)) eqn:Hr; [|intros []].
  intros [E|[]]. injection E as <- <- <- <- <- <- <-.
  pose proof (analyzeCorners_range img b Hr) as Hrange. cbv zeta in Hrange.
  set (m := Z.min (b_width b) (b_height b)) in *.
  assert (Hm : 4 * (m / 4) <= m) by (Z.div_mod_to_equations; lia).
  repeat split; try lia.
Qed.

(** X5: a rounded rectangle of the analysis has a corner radius between
    1 and 19 that is less than a quarter of its width and of its height
    ([4 * (radius + 1)] fits in both), and four individual corner radii
    between 0 and 19. *)
Theorem rounded_radius_range img x y w h c r corners :
  In (RoundedRectangle x y w h c r corners) (shapes (decomposeIntoShapes img)) ->
  1 <= r <= 19 /\ 4 * (r + 1) <= w /\ 4 * (r + 1) <= h /\
  0 <= r_topLeft corners <= 19 /\ 0 <= r_topRight corners <= 19 /\
  0 <= r_bottomLeft corners <= 19 /\ 0 <= r_bottomRight corners <= 19.
Proof.
  intros Hin. destruct (rounded_origin _ _ _ _ _ _ _ _ Hin) as (b & _ & Hb).
  destruct (rounded_radius_facts _ _ _ _ _ _ _ _ _ Hb) as (_ & _ & H).
  exact H.
Qed.

Lemma rounded_radius_range_witness :
  1 <= 1 <= 19 /\ 4 * (1 + 1) <= 8 /\ 4 * (1 + 1) <= 8 /\
  0 <= r_topLeft (mkCorners 1 1 1 1) <= 19 /\
  0 <= r_topRight (mkCorners 1 1 1 1) <= 19 /\
  0 <= r_bottomLeft (mkCorners 1 1 1 1) <= 19 /\
  0 <= r_bottomRight (mkCorners 1 1 1 1) <= 19.
Proof.
  apply (rounded_radius_range cutCorners 0 0 8 8
           (mkColor (Some 255) (Some 0) (Some 255) (Some 255)) 1
           (mkCorners 1 1 1 1)).
  vm_compute. left. reflexivity.
Defined.

(** *** A fully opaque image *)

Lemma content_bounds_found img X Y :
  0 < img_width img -> visibleAt img X Y ->
  exists b, findContentBounds img = Some b /\
            b_x b <= X < b_x b + b_width b /\ b_y b <= Y < b_y b + b_height b.
Proof.
  intros Hw Hv. unfold findContentBounds, scanExtent.
  pose proof (scan_covers img
                {| minX := img_width img; minY := img_height img;
                   maxX := 0; maxY := 0 |} X Y Hv) as Hc.
  cbv zeta in Hc. set (e := fold_left _ _ _) in *.
  destruct (Z.ltb_spec (maxX e) (minX e)); [lia|].
  eexists. split; [reflexivity|]. simpl. lia.
Qed.

Lemma fold_count {B} (test : B -> bool) (l : list B) n :
  (forall x, In x l -> test x = true) ->
  fold_left (fun n x => if test x then n + 1 else n) l n
  = n + Z.of_nat (length l).
Proof.
  revert n. induction l as [|x l IH]; intros n Hall; simpl; [lia|].
  rewrite Hall by now left. rewrite IH by (intros; apply Hall; now right). lia.
Qed.

Lemma fold_snoc_map {A B} (f : list A -> B -> list A) (g : B -> A) (l : list B) :
  (forall y, In y l -> forall acc, f acc y = acc ++ [g y]) ->
  forall acc, fold_left f l acc = acc ++ map g l.
Proof.
  induction l as [|y l IH]; intros Hf acc; simpl; [now rewrite app_nil_r|].
  rewrite Hf by now left. rewrite IH by (intros; apply Hf; now right).
  now rewrite <- app_assoc.
Qed.

Section Opaque.

Variable img : ImageData.

Let w := img_width img.
Let h := img_height img.
Let box := {| b_x := 0; b_y := 0; b_width := w; b_height := h |}.

Hypothesis w_pos : 0 < w.
Hypothesis h_pos : 0 < h.
Hypothesis opaque :
  forall x y, 0 <= x < w -> 0 <= y < h -> gt (alphaAt img x y) 200 = true.

Lemma opaque_visible x y : 0 <= x < w -> 0 <= y < h -> visibleAt img x y.
Proof.
  intros Hx Hy. repeat split; try (fold w; lia); try (fold h; lia).
  apply (gt_weaken _ 200); [lia|now apply opaque].
Qed.

Lemma opaque_bounds : findContentBounds img = Some box.
Proof.
  destruct (content_bounds_found img 0 0 w_pos
              (opaque_visible 0 0 ltac:(lia) ltac:(lia))) as (b & Hb & Hx0 & Hy0).
  destruct (content_bounds_found img (w - 1) (h - 1) w_pos
              (opaque_visible (w - 1) (h - 1) ltac:(lia) ltac:(lia)))
    as (b' & Hb' & Hx1 & Hy1).
  rewrite Hb in Hb'. injection Hb' as <-.
  pose proof (content_box_inside img b w_pos Hb) as (? & ? & ? & ? & ? & ?).
  rewrite Hb. f_equal. destruct b as [bx by_ bw bh].
  unfold box, w, h in *. simpl in *. f_equal; lia.
Qed.

Lemma opaque_walk sx sy dx dy sampleSize :
  0 <= sx < w -> 0 <= sy < h ->
  walkDiagonal img sx sy dx dy (zrange 0 sampleSize) = 0.
Proof.
  intros Hx Hy. destruct (Z.le_gt_cases sampleSize 0).
  - now rewrite zrange_empty.
  - rewrite zrange_first by lia. simpl.
    rewrite !Z.mul_0_r, !Z.add_0_r.
    now rewrite (gt_weaken _ 200 128 ltac:(lia) (opaque sx sy Hx Hy)).
Qed.

Lemma opaque_no_rounding : detectRoundedRectangles img box = [].
Proof.
  unfold detectRoundedRectangles, analyzeCorners, measureCornerRadius.
  simpl. rewrite !opaque_walk by lia. reflexivity.
Qed.

Lemma opaque_rectangle :
  detectRectangles img box = [Rectangle 0 0 w h (sampleDominantColor img box) 0].
Proof.
  unfold detectRectangles, checkIfRectangle, countFilled. simpl.
  assert (Hcount :
    fold_left
      (fun n y =>
         fold_left (fun n x => if gt (alphaAt img x y) 200 then n + 1 else n)
           (zrange 0 (0 + w)) n)
      (zrange 0 (0 + h)) 0 = w * h).
  { assert (Hrows : forall l n,
              (forall y, In y l -> 0 <= y < h) ->
              fold_left
                (fun n y =>
                   fold_left (fun n x => if gt (alphaAt img x y) 200 then n + 1 else n)
                     (zrange 0 (0 + w)) n) l n
              = n + w * Z.of_nat (length l)).
    { induction l as [|y l IH]; intros n Hl; simpl; [lia|].
      rewrite (fold_count (fun x => gt (alphaAt img x y) 200)).
      - rewrite IH by (intros; apply Hl; now right).
        rewrite length_zrange. lia.
      - intros x Hx. apply in_zrange in Hx. apply opaque; [lia|].
        apply Hl. now left. }
    rewrite Hrows by (intros y Hy; apply in_zrange in Hy; lia).
    rewrite length_zrange. lia. }
  rewrite Hcount. unfold ratioAbove95.
  destruct (Z.eqb_spec (w * h) 0); [nia|].
  destruct (Z.ltb_spec 0 (w * h)); [|nia].
  destruct (Z.ltb_spec (19 * (w * h)) (20 * (w * h))); [reflexivity|nia].
Qed.

Lemma opaque_alpha x y :
  0 <= x < w -> 0 <= y < h ->
  exists a, load (img_data img) ((y * w + x) * 4 + 3) = Some a /\ 200 < a.
Proof.
  intros Hx Hy. pose proof (opaque x y Hx Hy) as Ho.
  unfold alphaAt in Ho. fold w in Ho.
  destruct (load (img_data img) ((y * w + x) * 4 + 3)) as [a|]; [|discriminate].
  exists a. split; [reflexivity|]. now apply Z.ltb_lt in Ho.
Qed.

Lemma opaque_row lines y :
  0 <= y < h ->
  fst (fold_left (hStep img box y) (zrange 0 (0 + w + 1)) (lines, None))
  = lines ++ [HorizontalLine 0 y w 1 (pixelAt (img_data img) ((y * w + 0) * 4))].
Proof.
  intros Hy. rewrite Z.add_0_l, zrange_last, fold_left_app by lia.
  assert (Hrun : fold_left (hStep img box y) (zrange 0 w) (lines, None)
                 = (lines, Some (0, pixelAt (img_data img) ((y * w + 0) * 4)))).
  { rewrite zrange_first by lia. simpl.
    assert (H0 : hStep img box y (lines, None) 0
                 = (lines, Some (0, pixelAt (img_data img) ((y * w + 0) * 4)))).
    { unfold hStep. simpl. fold w.
      destruct (Z.ltb_spec 0 (0 + w)); [|lia].
      destruct (opaque_alpha 0 y ltac:(lia) Hy) as (a & -> & Ha). simpl.
      destruct (Z.ltb_spec 0 a); [reflexivity|lia]. }
    rewrite H0.
    apply (fold_left_inv
             (fun st => st = (lines, Some (0, pixelAt (img_data img) ((y * w + 0) * 4)))));
      [|reflexivity].
    intros st x Hx ->. apply in_zrange in Hx. unfold hStep. simpl. fold w.
    destruct (Z.ltb_spec x (0 + w)); [|lia].
    destruct (opaque_alpha x y ltac:(lia) Hy) as (a & -> & Ha). simpl.
    destruct (Z.eqb_spec a 0); [lia|].
    destruct (Z.eqb_spec x (0 + w)); [lia|]. reflexivity. }
  rewrite Hrun. simpl. unfold hStep. simpl. fold w.
  destruct (Z.ltb_spec w (0 + w)); [lia|]. simpl.
  unfold longRun. rewrite Z.sub_0_r.
  destruct (Z.ltb_spec (4 * w) (5 * w)); [reflexivity|lia].
Qed.

Lemma opaque_column lines x :
  0 <= x < w ->
  fst (fold_left (vStep img box x) (zrange 0 (0 + h + 1)) (lines, None))
  = lines ++ [VerticalLine x 0 h 1 (pixelAt (img_data img) ((0 * w + x) * 4))].
Proof.
  intros Hx. rewrite Z.add_0_l, zrange_last, fold_left_app by lia.
  assert (Hrun : fold_left (vStep img box x) (zrange 0 h) (lines, None)
                 = (lines, Some (0, pixelAt (img_data img) ((0 * w + x) * 4)))).
  { rewrite zrange_first by lia. simpl.
    assert (H0 : vStep img box x (lines, None) 0
                 = (lines, Some (0, pixelAt (img_data img) ((0 * w + x) * 4)))).
    { unfold vStep. simpl. fold w. fold h.
      destruct (Z.ltb_spec 0 (0 + h)); [|lia].
      destruct (opaque_alpha x 0 Hx ltac:(lia)) as (a & Hl & Ha).
      simpl in Hl. rewrite Hl. simpl.
      destruct (Z.ltb_spec 0 a); [reflexivity|lia]. }
    rewrite H0.
    apply (fold_left_inv
             (fun st => st = (lines, Some (0, pixelAt (img_data img) ((0 * w + x) * 4)))));
      [|reflexivity].
    intros st y Hy ->. apply in_zrange in Hy. unfold vStep. simpl. fold w. fold h.
    destruct (Z.ltb_spec y (0 + h)); [|lia].
    destruct (opaque_alpha x y Hx ltac:(lia)) as (a & -> & Ha). simpl.
    destruct (Z.eqb_spec a 0); [lia|].
    destruct (Z.eqb_spec y (0 + h)); [lia|]. reflexivity. }
  rewrite Hrun. simpl. unfold vStep. simpl. fold w. fold h.
  destruct (Z.ltb_spec h (0 + h)); [lia|]. simpl.
  unfold longRun. rewrite Z.sub_0_r.
  destruct (Z.ltb_spec (4 * h) (5 * h)); [reflexivity|lia].
Qed.

Lemma opaque_lines :
  detectHorizontalLines img box =
    map (fun y => HorizontalLine 0 y w 1 (pixelAt (img_data img) ((y * w + 0) * 4)))
      (zrange 0 h) /\
  detectVerticalLines img box =
    map (fun x => VerticalLine x 0 h 1 (pixelAt (img_data img) ((0 * w + x) * 4)))
      (zrange 0 w).
Proof.
  unfold detectHorizontalLines, detectVerticalLines. simpl. split.
  - rewrite (fold_snoc_map _
               (fun y => HorizontalLine 0 y w 1
                           (pixelAt (img_data img) ((y * w + 0) * 4)))).
    + reflexivity.
    + intros y Hy lines. apply in_zrange in Hy. apply opaque_row. lia.
  - rewrite (fold_snoc_map _
               (fun x => VerticalLine x 0 h 1
                           (pixelAt (img_data img) ((0 * w + x) * 4)))).
    + reflexivity.
    + intros x Hx lines. apply in_zrange in Hx. apply opaque_column. lia.
Qed.

End Opaque.

(** X7: an image of positive size in which every pixel has alpha above
    200 is analysed, whatever its size and colours, as one rectangle
    covering the whole image, followed by one horizontal line per row
    (of the full width) and one vertical line per column (of the full
    height); it has no rounded rectangle and is not empty. *)
Theorem opaque_image_shapes img :
  0 < img_width img -> 0 < img_height img ->
  (forall x y, 0 <= x < img_width img -> 0 <= y < img_height img ->
               gt (alphaAt img x y) 200 = true) ->
  decomposeIntoShapes img =
    {| shapes :=
         Rectangle 0 0 (img_width img) (img_height img)
           (sampleDominantColor img (mkBounds 0 0 (img_width img) (img_height img))) 0
         :: map (fun y => HorizontalLine 0 y (img_width img) 1
                            (pixelAt (img_data img) ((y * img_width img + 0) * 4)))
              (zrange 0 (img_height img))
         ++ map (fun x => VerticalLine x 0 (img_height img) 1
                            (pixelAt (img_data img) ((0 * img_width img + x) * 4)))
              (zrange 0 (img_width img));
       bounds := Some (mkBounds 0 0 (img_width img) (img_height img));
       isEmpty := false |}.
Proof.
  intros Hw Hh Hop. unfold decomposeIntoShapes.
  rewrite (opaque_bounds img Hw Hh Hop).
  rewrite (opaque_no_rounding img Hw Hh Hop). simpl.
  rewrite (opaque_rectangle img Hw Hh Hop).
  destruct (opaque_lines img Hw Hh Hop) as [-> ->].
  reflexivity.
Qed.

Lemma opaque_image_shapes_witness :
  decomposeIntoShapes redStrip =
    {| shapes :=
         Rectangle 0 0 (img_width redStrip) (img_height redStrip)
           (sampleDominantColor redStrip
              (mkBounds 0 0 (img_width redStrip) (img_height redStrip))) 0
         :: map (fun y => HorizontalLine 0 y (img_width redStrip) 1
                            (pixelAt (img_data redStrip)
                               ((y * img_width redStrip + 0) * 4)))
              (zrange 0 (img_height redStrip))
         ++ map (fun x => VerticalLine x 0 (img_height redStrip) 1
                            (pixelAt (img_data redStrip)
                               ((0 * img_width redStrip + x) * 4)))
              (zrange 0 (img_width redStrip));
       bounds := Some (mkBounds 0 0 (img_width redStrip) (img_height redStrip));
       isEmpty := false |}.
Proof.
  apply (opaque_image_shapes redStrip).
  - simpl. lia.
  - simpl. lia.
  - intros x y Hx Hy.
    assert (Hall : forallb
                     (fun y => forallb (fun x => gt (alphaAt redStrip x y) 200)
                                 (zrange 0 (img_width redStrip)))
                     (zrange 0 (img_height redStrip)) = true)
      by (vm_compute; reflexivity).
    rewrite forallb_forall in Hall.
    specialize (Hall y ltac:(apply in_zrange; lia)).
    rewrite forallb_forall in Hall.
    apply Hall. apply in_zrange. lia.
Defined.

End ShapeMore.

(** ** Nine-slice borders *)

Module NineSliceFacts.

Import ShapeDecomposer Terms NineSlice.

Lemma widen_fits bw bh borders shape :
  (forall x y w h c r corners,
     shape = RoundedRectangle x y w h c r corners ->
     0 < r -> 4 * (r + 1) <= bw /\ 4 * (r + 1) <= bh) ->
  (ns_right borders = ns_top borders /\ ns_bottom borders = ns_top borders /\
   ns_left borders = ns_top borders /\
   0 <= ns_top borders /\ 2 * ns_top borders <= bw /\ 2 * ns_top borders <= bh) ->
  let borders' := widen borders shape in
  ns_right borders' = ns_top borders' /\ ns_bottom borders' = ns_top borders' /\
  ns_left borders' = ns_top borders' /\
  0 <= ns_top borders' /\ 2 * ns_top borders' <= bw /\ 2 * ns_top borders' <= bh.
Proof.
  intros Hshape (E1 & E2 & E3 & H0 & Hw & Hh). cbv zeta.
  destruct shape as [| | |x y w h c r corners]; simpl; try (repeat split; assumption).
  destruct (Z.ltb_spec 0 r); simpl; [|repeat split; assumption].
  destruct (Hshape x y w h c r corners eq_refl ltac:(lia)).
  rewrite E1, E2, E3. repeat split; lia.
Qed.

(** X6: on the analysis [decomposeIntoShapes] returns for an image of
    positive width, [calculateNineSliceBorders] never throws; it returns
    [null] exactly when the analysis is empty, and otherwise four equal,
    non-negative borders whose opposite sides together fit into the
    content box, so the stretchable center is never inverted. *)
Theorem nine_slice_borders_fit img :
  0 < img_width img ->
  match calculateNineSliceBorders img (decomposeIntoShapes img) with
  | Throws => False
  | Returns None => isEmpty (decomposeIntoShapes img) = true
  | Returns (Some borders) =>
      isEmpty (decomposeIntoShapes img) = false /\
      exists b, bounds (decomposeIntoShapes img) = Some b /\
        ns_right borders = ns_top borders /\
        ns_bottom borders = ns_top borders /\
        ns_left borders = ns_top borders /\
        0 <= ns_top borders /\
        ns_top borders + ns_bottom borders <= b_height b /\
        ns_left borders + ns_right borders <= b_width b
  end.
Proof.
  intros Hw. unfold calculateNineSliceBorders.
  destruct (isEmpty (decomposeIntoShapes img)) eqn:Hempty; [reflexivity|].
  destruct (bounds (decomposeIntoShapes img)) as [b|] eqn:Hb.
  - split; [reflexivity|]. exists b. split; [reflexivity|].
    destruct (ShapeMore.decompose_shapes img b Hb) as [Hfind _].
    pose proof (ShapeMore.content_box_inside img b Hw Hfind)
      as (_ & Hbw & _ & _ & Hbh & _).
    set (d := Z.min (Z.min (b_width b / 4) (b_height b / 4)) 16).
    assert (Hd : 0 <= d /\ 2 * d <= b_width b /\ 2 * d <= b_height b).
    { subst d. Z.div_mod_to_equations. lia. }
    assert (Hinv :
      let borders :=
        fold_left widen (shapes (decomposeIntoShapes img))
          {| ns_top := d; ns_right := d; ns_bottom := d; ns_left := d |} in
      ns_right borders = ns_top borders /\ ns_bottom borders = ns_top borders /\
      ns_left borders = ns_top borders /\
      0 <= ns_top borders /\ 2 * ns_top borders <= b_width b /\
      2 * ns_top borders <= b_height b).
    { cbv zeta. apply fold_left_inv.
      - intros borders shape Hin Hborders.
        apply widen_fits; [|exact Hborders].
        intros x y w h c r corners -> Hr.
        destruct (ShapeMore.rounded_origin _ _ _ _ _ _ _ _ Hin) as (b' & Hb' & Hin').
        rewrite Hb in Hb'. injection Hb' as <-.
        destruct (ShapeMore.rounded_radius_facts _ _ _ _ _ _ _ _ _ Hin')
          as (-> & -> & _ & H4w & H4h & _).
        now split.
      - simpl. lia. }
    cbv zeta in Hinv. destruct Hinv as (E1 & E2 & E3 & H0 & H2w & H2h).
    repeat split; try assumption; lia.
  - unfold decomposeIntoShapes in Hb, Hempty.
    destruct (findContentBounds img); discriminate.
Qed.

Lemma nine_slice_borders_fit_witness :
  match calculateNineSliceBorders cutCorners (decomposeIntoShapes cutCorners) with
  | Throws => False
  | Returns None => isEmpty (decomposeIntoShapes cutCorners) = true
  | Returns (Some borders) =>
      isEmpty (decomposeIntoShapes cutCorners) = false /\
      exists b, bounds (decomposeIntoShapes cutCorners) = Some b /\
        ns_right borders = ns_top borders /\
        ns_bottom borders = ns_top borders /\
        ns_left borders = ns_top borders /\
        0 <= ns_top borders /\
        ns_top borders + ns_bottom borders <= b_height b /\
        ns_left borders + ns_right borders <= b_width b
  end.
Proof.
  apply (nine_slice_borders_fit cutCorners). simpl. lia.
Defined.

Example cutCorners_nine_slice :
  calculateNineSliceBorders cutCorners (decomposeIntoShapes cutCorners) =
    Returns (Some {| ns_top := 3; ns_right := 3; ns_bottom := 3; ns_left := 3 |}).
Proof. vm_compute. reflexivity. Qed.

End NineSliceFacts.

(** ** More on the grid detector *)

Module GridMore.

Import GridDetector GridTerms.

(** *** Consolidation *)

Lemma consolidateFrom_lines rest : forall s e,
  s <= e ->
  flat_map linesOf (consolidateFrom s e rest []) = zrange s (e + 1) ++ rest /\
  Forall wellShaped (consolidateFrom s e rest []).
Proof.
  induction rest as [|dv rest IH]; intros s e Hse; simpl.
  - split; [now rewrite !app_nil_r|].
    constructor; [|constructor]. unfold wellShaped; simpl.
    pose proof (GridFacts.round_div_2_between s e Hse). lia.
  - destruct (Z.eqb_spec dv (e + 1)) as [->|Hne].
    + destruct (IH s (e + 1) ltac:(lia)) as [Hl Hw]. split; [|exact Hw].
      rewrite Hl, (zrange_last s (e + 1)) by lia. now rewrite <- app_assoc.
    + rewrite GridFacts.consolidateFrom_groups. simpl.
      destruct (IH dv dv ltac:(lia)) as [Hl Hw]. split.
      * rewrite Hl. unfold linesOf at 1. simpl.
        rewrite (zrange_first dv (dv + 1)) by lia.
        rewrite (zrange_empty (dv + 1) (dv + 1)) by lia. reflexivity.
      * constructor; [|exact Hw]. unfold wellShaped; simpl.
        pose proof (GridFacts.round_div_2_between s e Hse). lia.
Qed.

(** X8: the groups of [consolidateDividersToGroups] partition the
    dividers they were built from: listing the lines [start .. end] of
    every group, in order, gives back the divider list, whatever it was;
    and in every group the center lies between start and end and the
    width is [end - start + 1]. *)
Theorem groups_partition_dividers dividers :
  flat_map linesOf (consolidateDividersToGroups dividers) = dividers /\
  Forall wellShaped (consolidateDividersToGroups dividers).
Proof.
  unfold consolidateDividersToGroups. destruct dividers as [|d0 rest].
  - now split.
  - destruct (consolidateFrom_lines rest d0 d0 ltac:(lia)) as [Hl Hw].
    split; [|exact Hw]. rewrite Hl.
    rewrite (zrange_first d0 (d0 + 1)) by lia.
    now rewrite (zrange_empty (d0 + 1) (d0 + 1)) by lia.
Qed.

Lemma consolidateFrom_separate rest : forall s e,
  s <= e -> StronglySorted Z.lt rest -> Forall (fun dv => e < dv) rest ->
  StronglySorted (fun a b => g_end a + 2 <= g_start b)
    (consolidateFrom s e rest []) /\
  Forall (fun g => s <= g_start g) (consolidateFrom s e rest []).
Proof.
  induction rest as [|dv rest IH]; intros s e Hse Hsorted Hafter; simpl.
  - split; repeat constructor. simpl. lia.
  - apply StronglySorted_cons in Hsorted. destruct Hsorted as [Hdv Hrest].
    apply Forall_cons in Hafter. destruct Hafter as [Hedv Hafter].
    destruct (Z.eqb_spec dv (e + 1)) as [->|Hne].
    + apply IH; [lia|exact Hrest|exact Hdv].
    + rewrite GridFacts.consolidateFrom_groups. simpl.
      destruct (IH dv dv ltac:(lia) Hrest Hdv) as [Hs Hlow]. split.
      * constructor; [exact Hs|].
        apply List.Forall_forall. intros g Hg. rewrite Forall_forall in Hlow.
        apply list_elem_of_In, Hlow in Hg. simpl. lia.
      * constructor; [simpl; lia|].
        eapply Forall_impl; [exact Hlow|]. simpl. intros g Hg. lia.
Qed.

(** X9: when the dividers are strictly increasing, as the line scans
    produce them, the groups are the maximal runs of consecutive lines:
    between the end of a group and the start of any later group at least
    one line is missing. *)
Theorem groups_are_separate dividers :
  StronglySorted Z.lt dividers ->
  StronglySorted (fun a b => g_end a + 2 <= g_start b)
    (consolidateDividersToGroups dividers).
Proof.
  intros Hs. unfold consolidateDividersToGroups.
  destruct dividers as [|d0 rest]; [constructor|].
  apply StronglySorted_cons in Hs. destruct Hs as [Hd0 Hrest].
  now destruct (consolidateFrom_separate rest d0 d0 ltac:(lia) Hrest Hd0).
Qed.

Lemma groups_are_separate_witness :
  StronglySorted (fun a b => g_end a + 2 <= g_start b) threeBands.
Proof.
  apply (groups_are_separate [0; 1; 2; 5; 7; 8]).
  repeat first [apply SSorted_nil | apply SSorted_cons
               | apply List.Forall_nil | apply List.Forall_cons | lia].
Defined.

(** *** Minimum-gap enforcement *)

(** A property of lists that survives the removal of an element
    survives the enforcement of the gap. *)
Lemma gapStep_keeps (F : list DividerGroup -> Prop) minGap st c l :
  (forall l1 x l2, F (l1 ++ x :: l2) -> F (l1 ++ l2)) ->
  tracksLast st -> F (fst st ++ c :: l) -> F (fst (gapStep minGap st c) ++ l).
Proof.
  intros Hdrop. unfold tracksLast, gapStep. destruct st as [filtered [k|]]; simpl.
  - intros [pre ->] HF.
    destruct (minGap <=? _); simpl; [now rewrite <- app_assoc|].
    destruct (g_width k <? g_width c); simpl.
    + rewrite GridFacts.insert_last. rewrite <- app_assoc in HF |- *.
      simpl in *. now apply Hdrop in HF.
    + now apply Hdrop in HF.
  - intros -> HF. exact HF.
Qed.

Lemma enforce_keeps (F : list DividerGroup -> Prop) minGap l :
  (forall l1 x l2, F (l1 ++ x :: l2) -> F (l1 ++ l2)) ->
  forall st, tracksLast st -> F (fst st ++ l) ->
  F (fst (fold_left (gapStep minGap) l st)).
Proof.
  intros Hdrop. induction l as [|c l IH]; simpl; intros st Ht HF.
  - now rewrite app_nil_r in HF.
  - apply IH; [now apply GridFacts.gapStep_tracks|now apply gapStep_keeps].
Qed.

Lemma gapStep_some minGap st c : is_Some (snd (gapStep minGap st c)).
Proof.
  unfold gapStep. destruct st as [filtered [k|]]; simpl; [|eauto].
  destruct (minGap <=? _); simpl; [eauto|].
  destruct (g_width k <? g_width c); simpl; eauto.
Qed.

(** X10: [enforceMinimumGap] only drops groups: what it returns is a
    sublist of its input, in the input's order, and it is empty only for
    an empty input. *)
Theorem retained_is_sublist groups minGap :
  enforceMinimumGap groups minGap `sublist_of` groups /\
  (enforceMinimumGap groups minGap = [] <-> groups = []).
Proof.
  unfold enforceMinimumGap. split.
  - apply (enforce_keeps (fun l => l `sublist_of` groups)); [|reflexivity|reflexivity].
    intros l1 x l2 Hsub. etransitivity; [|exact Hsub].
    apply sublist_app; [reflexivity|]. now apply sublist_cons.
  - split.
    + destruct groups as [|c l]; [reflexivity|]. simpl. intros Hnil. exfalso.
      assert (Hs : is_Some (snd (fold_left (gapStep minGap) l
                                   (gapStep minGap ([], None) c)))).
      { apply fold_left_inv; [|apply gapStep_some].
        intros st c' _ _. apply gapStep_some. }
      assert (Ht : tracksLast (fold_left (gapStep minGap) l
                                 (gapStep minGap ([], None) c))).
      { apply fold_left_inv; [|now apply GridFacts.gapStep_tracks].
        intros st c' _. apply GridFacts.gapStep_tracks. }
      unfold tracksLast in Ht. destruct Hs as [k Hk]. rewrite Hk in Ht.
      destruct Ht as [pre Hpre]. simpl in Hnil, Hpre. rewrite Hnil in Hpre.
      now destruct pre.
    + now intros ->.
Qed.

Lemma spaced_snoc g pre k c :
  spaced g (pre ++ [k]) -> g <= g_center c - g_center k ->
  spaced g ((pre ++ [k]) ++ [c]).
Proof.
  induction pre as [|a pre IH]; intros Hs Hg.
  - simpl. auto.
  - destruct pre as [|a' pre]; simpl in *.
    + destruct Hs as [H1 _]. auto.
    + destruct Hs as [H1 H2]. split; [exact H1|]. now apply IH.
Qed.

Lemma spaced_replace g pre k c :
  spaced g (pre ++ [k]) -> g_center k <= g_center c -> spaced g (pre ++ [c]).
Proof.
  induction pre as [|a pre IH]; intros Hs Hk.
  - exact I.
  - destruct pre as [|a' pre]; simpl in *.
    + destruct Hs as [H1 _]. split; [lia|exact I].
    + destruct Hs as [H1 H2]. split; [exact H1|]. now apply IH.
Qed.

Lemma gapStep_spaced g st c :
  tracksLast st -> spaced g (fst st) -> lastBelow st [c] ->
  spaced g (fst (gapStep g st c)).
Proof.
  unfold tracksLast, gapStep, lastBelow. destruct st as [filtered [k|]]; simpl.
  - intros [pre ->] Hs Hbelow.
    specialize (Hbelow k eq_refl). apply Forall_cons in Hbelow.
    destruct Hbelow as [Hk _].
    destruct (Z.leb_spec g (g_center c - g_center k)); simpl.
    + now apply spaced_snoc.
    + destruct (g_width k <? g_width c); simpl; [|exact Hs].
      rewrite GridFacts.insert_last. now apply (spaced_replace g pre k).
  - intros -> _ _. exact I.
Qed.

Lemma enforce_spaced g l : forall st,
  tracksLast st -> spaced g (fst st) ->
  StronglySorted (fun a b => g_center a <= g_center b) l ->
  lastBelow st l ->
  spaced g (fst (fold_left (gapStep g) l st)).
Proof.
  induction l as [|c l IH]; simpl; intros st Ht Hs Hsorted Hbelow; [exact Hs|].
  apply IH.
  - now apply GridFacts.gapStep_tracks.
  - apply gapStep_spaced; try assumption.
    intros k Hk. specialize (Hbelow k Hk). apply Forall_cons in Hbelow.
    constructor; [tauto|constructor].
  - now apply StronglySorted_cons in Hsorted.
  - now apply GridFacts.gapStep_lastBelow.
Qed.

Lemma enforce_spaced_groups groups minGap :
  orderedGroups groups -> spaced minGap (enforceMinimumGap groups minGap).
Proof.
  intros Ho. unfold enforceMinimumGap.
  apply enforce_spaced.
  - reflexivity.
  - exact I.
  - exact Ho.
  - intros k Hk. discriminate.
Qed.

(** X11: on groups listed in the order of their centers,
    [enforceMinimumGap] does enforce the gap: the centers of any two
    neighbours of its result are at least [minGap] apart. *)
Theorem retained_are_spaced groups minGap :
  orderedGroups groups -> spaced minGap (enforceMinimumGap groups minGap).
Proof. intros Ho. now apply enforce_spaced_groups. Qed.

Lemma retained_are_spaced_witness :
  spaced 4 (enforceMinimumGap threeBands 4).
Proof.
  apply (retained_are_spaced threeBands 4).
  unfold orderedGroups.
  repeat first [apply SSorted_nil | apply SSorted_cons
               | apply List.Forall_nil | apply List.Forall_cons
               | (vm_compute; discriminate)].
Defined.

Lemma enforce_spaced_same g l : forall st k,
  snd st = Some k -> spaced g (k :: l) ->
  fst (fold_left (gapStep g) l st) = fst st ++ l.
Proof.
  induction l as [|c l IH]; intros st k Hk Hs; simpl.
  - now rewrite app_nil_r.
  - destruct Hs as [Hg Hs].
    assert (E : gapStep g st c = (fst st ++ [c], Some c)).
    { unfold gapStep. rewrite Hk.
      destruct (Z.leb_spec g (g_center c - g_center k)); [reflexivity|lia]. }
    rewrite E. rewrite (IH (fst st ++ [c], Some c) c eq_refl Hs). simpl.
    now rewrite <- app_assoc.
Qed.

Lemma spaced_same groups minGap :
  spaced minGap groups -> enforceMinimumGap groups minGap = groups.
Proof.
  intros Hs. unfold enforceMinimumGap. destruct groups as [|c l]; [reflexivity|].
  change (fst (fold_left (gapStep minGap) l ([c], Some c)) = c :: l).
  now rewrite (enforce_spaced_same minGap l ([c], Some c) c eq_refl Hs).
Qed.

(** X12: groups whose neighbouring centers are already at least
    [minGap] apart pass [enforceMinimumGap] unchanged. *)
Theorem spaced_groups_unchanged groups minGap :
  spaced minGap groups -> enforceMinimumGap groups minGap = groups.
Proof. intros Hs. now apply spaced_same. Qed.

Lemma spaced_groups_unchanged_witness :
  enforceMinimumGap threeBands 3 = threeBands.
Proof.
  apply (spaced_groups_unchanged threeBands 3).
  vm_compute. repeat split; discriminate.
Defined.

(** X13: on groups listed in the order of their centers, enforcing the
    same gap a second time changes nothing. *)
Theorem enforce_gap_idempotent groups minGap :
  orderedGroups groups ->
  enforceMinimumGap (enforceMinimumGap groups minGap) minGap
  = enforceMinimumGap groups minGap.
Proof.
  intros Ho. apply spaced_same. now apply enforce_spaced_groups.
Qed.

Lemma enforce_gap_idempotent_witness :
  enforceMinimumGap (enforceMinimumGap threeBands 4) 4
  = enforceMinimumGap threeBands 4.
Proof.
  apply (enforce_gap_idempotent threeBands 4).
  unfold orderedGroups.
  repeat first [apply SSorted_nil | apply SSorted_cons
               | apply List.Forall_nil | apply List.Forall_cons
               | (vm_compute; discriminate)].
Defined.


(** *** Outer borders *)

Lemma scan_up (u : Z -> bool) (n : nat) : forall lo hi,
  Z.of_nat n = hi - lo ->
  let t := scanBorder u (fun y => y + 1) (zrange lo hi) lo in
  lo <= t <= hi /\ (forall y, lo <= y < t -> u y = true) /\
  (t < hi -> u t = false).
Proof.
  induction n as [|n IH]; intros lo hi Hn; simpl.
  - rewrite zrange_empty by lia. simpl. repeat split; lia.
  - rewrite (zrange_first lo hi) by lia. simpl.
    destruct (u lo) eqn:Hu.
    + destruct (IH (lo + 1) hi ltac:(lia)) as (Hr & Hall & Hstop).
      split; [lia|]. split; [|exact Hstop].
      intros y Hy. destruct (Z.eq_dec y lo) as [->|Hne]; [exact Hu|].
      apply Hall. lia.
    + split; [lia|]. split; [intros y Hy; lia|]. intros _. exact Hu.
Qed.

Lemma scan_down (u : Z -> bool) h (n : nat) : forall k,
  Z.of_nat n = k -> k <= h ->
  let t := scanBorder u (fun y => h - y) (rev (zrange 0 k)) (h - k) in
  h - k <= t <= h /\ (forall y, h - t <= y < k -> u y = true) /\
  (t < h -> u (h - 1 - t) = false).
Proof.
  induction n as [|n IH]; intros k Hn Hk; simpl.
  - rewrite zrange_empty by lia. simpl.
    split; [lia|]. split; [intros y Hy; lia|]. intros Hlt. lia.
  - assert (E : zrange 0 k = zrange 0 (k - 1) ++ [k - 1]).
    { rewrite <- (zrange_last 0 (k - 1)) by lia. f_equal. lia. }
    rewrite E, rev_app_distr. simpl.
    destruct (u (k - 1)) eqn:Hu.
    + destruct (IH (k - 1) ltac:(lia) ltac:(lia)) as (Hr & Hall & Hstop).
      split; [lia|]. split; [|exact Hstop].
      intros y Hy. destruct (Z.eq_dec y (k - 1)) as [->|Hne]; [exact Hu|].
      apply Hall. lia.
    + split; [lia|]. split; [intros y Hy; lia|]. intros _.
      now replace (h - 1 - (h - k)) with (k - 1) by lia.
Qed.

(** X14: [detectOuterBorders] counts the uniform lines at each side of
    the image.  [top] is the number of uniform rows before the first row
    that is not uniform, [bottom] the number of uniform rows after the
    last one that is not, and so for [left] and [right] with columns;
    when every row is uniform both [top] and [bottom] are the height. *)
Theorem outer_borders_count data width height tolerance :
  0 <= width -> 0 <= height ->
  let o := detectOuterBorders data width height tolerance in
  let row := isUniformRow data width tolerance in
  let col := isUniformColumn data width height tolerance in
  (0 <= top o <= height /\
   (forall y, 0 <= y < top o -> row y = true) /\
   (top o < height -> row (top o) = false)) /\
  (0 <= bottom o <= height /\
   (forall y, height - bottom o <= y < height -> row y = true) /\
   (bottom o < height -> row (height - 1 - bottom o) = false)) /\
  (0 <= left o <= width /\
   (forall x, 0 <= x < left o -> col x = true) /\
   (left o < width -> col (left o) = false)) /\
  (0 <= right o <= width /\
   (forall x, width - right o <= x < width -> col x = true) /\
   (right o < width -> col (width - 1 - right o) = false)) /\
  (top o = height <-> bottom o = height) /\
  (left o = width <-> right o = width).
Proof.
  intros Hw Hh o row col.
  pose proof (scan_up row (Z.to_nat height) 0 height ltac:(lia)) as Ht.
  pose proof (scan_up col (Z.to_nat width) 0 width ltac:(lia)) as Hl.
  pose proof (scan_down row height (Z.to_nat height) height ltac:(lia) ltac:(lia))
    as Hb.
  pose proof (scan_down col width (Z.to_nat width) width ltac:(lia) ltac:(lia))
    as Hr.
  rewrite Z.sub_diag in Hb, Hr. simpl in Ht, Hl, Hb, Hr.
  change (scanBorder row (fun y => y + 1) (zrange 0 height) 0) with (top o) in Ht.
  change (scanBorder col (fun y => y + 1) (zrange 0 width) 0) with (left o) in Hl.
  change (scanBorder row (fun y => height - y) (rev (zrange 0 height)) 0)
    with (bottom o) in Hb.
  change (scanBorder col (fun y => width - y) (rev (zrange 0 width)) 0)
    with (right o) in Hr.
  destruct Ht as (Ht1 & Ht2 & Ht3), Hb as (Hb1 & Hb2 & Hb3).
  destruct Hl as (Hl1 & Hl2 & Hl3), Hr as (Hr1 & Hr2 & Hr3).
  repeat match goal with |- _ /\ _ => split end; try assumption; try lia.
  - split; intros E.
    + destruct (Z.eq_dec (bottom o) height) as [|Hne]; [assumption|].
      rewrite Ht2 in Hb3 by lia. discriminate Hb3. lia.
    + destruct (Z.eq_dec (top o) height) as [|Hne]; [assumption|].
      rewrite Hb2 in Ht3 by lia. discriminate Ht3. lia.
  - split; intros E.
    + destruct (Z.eq_dec (right o) width) as [|Hne]; [assumption|].
      rewrite Hl2 in Hr3 by lia. discriminate Hr3. lia.
    + destruct (Z.eq_dec (left o) width) as [|Hne]; [assumption|].
      rewrite Hr2 in Hl3 by lia. discriminate Hl3. lia.
Qed.

Lemma outer_borders_count_witness :
  let o := detectOuterBorders (img_data oneColumnLine) 2 2 0 in
  top o = 0 /\ left o = 1 /\ right o = 0 /\
  isUniformColumn (img_data oneColumnLine) 2 2 0 1 = false.
Proof.
  pose proof (outer_borders_count (img_data oneColumnLine) 2 2 0
                ltac:(lia) ltac:(lia)) as H.
  simpl in H. destruct H as (_ & _ & (_ & _ & Hl) & _).
  split; [reflexivity|]. split; [reflexivity|]. split; [reflexivity|].
  apply Hl. vm_compute. reflexivity.
Defined.

(** *** Slices are uniform lines *)

Lemma enforce_sublist groups minGap :
  enforceMinimumGap groups minGap `sublist_of` groups.
Proof.
  unfold enforceMinimumGap.
  apply (enforce_keeps (fun l => l `sublist_of` groups)); [|reflexivity|reflexivity].
  intros l1 x l2 Hsub. etransitivity; [|exact Hsub].
  apply sublist_app; [reflexivity|]. now apply sublist_cons.
Qed.

Lemma refined_center_in dividers g :
  In g (refineDividerCenters (consolidateDividersToGroups dividers)) ->
  In (g_center g) dividers.
Proof.
  unfold refineDividerCenters. rewrite in_map_iff. intros (g0 & <- & Hg0). simpl.
  assert (H : flat_map linesOf (consolidateDividersToGroups dividers) = dividers /\
              Forall wellShaped (consolidateDividersToGroups dividers)).
  { unfold consolidateDividersToGroups. destruct dividers as [|d0 rest].
    - now split.
    - destruct (consolidateFrom_lines rest d0 d0 ltac:(lia)) as [Hl Hw].
      split; [|exact Hw]. rewrite Hl.
      rewrite (zrange_first d0 (d0 + 1)) by lia.
      now rewrite (zrange_empty (d0 + 1) (d0 + 1)) by lia. }
  destruct H as [Hl Hw]. rewrite <- Hl. apply in_flat_map. exists g0.
  split; [exact Hg0|]. rewrite Forall_forall in Hw.
  apply list_elem_of_In, Hw in Hg0. destruct Hg0 as [Hc _].
  unfold linesOf. apply in_zrange.
  pose proof (GridFacts.round_div_2_between (g_start g0) (g_end g0) ltac:(lia)).
  lia.
Qed.

Lemma slice_in_dividers dividers minGap s :
  In s (map g_center
          (enforceMinimumGap
             (refineDividerCenters (consolidateDividersToGroups dividers)) minGap)) ->
  In s dividers.
Proof.
  rewrite in_map_iff. intros (g & <- & Hg). apply refined_center_in.
  apply list_elem_of_In. eapply elem_of_sublist; [|apply enforce_sublist].
  apply list_elem_of_In. exact Hg.
Qed.

(** X15: every slice of [detectGrid] is a line of the image that the
    detector found uniform: a horizontal slice is a row index inside the
    image whose row is uniform, a vertical slice a column index inside
    the image whose column is uniform. *)
Theorem slices_are_uniform_lines img tolerance minXGap minYGap :
  Forall (fun y => 0 <= y < img_height img /\
                   isUniformRow (img_data img) (img_width img) tolerance y = true)
    (horizontalSlices (detectGrid img tolerance minXGap minYGap)) /\
  Forall (fun x => 0 <= x < img_width img /\
                   isUniformColumn (img_data img) (img_width img) (img_height img)
                     tolerance x = true)
    (verticalSlices (detectGrid img tolerance minXGap minYGap)).
Proof.
  unfold detectGrid; simpl. split.
  - apply List.Forall_forall. intros y Hy.
    unfold findHorizontalDividers in Hy. apply slice_in_dividers in Hy.
    apply list_elem_of_In, list_elem_of_filter in Hy. destruct Hy as [Hu Hy].
    apply list_elem_of_In, in_zrange in Hy. now split.
  - apply List.Forall_forall. intros x Hx.
    unfold findVerticalDividers in Hx. apply slice_in_dividers in Hx.
    apply list_elem_of_In, list_elem_of_filter in Hx. destruct Hx as [Hu Hx].
    apply list_elem_of_In, in_zrange in Hx. now split.
Qed.

(** *** Cells *)

Lemma computeCells_grid hs vs width height :
  hs <> [] \/ vs <> [] ->
  computeCells hs vs width height =
  flat_map
    (fun row =>
       map (fun col =>
              {| cell_row := row; cell_col := col;
                 cell_x := at_ vs col; cell_y := at_ hs row;
                 cell_width := at_ vs (col + 1) - at_ vs col;
                 cell_height := at_ hs (row + 1) - at_ hs row |})
         (zrange 0 (Z.of_nat (length vs) - 1)))
    (zrange 0 (Z.of_nat (length hs) - 1)).
Proof.
  intros Hne. unfold computeCells. destruct hs, vs; try reflexivity.
  destruct Hne; contradiction.
Qed.

Lemma computeCells_length hs vs width height :
  hs <> [] \/ vs <> [] ->
  Z.of_nat (length (computeCells hs vs width height)) =
  Z.max 0 (Z.of_nat (length hs) - 1) * Z.max 0 (Z.of_nat (length vs) - 1).
Proof.
  intros Hne. rewrite computeCells_grid by exact Hne.
  rewrite flat_map_constant_length
    with (c := Z.to_nat (Z.of_nat (length vs) - 1 - 0)).
  - rewrite length_zrange. lia.
  - intros row _. now rewrite length_map, length_zrange.
Qed.

(** X16: the number of cells of [detectGrid].  Without any slice there
    is the one cell of the whole image; with slices on one axis only
    there is no cell at all, although [rows] or [columns] is then
    reported as 1; with slices on both axes there are [rows * columns]
    cells. *)
Theorem cell_count img tolerance minXGap minYGap :
  let grid := detectGrid img tolerance minXGap minYGap in
  match horizontalSlices grid, verticalSlices grid with
  | [], [] =>
      cells grid = [{| cell_row := 0; cell_col := 0; cell_x := 0; cell_y := 0;
                       cell_width := img_width img;
                       cell_height := img_height img |}]
  | [], _ :: _ => cells grid = [] /\ rows grid = 1
  | _ :: _, [] => cells grid = [] /\ columns grid = 1
  | _ :: _, _ :: _ =>
      Z.of_nat (length (cells grid)) = rows grid * columns grid
  end.
Proof.
  unfold detectGrid; simpl.
  set (hs := map g_center (enforceMinimumGap _ minYGap)).
  set (vs := map g_center (enforceMinimumGap _ minXGap)).
  destruct hs as [|h0 hs'], vs as [|v0 vs']; try (split; reflexivity).
  - split; [|reflexivity]. apply length_zero_iff_nil.
    pose proof (computeCells_length (h0 :: hs') [] (img_width img)
                  (img_height img) ltac:(left; discriminate)) as H.
    cbn [length] in H. lia.
  - rewrite computeCells_length by (left; discriminate).
    cbn [length]. rewrite !Nat2Z.inj_succ.
    destruct (Z.ltb_spec 0 (Z.succ (Z.of_nat (length vs')))); [|lia].
    destruct (Z.ltb_spec 0 (Z.succ (Z.of_nat (length hs')))); lia.
Qed.

Lemma at_monotone (l : list Z) i j :
  StronglySorted Z.lt l -> 0 <= i -> i <= j -> j < Z.of_nat (length l) ->
  at_ l i <= at_ l j.
Proof.
  intros Hs Hi Hij Hj. unfold at_.
  destruct (lookup_lt_is_Some_2 l (Z.to_nat i)) as [a Ha]; [lia|].
  destruct (lookup_lt_is_Some_2 l (Z.to_nat j)) as [b Hb]; [lia|].
  rewrite (nth_lookup_Some _ _ _ _ Ha), (nth_lookup_Some _ _ _ _ Hb).
  destruct (Z.eq_dec i j) as [->|Hne].
  - rewrite Ha in Hb. injection Hb as ->. lia.
  - apply Z.lt_le_incl. eapply GridFacts.sorted_lookup_lt; eauto. lia.
Qed.

(** A coordinate between the first and the last boundary lies in one of
    the intervals between consecutive boundaries. *)
Lemma interval_found (l : list Z) p :
  at_ l 0 <= p < at_ l (Z.of_nat (length l) - 1) ->
  exists i, 0 <= i < Z.of_nat (length l) - 1 /\ at_ l i <= p < at_ l (i + 1).
Proof.
  intros Hp.
  assert (Hk : forall k : nat, Z.of_nat k <= Z.of_nat (length l) - 1 ->
             p < at_ l (Z.of_nat k) ->
             exists i, 0 <= i < Z.of_nat k /\ at_ l i <= p < at_ l (i + 1)).
  { induction k as [|k IH]; intros Hle Hlt.
    - change (Z.of_nat 0) with 0 in Hlt. lia.
    - destruct (Z_lt_dec p (at_ l (Z.of_nat k))) as [Hlt'|Hge].
      + destruct (IH ltac:(lia) Hlt') as (i & Hi & Hin). exists i. split; [lia|exact Hin].
      + exists (Z.of_nat k). split; [lia|].
        replace (Z.of_nat k + 1) with (Z.of_nat (S k)) by lia. lia. }
  destruct l as [|a l]; [simpl in Hp; unfold at_ in Hp; simpl in Hp; lia|].
  destruct (Hk (length l)) as (i & Hi & Hin).
  - simpl length. lia.
  - replace (Z.of_nat (length l)) with (Z.of_nat (length (a :: l)) - 1)
      by (simpl length; lia).
    apply Hp.
  - exists i. split; [simpl length; lia|exact Hin].
Qed.

Lemma interval_unique (l : list Z) p i j :
  StronglySorted Z.lt l ->
  0 <= i < Z.of_nat (length l) - 1 -> 0 <= j < Z.of_nat (length l) - 1 ->
  at_ l i <= p < at_ l (i + 1) -> at_ l j <= p < at_ l (j + 1) -> i = j.
Proof.
  intros Hs Hi Hj Hpi Hpj.
  destruct (Z.lt_trichotomy i j) as [Hlt|[Heq|Hgt]]; [|exact Heq|].
  - pose proof (at_monotone l (i + 1) j Hs ltac:(lia) ltac:(lia) ltac:(lia)). lia.
  - pose proof (at_monotone l (j + 1) i Hs ltac:(lia) ltac:(lia) ltac:(lia)). lia.
Qed.

Lemma computeCells_tile hs vs width height px py :
  StronglySorted Z.lt hs -> StronglySorted Z.lt vs ->
  at_ vs 0 <= px < at_ vs (Z.of_nat (length vs) - 1) ->
  at_ hs 0 <= py < at_ hs (Z.of_nat (length hs) - 1) ->
  exists c, In c (computeCells hs vs width height) /\ cellContains c px py /\
    forall c', In c' (computeCells hs vs width height) ->
      cellContains c' px py -> c' = c.
Proof.
  intros Hh Hv Hpx Hpy.
  assert (Hne : hs <> [] \/ vs <> []).
  { left. intros ->. unfold at_ in Hpy. simpl in Hpy. lia. }
  rewrite computeCells_grid by exact Hne.
  destruct (interval_found vs px Hpx) as (col & Hcol & Hx).
  destruct (interval_found hs py Hpy) as (row & Hrow & Hy).
  eexists. split; [|split].
  - apply in_flat_map. exists row. split; [apply in_zrange; lia|].
    apply in_map_iff. exists col. split; [reflexivity|apply in_zrange; lia].
  - unfold cellContains; simpl. lia.
  - intros c' Hc' Hin. apply in_flat_map in Hc'. destruct Hc' as (row' & Hrow' & Hc').
    apply in_map_iff in Hc'. destruct Hc' as (col' & <- & Hcol').
    apply in_zrange in Hrow', Hcol'. unfold cellContains in Hin; simpl in Hin.
    assert (col' = col) as -> by (apply (interval_unique vs px); auto; lia).
    assert (row' = row) as -> by (apply (interval_unique hs py); auto; lia).
    reflexivity.
Qed.

(** X17: the cells of [detectGrid] tile the area between the outermost
    slices: a point at or after the first vertical slice and before the
    last one, and at or after the first horizontal slice and before the
    last one, lies in exactly one cell. *)
Theorem cells_tile_between_slices img tolerance minXGap minYGap px py :
  let grid := detectGrid img tolerance minXGap minYGap in
  let hs := horizontalSlices grid in
  let vs := verticalSlices grid in
  at_ vs 0 <= px < at_ vs (Z.of_nat (length vs) - 1) ->
  at_ hs 0 <= py < at_ hs (Z.of_nat (length hs) - 1) ->
  exists c, In c (cells grid) /\ cellContains c px py /\
    forall c', In c' (cells grid) -> cellContains c' px py -> c' = c.
Proof.
  unfold detectGrid; simpl. intros Hpx Hpy.
  apply computeCells_tile; try assumption.
  - apply GridFacts.enforceMinimumGap_increasing, GridFacts.consolidate_centers,
      GridFacts.filter_increasing, GridFacts.zrange_increasing.
  - apply GridFacts.enforceMinimumGap_increasing, GridFacts.consolidate_centers,
      GridFacts.filter_increasing, GridFacts.zrange_increasing.
Qed.

Lemma cells_tile_between_slices_witness :
  let grid := detectGrid BackgroundRemover.ringed 0 1 1 in
  horizontalSlices grid = [0; 4] /\ verticalSlices grid = [0; 4] /\
  exists c, In c (cells grid) /\ cellContains c 1 3 /\
    forall c', In c' (cells grid) -> cellContains c' 1 3 -> c' = c.
Proof.
  split; [vm_compute; reflexivity|]. split; [vm_compute; reflexivity|].
  apply (cells_tile_between_slices BackgroundRemover.ringed 0 1 1 1 3).
  - vm_compute. split; [discriminate|reflexivity].
  - vm_compute. split; [discriminate|reflexivity].
Defined.

(** *** An image of a single colour *)

Lemma filter_all (P : Z -> Prop) `{!forall x, Decision (P x)} (l : list Z) :
  (forall x, In x l -> P x) -> filter P l = l.
Proof.
  induction l as [|a l IH]; intros Hall; [reflexivity|].
  rewrite filter_cons. destruct (decide (P a)) as [_|Hn].
  - f_equal. apply IH. intros x Hx. apply Hall. now right.
  - destruct Hn. apply Hall. now left.
Qed.

Lemma consolidateFrom_run (n : nat) : forall s e,
  consolidateFrom s e (zrange (e + 1) (e + 1 + Z.of_nat n)) [] =
  [group s (e + Z.of_nat n)].
Proof.
  induction n as [|n IH]; intros s e.
  - rewrite zrange_empty by lia. simpl. now rewrite Z.add_0_r.
  - rewrite zrange_first by lia. simpl consolidateFrom. rewrite Z.eqb_refl.
    replace (e + 1 + Z.of_nat (S n)) with (e + 1 + 1 + Z.of_nat n) by lia.
    rewrite IH. do 2 f_equal. lia.
Qed.

Lemma consolidate_run h :
  0 < h -> consolidateDividersToGroups (zrange 0 h) = [group 0 (h - 1)].
Proof.
  intros Hh. rewrite zrange_first by lia. simpl.
  pose proof (consolidateFrom_run (Z.to_nat (h - 1)) 0 0) as H.
  replace (0 + 1 + Z.of_nat (Z.to_nat (h - 1))) with h in H by lia.
  replace (0 + Z.of_nat (Z.to_nat (h - 1))) with (h - 1) in H by lia.
  exact H.
Qed.

Lemma scan_up_all (u : Z -> bool) h :
  0 <= h -> (forall y, 0 <= y < h -> u y = true) ->
  scanBorder u (fun y => y + 1) (zrange 0 h) 0 = h.
Proof.
  intros Hh Hall.
  destruct (scan_up u (Z.to_nat h) 0 h ltac:(lia)) as (Hr & _ & Hstop).
  destruct (Z.eq_dec (scanBorder u (fun y => y + 1) (zrange 0 h) 0) h)
    as [E|Hne]; [exact E|].
  rewrite Hall in Hstop by lia. discriminate Hstop. lia.
Qed.

Lemma scan_down_all (u : Z -> bool) h :
  0 <= h -> (forall y, 0 <= y < h -> u y = true) ->
  scanBorder u (fun y => h - y) (rev (zrange 0 h)) 0 = h.
Proof.
  intros Hh Hall.
  pose proof (scan_down u h (Z.to_nat h) h ltac:(lia) ltac:(lia)) as H.
  rewrite Z.sub_diag in H. destruct H as (Hr & _ & Hstop).
  destruct (Z.eq_dec (scanBorder u (fun y => h - y) (rev (zrange 0 h)) 0) h)
    as [E|Hne]; [exact E|].
  rewrite Hall in Hstop by lia. discriminate Hstop. lia.
Qed.

Section SingleColour.

Variables (img : ImageData) (tolerance : Z).

Let w := img_width img.
Let h := img_height img.
Let data := img_data img.

Hypothesis Hwf : wellFormed img.
Hypothesis Hw : 0 < w.
Hypothesis Hh : 0 < h.
Hypothesis Htol : 0 <= tolerance.
Hypothesis Hone : singleColour img.

Lemma single_load p c :
  0 <= p < w * h -> 0 <= c < 4 ->
  exists v, load data (p * 4 + c) = Some v /\ load data c = Some v.
Proof.
  intros Hp Hc. destruct Hwf as (_ & _ & Hlen). fold w h data in Hlen.
  destruct (load_in_range data c) as [v Hv]; [nia|].
  exists v. split; [|exact Hv]. unfold data. rewrite Hone by assumption.
  exact Hv.
Qed.

Lemma single_match p q :
  0 <= p < w * h -> 0 <= q < w * h ->
  matchesFirst data tolerance (pixelAt data (p * 4)) (q * 4) = true.
Proof.
  intros Hp Hq. unfold matchesFirst, pixelAt, colorsMatch. simpl.
  destruct (single_load p 0 Hp ltac:(lia)) as (v0 & Hp0 & H0).
  destruct (single_load p 1 Hp ltac:(lia)) as (v1 & Hp1 & H1).
  destruct (single_load p 2 Hp ltac:(lia)) as (v2 & Hp2 & H2).
  destruct (single_load p 3 Hp ltac:(lia)) as (v3 & Hp3 & H3).
  destruct (single_load q 0 Hq ltac:(lia)) as (u0 & Hq0 & H0').
  destruct (single_load q 1 Hq ltac:(lia)) as (u1 & Hq1 & H1').
  destruct (single_load q 2 Hq ltac:(lia)) as (u2 & Hq2 & H2').
  destruct (single_load q 3 Hq ltac:(lia)) as (u3 & Hq3 & H3').
  rewrite Z.add_0_r in Hp0, Hq0.
  rewrite Hp0, Hp1, Hp2, Hp3, Hq0, Hq1, Hq2, Hq3.
  assert (u0 = v0) as -> by congruence. assert (u1 = v1) as -> by congruence.
  assert (u2 = v2) as -> by congruence. assert (u3 = v3) as -> by congruence.
  unfold within. simpl. rewrite !Z.sub_diag. simpl.
  change (Z.abs 0) with 0.
  destruct (Z.leb_spec 0 tolerance); [reflexivity|lia].
Qed.

Lemma single_row y : 0 <= y < h -> isUniformRow data w tolerance y = true.
Proof.
  intros Hy. unfold isUniformRow. apply forallb_forall. intros x Hx.
  apply in_zrange in Hx.
  apply (single_match (y * w) (y * w + x)); nia.
Qed.

Lemma single_column x : 0 <= x < w -> isUniformColumn data w h tolerance x = true.
Proof.
  intros Hx. unfold isUniformColumn. apply forallb_forall. intros y Hy.
  apply in_zrange in Hy.
  apply (single_match x (y * w + x)); nia.
Qed.

Lemma single_rows :
  findHorizontalDividers data w h tolerance = [group 0 (h - 1)].
Proof.
  unfold findHorizontalDividers. rewrite filter_all.
  - apply consolidate_run. exact Hh.
  - intros y Hy. apply in_zrange in Hy. now apply single_row.
Qed.

Lemma single_columns :
  findVerticalDividers data w h tolerance = [group 0 (w - 1)].
Proof.
  unfold findVerticalDividers. rewrite filter_all.
  - apply consolidate_run. exact Hw.
  - intros x Hx. apply in_zrange in Hx. now apply single_column.
Qed.

Lemma single_grid minXGap minYGap :
  let grid := detectGrid img tolerance minXGap minYGap in
  horizontalSlices grid = [round_div (h - 1) 2] /\
  verticalSlices grid = [round_div (w - 1) 2] /\
  rows grid = 0 /\ columns grid = 0 /\ cells grid = [] /\
  outerBorders grid = {| top := h; right := w; bottom := h; left := w |}.
Proof.
  unfold detectGrid. fold w h data. rewrite single_rows, single_columns.
  simpl. repeat split.
  unfold detectOuterBorders.
  rewrite !scan_up_all, !scan_down_all;
    try lia; try (intros; now apply single_row);
    try (intros; now apply single_column).
  reflexivity.
Qed.

End SingleColour.

(** X18: an image of a single colour has no grid.  Every row and every
    column is uniform, so each axis gets the one slice in the middle of
    the image, [rows] and [columns] are 0, there is no cell, and each
    outer border spans the whole image. *)
Theorem single_colour_grid img tolerance minXGap minYGap :
  wellFormed img -> 0 < img_width img -> 0 < img_height img ->
  0 <= tolerance -> singleColour img ->
  let grid := detectGrid img tolerance minXGap minYGap in
  horizontalSlices grid = [round_div (img_height img - 1) 2] /\
  verticalSlices grid = [round_div (img_width img - 1) 2] /\
  rows grid = 0 /\ columns grid = 0 /\ cells grid = [] /\
  outerBorders grid = {| top := img_height img; right := img_width img;
                         bottom := img_height img; left := img_width img |}.
Proof. intros. now apply single_grid. Qed.

Lemma plain_single_colour : singleColour plain.
Proof.
  intros p c Hp Hc. simpl in Hp.
  assert (Hp' : p = 0 \/ p = 1 \/ p = 2 \/ p = 3 \/ p = 4 \/ p = 5) by lia.
  assert (Hc' : c = 0 \/ c = 1 \/ c = 2 \/ c = 3) by lia.
  destruct Hp' as [->|[->|[->|[->|[->| ->]]]]];
    destruct Hc' as [->|[->|[->| ->]]]; reflexivity.
Qed.

Lemma single_colour_grid_witness :
  let grid := detectGrid plain 0 50 50 in
  horizontalSlices grid = [1] /\ verticalSlices grid = [1] /\
  rows grid = 0 /\ columns grid = 0 /\ cells grid = [] /\
  outerBorders grid = {| top := 2; right := 3; bottom := 2; left := 3 |}.
Proof.
  apply (single_colour_grid plain 0 50 50).
  - repeat split; simpl; lia.
  - simpl; lia.
  - simpl; lia.
  - lia.
  - exact plain_single_colour.
Defined.

End GridMore.

(** ** More on the background remover *)

Module BackgroundMore.

Import BackgroundRemover BackgroundTerms GridTerms BackgroundFacts.

(** *** Sampling the background *)

Lemma valid_sizes img :
  validImageData img = true ->
  0 < img_width img /\ 0 < img_height img /\
  Z.of_nat (length (img_data img)) = img_width img * img_height img * 4.
Proof.
  unfold validImageData. intros H.
  apply andb_true_iff in H. destruct H as [H Hlen].
  apply andb_true_iff in H. destruct H as [Hw Hh].
  apply Z.ltb_lt in Hw, Hh. apply Z.eqb_eq in Hlen. auto.
Qed.

Lemma pixel_defined img x y :
  validImageData img = true ->
  0 <= x < img_width img -> 0 <= y < img_height img ->
  definedColor (pixelAt (img_data img) ((y * img_width img + x) * 4)).
Proof.
  intros Hv Hx Hy. destruct (valid_sizes img Hv) as (Hw & Hh & Hlen).
  assert (Hi : 0 <= y * img_width img + x < img_width img * img_height img)
    by nia.
  unfold definedColor, pixelAt; simpl.
  repeat split;
    match goal with
    | |- is_Some (load ?d ?i) =>
        destruct (load_in_range d i) as [v Hl]; [lia|rewrite Hl; eauto]
    end.
Qed.

Lemma inset_fits width height :
  0 < width -> 0 < height ->
  let inset := Z.min 3 (Z.min width height / 4) in
  0 <= inset /\ inset * 2 < width /\ inset * 2 < height.
Proof.
  intros Hw Hh. simpl.
  pose proof (Z.div_mod (Z.min width height) 4 ltac:(lia)).
  pose proof (Z.mod_pos_bound (Z.min width height) 4 ltac:(lia)).
  lia.
Qed.

Lemma sample_points img :
  validImageData img = true ->
  sampleBackgroundPoints img =
    map (fun '(x, y) => pixelAt (img_data img) ((y * img_width img + x) * 4))
      (samplePoints (img_width img) (img_height img)) /\
  Forall (fun '(x, y) => 0 <= x < img_width img /\ 0 <= y < img_height img)
    (samplePoints (img_width img) (img_height img)).
Proof.
  intros Hv. destruct (valid_sizes img Hv) as (Hw & Hh & Hlen).
  destruct (inset_fits (img_width img) (img_height img) Hw Hh) as (Hi0 & Hiw & Hih).
  split.
  - unfold sampleBackgroundPoints, samplePoints.
    destruct (Z.ltb_spec (Z.min 3 (Z.min (img_width img) (img_height img) / 4) * 2)
                (img_width img)); [|lia].
    destruct (Z.ltb_spec (Z.min 3 (Z.min (img_width img) (img_height img) / 4) * 2)
                (img_height img)); [|lia].
    reflexivity.
  - unfold samplePoints. repeat (constructor; [lia|]). constructor.
Qed.

(** X19: on a valid image the size test of [sampleBackgroundPoints]
    never fails: the samples are always the eight pixels at the corners
    and [inset] pixels inwards, each read inside the buffer; and when a
    side of the image is shorter than 4 pixels the inset is 0, so the
    four corner samples are taken twice. *)
Theorem samples_are_eight img :
  validImageData img = true ->
  sampleBackgroundPoints img =
    map (fun '(x, y) => pixelAt (img_data img) ((y * img_width img + x) * 4))
      (samplePoints (img_width img) (img_height img)) /\
  Forall (fun '(x, y) => 0 <= x < img_width img /\ 0 <= y < img_height img)
    (samplePoints (img_width img) (img_height img)) /\
  Forall definedColor (sampleBackgroundPoints img) /\
  (Z.min (img_width img) (img_height img) < 4 ->
   drop 4 (sampleBackgroundPoints img) = take 4 (sampleBackgroundPoints img)).
Proof.
  intros Hv. destruct (sample_points img Hv) as [E Hpts].
  split; [exact E|]. split; [exact Hpts|]. split.
  - rewrite E. apply Forall_map. eapply Forall_impl; [exact Hpts|].
    intros [x y] [Hx Hy]. now apply pixel_defined.
  - intros Hsmall. rewrite E. unfold samplePoints.
    assert (Z.min 3 (Z.min (img_width img) (img_height img) / 4) = 0) as ->.
    { destruct (valid_sizes img Hv) as (Hw & Hh & _).
      rewrite Z.div_small by lia. lia. }
    simpl. now rewrite !Z.sub_0_r.
Qed.

Lemma samples_are_eight_witness :
  sampleBackgroundPoints ringed =
    map (fun '(x, y) => pixelAt (img_data ringed) ((y * img_width ringed + x) * 4))
      (samplePoints (img_width ringed) (img_height ringed)) /\
  Forall (fun '(x, y) => 0 <= x < img_width ringed /\ 0 <= y < img_height ringed)
    (samplePoints (img_width ringed) (img_height ringed)) /\
  Forall definedColor (sampleBackgroundPoints ringed) /\
  (Z.min (img_width ringed) (img_height ringed) < 4 ->
   drop 4 (sampleBackgroundPoints ringed) = take 4 (sampleBackgroundPoints ringed)).
Proof. apply (samples_are_eight ringed). reflexivity. Defined.

(** *** The most common colour *)

Lemma distanceWithin_same c t :
  definedColor c -> 0 <= t -> distanceWithin c c t = true.
Proof.
  intros ([r Hr] & [g Hg] & [b Hb] & _) Ht. unfold distanceWithin.
  rewrite Hr, Hg, Hb. simpl. rewrite !Z.sub_diag. simpl.
  apply andb_true_iff. split; [apply Z.leb_le; lia|apply Z.leb_le; nia].
Qed.

(** Colours within 20 of the first colour of the only group join it. *)
Lemma cluster_close c cs : forall l,
  Forall (fun d => distanceWithin d c 20 = true) cs ->
  fold_left
    (fun groups color =>
       match joinGroup color groups with
       | Some groups' => groups'
       | None => groups ++ [(color, [])]
       end)
    cs [(c, l)] = [(c, l ++ cs)].
Proof.
  induction cs as [|d cs IH]; intros l Hall; simpl.
  - now rewrite app_nil_r.
  - apply Forall_cons in Hall. destruct Hall as [Hd Hall].
    rewrite Hd. simpl. rewrite IH by exact Hall. now rewrite <- app_assoc.
Qed.

Lemma round_div_mul k v : 0 < k -> round_div (k * v) k = v.
Proof.
  intros Hk. unfold round_div. symmetry.
  apply (Z.div_unique _ _ _ k); lia.
Qed.

Lemma sum_same (channel : Color -> num) c v n : forall s,
  channel c = Some v ->
  fold_left (fun acc c' => lift2 Z.add acc (channel c')) (replicate n c) (Some s)
  = Some (s + Z.of_nat n * v).
Proof.
  induction n as [|n IH]; intros s Hc; simpl.
  - f_equal. lia.
  - rewrite Hc. simpl. rewrite IH by exact Hc. f_equal. lia.
Qed.

Lemma average_same (channel : Color -> num) c n :
  is_Some (channel c) -> averageChannel channel (c, replicate n c) = channel c.
Proof.
  intros [v Hc]. unfold averageChannel, groupLength. simpl.
  rewrite Hc. simpl. rewrite (sum_same channel c v n) by exact Hc. simpl.
  rewrite length_replicate. f_equal.
  replace (0 + v + Z.of_nat n * v) with ((1 + Z.of_nat n) * v) by lia.
  apply round_div_mul. lia.
Qed.

Lemma most_common_same c n :
  definedColor c -> findMostCommonColor (replicate (S n) c) = c.
Proof.
  intros Hc. unfold findMostCommonColor. simpl replicate.
  unfold clusterColors. simpl fold_left.
  rewrite (cluster_close c (replicate n c) []).
  - simpl. unfold largestOf. simpl. rewrite Z.ltb_irrefl.
    destruct Hc as (Hr & Hg & Hb & Ha).
    rewrite !average_same by assumption. now destruct c.
  - apply Forall_replicate. apply distanceWithin_same; [exact Hc|lia].
Qed.

(** X20: [findMostCommonColor] of samples that are all the same colour,
    read inside the buffer, is that colour: the samples form one group,
    and the rounded mean of equal bytes is the byte. *)
Theorem most_common_of_equal_samples c n :
  definedColor c -> findMostCommonColor (replicate (S n) c) = c.
Proof. apply most_common_same. Qed.

Lemma most_common_of_equal_samples_witness :
  definedColor white /\ findMostCommonColor (replicate 8 white) = white.
Proof.
  assert (Hd : definedColor white) by (repeat split; simpl; eauto).
  split; [exact Hd|]. exact (most_common_of_equal_samples white 7 Hd).
Defined.

(** *** What the shadow passes leave alone, and what they always clear *)

Lemma same_pixel width x y x' y' :
  0 <= x < width -> 0 <= x' < width ->
  (y' * width + x') * 4 + 3 = (y * width + x) * 4 + 3 -> x' = x /\ y' = y.
Proof.
  intros Hx Hx' E.
  assert (y' = y) by (destruct (Z.lt_trichotomy y' y) as [?|[?|?]]; [nia|lia|nia]).
  subst y'. lia.
Qed.

(** X21: [removeShadowsAlongSlices] leaves the alpha of a pixel as it
    was unless the alpha is above 0 and below 128 and the row of the
    pixel is scanned for one of the slice lines: transparent pixels,
    pixels with alpha 128 or more, and rows outside every band keep
    their alpha. *)
Theorem slice_shadows_spare img sliceLines shadowWidth x y :
  0 <= x < img_width img ->
  (forall a,
     load (img_data img) ((y * img_width img + x) * 4 + 3) = Some a ->
     0 < a < 128 ->
     ~ inSomeBand (img_height img) shadowWidth sliceLines y) ->
  load (img_data (removeShadowsAlongSlices img sliceLines shadowWidth))
    ((y * img_width img + x) * 4 + 3)
  = load (img_data img) ((y * img_width img + x) * 4 + 3).
Proof.
  intros Hx Hspare. unfold removeShadowsAlongSlices; simpl.
  set (i3 := (y * img_width img + x) * 4 + 3) in *.
  apply (fold_left_inv (fun d => load d i3 = load (img_data img) i3));
    [|reflexivity].
  intros d s Hs Hd. unfold sliceShadowRows.
  apply (fold_left_inv (fun d => load d i3 = load (img_data img) i3));
    [|exact Hd].
  intros d1 y' Hy' Hd1.
  apply (fold_left_inv (fun d => load d i3 = load (img_data img) i3));
    [|exact Hd1].
  intros d2 x' Hx' Hd2. unfold sliceShadowStep.
  destruct (gt (load d2 ((y' * img_width img + x') * 4 + 3)) 0
            && lt (load d2 ((y' * img_width img + x') * 4 + 3)) 200
            && isShadowPixel d2 x' y' (img_width img) (img_height img)) eqn:E;
    [|exact Hd2].
  destruct (Z.eq_dec ((y' * img_width img + x') * 4 + 3) i3) as [Heq|Hne].
  - exfalso. apply in_zrange in Hx'.
    destruct (same_pixel (img_width img) x y x' y' Hx ltac:(lia) Heq) as [-> ->].
    fold i3 in E. apply andb_true_iff in E. destruct E as [E Hshadow].
    apply andb_true_iff in E. destruct E as [Hpos _].
    unfold isShadowPixel in Hshadow. fold i3 in Hshadow.
    apply andb_true_iff in Hshadow. destruct Hshadow as [_ Hlow].
    rewrite Hd2 in Hpos, Hlow.
    destruct (load (img_data img) i3) as [a|] eqn:Ea; [|discriminate].
    simpl in Hpos, Hlow. apply Z.ltb_lt in Hpos, Hlow.
    apply (Hspare a eq_refl); [lia|]. exists s. now split.
  - rewrite load_store_ne by exact Hne. exact Hd2.
Qed.

Lemma slice_shadows_spare_witness :
  load (img_data (removeShadowsAlongSlices (fringe 150) [0] 3))
    ((0 * img_width (fringe 150) + 1) * 4 + 3)
  = load (img_data (fringe 150)) ((0 * img_width (fringe 150) + 1) * 4 + 3).
Proof.
  apply (slice_shadows_spare (fringe 150) [0] 3 1 0).
  - simpl. lia.
  - intros a Ha Hr. vm_compute in Ha. injection Ha as <-. lia.
Defined.

Section Fringe.

Variable lowSaturation : Z -> Z -> Z -> bool.
Variables (width height aggressiveness x y : Z).

Hypothesis Hx : 0 <= x < width.
Hypothesis Hy : 0 <= y < height.

Let i3 := (y * width + x) * 4 + 3.
Let settled (data : list Z) : Prop := ~ halfTransparent (load data i3).
Let check := checkAndRemoveGradient lowSaturation width height aggressiveness.

Lemma settled_cleared before after :
  onlyAlphaCleared before after -> settled before -> settled after.
Proof.
  intros Hc Hs (a & Ha & Hr). unfold settled in Hs.
  destruct (cleared_load before after i3 Hc) as [E|E].
  - apply Hs. exists a. split; [congruence|exact Hr].
  - rewrite E in Ha. injection Ha as <-. lia.
Qed.

Lemma check_keeps data x' y' : settled data -> settled (check data x' y').
Proof. apply settled_cleared, checkAndRemoveGradient_cleared. Qed.

Lemma check_settles data : settled (check data x y).
Proof.
  unfold settled, check, checkAndRemoveGradient. fold i3.
  destruct (Z.ltb_spec x 0); [lia|]. destruct (Z.leb_spec width x); [lia|].
  destruct (Z.ltb_spec y 0); [lia|]. destruct (Z.leb_spec height y); [lia|].
  simpl.
  replace ((y * width + x) * 4 + 3) with i3 by reflexivity.
  destruct (load data i3) as [a|] eqn:Ea; simpl.
  - destruct (Z.eqb_spec a 0) as [->|Hne].
    + intros (a' & Ha' & Hr). rewrite Ea in Ha'. injection Ha' as <-. lia.
    + destruct (Z.ltb_spec a 250).
      * rewrite (load_store_eq _ _ _ _ Ea).
        intros (a' & Ha' & Hr). injection Ha' as <-. lia.
      * destruct (_ && _).
        -- rewrite (load_store_eq _ _ _ _ Ea).
           intros (a' & Ha' & Hr). injection Ha' as <-. lia.
        -- intros (a' & Ha' & Hr). rewrite Ea in Ha'. injection Ha' as <-. lia.
  - destruct (_ && _).
    + intros (a' & Ha' & Hr).
      unfold store in Ha'. destruct (i3 <? 0) eqn:Ei.
      * rewrite Ea in Ha'. discriminate.
      * unfold load in Ea, Ha'. rewrite Ei in Ea, Ha'.
        rewrite list_insert_ge in Ha'; [congruence|].
        now apply lookup_ge_None.
    + intros (a' & Ha' & Hr). rewrite Ea in Ha'. discriminate.
Qed.

Lemma gradient_pass_settles data :
  nearEdge width height (Z.max 3 (Z.min 15 (aggressiveness / 6))) x y ->
  settled (removeGradientShadows lowSaturation width height data aggressiveness).
Proof.
  intros Hnear. unfold removeGradientShadows. cbv zeta. fold check.
  set (depthOf := Z.min (Z.min x y) (Z.min (width - 1 - x) (height - 1 - y))).
  assert (Hd : 0 <= depthOf < Z.max 3 (Z.min 15 (aggressiveness / 6))).
  { unfold nearEdge in Hnear. unfold depthOf. lia. }
  apply (fold_left_hits (fun _ => True) settled _ _ depthOf);
    [apply in_zrange; lia|auto| | |exact I].
  - intros d depth Hs.
    apply (fold_left_inv settled); [|apply (fold_left_inv settled); [|exact Hs]].
    + intros d' y' _ Hs'. now do 2 apply check_keeps.
    + intros d' x' _ Hs'. now do 2 apply check_keeps.
  - intros d _.
    assert (Hcase : y = depthOf \/ y = height - 1 - depthOf \/
                    x = depthOf \/ x = width - 1 - depthOf)
      by (unfold depthOf; lia).
    destruct Hcase as [Hc|[Hc|[Hc|Hc]]].
    + apply (fold_left_inv settled).
      * intros d' y' _ Hs'. now do 2 apply check_keeps.
      * apply (fold_left_hits (fun _ => True) settled _ _ x);
          [apply in_zrange; lia|auto| |  |exact I].
        -- intros d' x' Hs'. now do 2 apply check_keeps.
        -- intros d' _. apply check_keeps. rewrite <- Hc. apply check_settles.
    + apply (fold_left_inv settled).
      * intros d' y' _ Hs'. now do 2 apply check_keeps.
      * apply (fold_left_hits (fun _ => True) settled _ _ x);
          [apply in_zrange; lia|auto| |  |exact I].
        -- intros d' x' Hs'. now do 2 apply check_keeps.
        -- intros d' _. rewrite <- Hc. apply check_settles.
    + apply (fold_left_hits (fun _ => True) settled _ _ y);
        [apply in_zrange; lia|auto| |  |exact I].
      * intros d' y' Hs'. now do 2 apply check_keeps.
      * intros d' _. apply check_keeps. rewrite <- Hc. apply check_settles.
    + apply (fold_left_hits (fun _ => True) settled _ _ y);
        [apply in_zrange; lia|auto| |  |exact I].
      * intros d' y' Hs'. now do 2 apply check_keeps.
      * intros d' _. rewrite <- Hc. apply check_settles.
Qed.

End Fringe.

(** X22: [removeBackground] leaves no half-transparent fringe at the
    edges of the image.  The gradient pass scans
    [max (3, min (15, floor (max (aggressiveness, 25) / 6)))] lines from
    each edge, which is at least 4; every pixel closer than that to an
    edge ends with alpha 0 or alpha 250 or more. *)
Theorem no_half_transparent_fringe lowSaturation img tolerance aggressiveness
    out x y :
  removeBackground lowSaturation img tolerance aggressiveness = Some out ->
  0 <= x < img_width img -> 0 <= y < img_height img ->
  nearEdge (img_width img) (img_height img)
    (Z.max 3 (Z.min 15 (Z.max aggressiveness 25 / 6))) x y ->
  4 <= Z.max 3 (Z.min 15 (Z.max aggressiveness 25 / 6)) /\
  ~ halfTransparent (load (img_data out) ((y * img_width img + x) * 4 + 3)).
Proof.
  intros Hout Hx Hy Hnear. split.
  { pose proof (Z.div_le_mono 25 (Z.max aggressiveness 25) 6 ltac:(lia) ltac:(lia)).
    change (25 / 6) with 4 in *. lia. }
  unfold removeBackground in Hout.
  destruct (validImageData img); [|discriminate].
  destruct (createBackgroundMask _ _ _) as [mask|]; [|discriminate].
  injection Hout as <-. simpl.
  eapply settled_cleared; [apply removeSemiTransparentPixels_cleared|].
  now apply gradient_pass_settles.
Qed.

Lemma no_half_transparent_fringe_witness :
  exists out,
    removeBackground lowSaturationExact (fringe 100) 10 0 = Some out /\
    ~ halfTransparent (load (img_data out) ((0 * img_width (fringe 100) + 1) * 4 + 3)).
Proof.
  eexists. split; [vm_compute; reflexivity|].
  apply (no_half_transparent_fringe lowSaturationExact (fringe 100) 10 0 _ 1 0).
  - vm_compute. reflexivity.
  - simpl. lia.
  - simpl. lia.
  - unfold nearEdge. vm_compute. left. reflexivity.
Defined.

(** *** The flood fill reaches every edge-connected candidate *)

Lemma in_push {A} (c : bool) (q : list A) u v :
  In v q -> In v (if c then q ++ [u] else q).
Proof. intros Hv. destruct c; [|exact Hv]. apply in_or_app. now left. Qed.

Lemma in_pushed {A} (c : bool) (q : list A) u :
  c = true -> In u (if c then q ++ [u] else q).
Proof. intros ->. apply in_or_app. right. now left. Qed.

Section FloodCovers.

Variables (candidate : Z -> bool) (width height : Z) (mask : list Z).

Hypothesis width_pos : 0 < width.
Hypothesis height_pos : 0 < height.
Hypothesis mask_candidate :
  forall i, 0 <= i < width * height ->
            load mask i = Some (if candidate i then 1 else 0).

Lemma flags_load marks i :
  flags width height marks -> 0 <= i < width * height ->
  load marks i = Some 0 \/ load marks i = Some 1.
Proof.
  intros [Hlen Hall] Hi.
  destruct (load_in_range marks i ltac:(lia)) as [v Hv]. rewrite Hv.
  unfold load in Hv. destruct (i <? 0); [discriminate|].
  rewrite Forall_lookup in Hall. destruct (Hall _ _ Hv) as [->| ->]; auto.
Qed.

Lemma flags_store marks i :
  flags width height marks -> flags width height (store marks i 1).
Proof.
  intros [Hlen Hall]. split; [now rewrite length_store|].
  unfold store. destruct (i <? 0); [exact Hall|].
  apply Forall_insert; [exact Hall|now right].
Qed.

Lemma store_keeps_mark marks i j :
  flags width height marks -> 0 <= i < width * height ->
  load marks j = Some 1 \/ j = i -> load (store marks i 1) j = Some 1.
Proof.
  intros [Hlen _] Hi Hj.
  destruct (Z.eq_dec j i) as [->|Hne].
  - destruct (load_in_range marks i ltac:(lia)) as [v Hv].
    exact (load_store_eq _ _ _ _ Hv).
  - rewrite load_store_ne by congruence. destruct Hj; [assumption|contradiction].
Qed.

(** Once the queue is empty every reachable pixel has been visited. *)
Lemma covers_reachable visited x y :
  floodCovers candidate width height visited [] ->
  reachable candidate width height x y ->
  load visited (y * width + x) = Some 1.
Proof.
  intros [Hedge Hstep].
  induction 1 as [x y Hin He Hc|x y x' y' Hreach IH Hin' Hadj Hc].
  - destruct (Hedge x y Hin He Hc) as [Hv|[]]. exact Hv.
  - assert (Hin : inside width height x y).
    { clear IH. induction Hreach; assumption. }
    destruct (Hstep x y x' y' Hin IH Hin' Hadj Hc) as [Hv|[]]. exact Hv.
Qed.

Lemma floodLoop_covers fuel : forall visited queue r,
  flags width height visited ->
  Forall (fun q => 0 <= q < width * height) queue ->
  floodCovers candidate width height visited queue ->
  floodLoop fuel mask width height visited visited queue = Some r ->
  flags width height r /\ floodCovers candidate width height r [].
Proof.
  induction fuel as [|fuel IH]; intros visited queue r Hf Hq Hcov Hr.
  - destruct queue; simpl in Hr; [|discriminate].
    injection Hr as <-. now split.
  - destruct queue as [|index rest]; [simpl in Hr; injection Hr as <-; now split|].
    apply Forall_cons in Hq. destruct Hq as [Hi Hrest].
    cbn [floodLoop] in Hr. destruct Hcov as [Hedge Hstep].
    destruct (truthy (load visited index) || eqk (load mask index) 0) eqn:Hskip.
    + apply (IH visited rest r Hf Hrest); [|exact Hr].
      assert (Hcarry : forall j, candidate j = true ->
                load visited j = Some 1 \/ In j (index :: rest) ->
                load visited j = Some 1 \/ In j rest).
      { intros j Hc [Hv|[<-|Hj]]; [now left| |now right]. left.
        apply orb_true_iff in Hskip. destruct Hskip as [Ht|Hm].
        - destruct (flags_load visited index Hf Hi) as [E|E]; [|exact E].
          rewrite E in Ht. discriminate.
        - rewrite (mask_candidate index Hi), Hc in Hm. discriminate. }
      split.
      * intros x y Hin He Hc. apply Hcarry; [exact Hc|]. now apply Hedge.
      * intros x y x' y' Hin Hv Hin' Hadj Hc. apply Hcarry; [exact Hc|].
        now apply (Hstep x y).
    + destruct (coords width height width_pos index Hi) as (E & Hx & Hy).
      set (X := index mod width) in *. set (Y := index / width) in *.
      set (q1 := if 0 <? X then rest ++ [index - 1] else rest) in Hr.
      set (q2 := if X <? width - 1 then q1 ++ [index + 1] else q1) in Hr.
      set (q3 := if 0 <? Y then q2 ++ [index - width] else q2) in Hr.
      set (q4 := if Y <? height - 1 then q3 ++ [index + width] else q3) in Hr.
      assert (Hcarry : forall j,
                load visited j = Some 1 \/ In j (index :: rest) ->
                load (store visited index 1) j = Some 1 \/ In j q4).
      { intros j [Hv|[<-|Hj]].
        - left. apply store_keeps_mark; auto.
        - left. apply store_keeps_mark; auto.
        - right. unfold q4, q3, q2, q1. now do 4 apply in_push. }
      apply (IH (store visited index 1) q4 r); [now apply flags_store| | |exact Hr].
      * unfold q4, q3, q2, q1.
        repeat apply Forall_push; try exact Hrest;
          intros Hc; apply Z.ltb_lt in Hc; nia.
      * split.
        -- intros x y Hin He Hc. apply Hcarry. now apply Hedge.
        -- intros x y x' y' Hin Hv Hin' Hadj Hc.
           destruct (Z.eq_dec (y * width + x) index) as [Heq|Hne].
           ++ right. destruct Hin as [Hx0 Hy0], Hin' as [Hx1 Hy1].
              assert (x = X /\ y = Y) as [-> ->].
              { destruct (coords_of width x y Hx0) as [E1 E2].
                rewrite Heq in E1, E2. auto. }
              unfold adjacent in Hadj.
              destruct Hadj as [[-> ->]|[[-> ->]|[[-> ->]| [-> ->]]]].
              ** replace (Y * width + (X - 1)) with (index - 1) by lia.
                 unfold q4, q3, q2. do 3 apply in_push.
                 apply in_pushed. apply Z.ltb_lt. lia.
              ** replace (Y * width + (X + 1)) with (index + 1) by lia.
                 unfold q4, q3. do 2 apply in_push.
                 apply in_pushed. apply Z.ltb_lt. lia.
              ** replace ((Y - 1) * width + X) with (index - width) by lia.
                 unfold q4. apply in_push.
                 apply in_pushed. apply Z.ltb_lt. lia.
              ** replace ((Y + 1) * width + X) with (index + width) by lia.
                 apply in_pushed. apply Z.ltb_lt. lia.
           ++ rewrite load_store_ne in Hv by congruence.
              apply Hcarry. now apply (Hstep x y).
Qed.

Lemma edgeQueue_covers :
  floodCovers candidate width height
    (replicate (Z.to_nat (width * height)) 0) (edgeQueue width height).
Proof.
  split.
  - intros x y [Hx Hy] He _. right. unfold edgeQueue. apply in_or_app.
    destruct He as [->|[->|[->| ->]]].
    + right. apply in_flat_map. exists y. split; [apply in_zrange; lia|].
      left. lia.
    + right. apply in_flat_map. exists y. split; [apply in_zrange; lia|].
      right. left. lia.
    + left. apply in_flat_map. exists x. split; [apply in_zrange; lia|].
      left. lia.
    + left. apply in_flat_map. exists x. split; [apply in_zrange; lia|].
      right. left. lia.
  - intros x y x' y' _ Hv. unfold load in Hv.
    destruct (y * width + x <? 0); [discriminate|].
    apply lookup_replicate in Hv. destruct Hv as [Hv _]. discriminate.
Qed.

Lemma floodFillFromEdges_covers r :
  floodFillFromEdges mask width height = Some r ->
  flags width height r /\
  forall x y, reachable candidate width height x y ->
              load r (y * width + x) = Some 1.
Proof.
  unfold floodFillFromEdges. intros Hr.
  destruct (floodLoop_covers (floodFuel width height)
              (replicate (Z.to_nat (width * height)) 0)
              (edgeQueue width height) r) as [Hf Hcov]; [| | |exact Hr|].
  - split; [rewrite length_replicate; nia|]. apply Forall_replicate. now left.
  - eapply Forall_impl;
      [apply (edgeQueue_queued candidate width height width_pos height_pos)|].
    now intros q [Hq _].
  - apply edgeQueue_covers.
  - split; [exact Hf|]. intros x y Hreach. now apply covers_reachable.
Qed.

End FloodCovers.

Lemma createBackgroundMask_exact img backgroundColor tolerance :
  validImageData img = true ->
  exists mask,
    createBackgroundMask img backgroundColor tolerance = Some mask /\
    Z.of_nat (length mask) = img_width img * img_height img /\
    forall x y,
      inside (img_width img) (img_height img) x y ->
      (reachable (isCandidate (img_data img) backgroundColor tolerance)
         (img_width img) (img_height img) x y ->
       load mask (y * img_width img + x) = Some 1) /\
      (~ reachable (isCandidate (img_data img) backgroundColor tolerance)
           (img_width img) (img_height img) x y ->
       load mask (y * img_width img + x) = Some 0).
Proof.
  intros Hvalid. destruct (valid_sizes img Hvalid) as (Hw & Hh & _).
  destruct (createBackgroundMask_spec img backgroundColor tolerance Hvalid)
    as (mask & Hmask & Hmarked).
  exists mask. split; [exact Hmask|].
  destruct (floodFillFromEdges_covers
              (isCandidate (img_data img) backgroundColor tolerance)
              (img_width img) (img_height img)
              (candidateMask (img_data img) (img_width img) (img_height img)
                 backgroundColor tolerance) Hw Hh) with (r := mask)
    as [Hf Hcov].
  - intros i Hi. unfold candidateMask.
    now rewrite (load_map_zrange
                   (fun i => if isCandidate (img_data img) backgroundColor
                                  tolerance i then 1 else 0)).
  - exact Hmask.
  - split; [apply Hf|]. intros x y [Hx Hy]. split; [apply Hcov|].
    intros Hnot.
    assert (Hi : 0 <= y * img_width img + x < img_width img * img_height img)
      by nia.
    destruct (flags_load _ _ mask _ Hf Hi) as [E|E]; [exact E|].
    destruct (Hmarked _ Hi E) as [_ Hreach].
    destruct (coords_of (img_width img) x y Hx) as [Ex Ey].
    rewrite Ex, Ey in Hreach. contradiction.
Qed.

(** X23: the mask of [createBackgroundMask] is exactly the background
    connected to the border.  On a valid image the mask has one entry
    per pixel; the entry is 1 for every background candidate that a
    4-connected path of candidates joins to a border pixel, and 0 for
    every other pixel. *)
Theorem mask_is_edge_connected_background img backgroundColor tolerance :
  validImageData img = true ->
  exists mask,
    createBackgroundMask img backgroundColor tolerance = Some mask /\
    Z.of_nat (length mask) = img_width img * img_height img /\
    forall x y,
      inside (img_width img) (img_height img) x y ->
      (reachable (isCandidate (img_data img) backgroundColor tolerance)
         (img_width img) (img_height img) x y ->
       load mask (y * img_width img + x) = Some 1) /\
      (~ reachable (isCandidate (img_data img) backgroundColor tolerance)
           (img_width img) (img_height img) x y ->
       load mask (y * img_width img + x) = Some 0).
Proof. apply createBackgroundMask_exact. Qed.

Lemma mask_is_edge_connected_background_witness :
  exists mask,
    createBackgroundMask ringed white 60 = Some mask /\
    Z.of_nat (length mask) = img_width ringed * img_height ringed /\
    forall x y,
      inside (img_width ringed) (img_height ringed) x y ->
      (reachable (isCandidate (img_data ringed) white 60)
         (img_width ringed) (img_height ringed) x y ->
       load mask (y * img_width ringed + x) = Some 1) /\
      (~ reachable (isCandidate (img_data ringed) white 60)
           (img_width ringed) (img_height ringed) x y ->
       load mask (y * img_width ringed + x) = Some 0).
Proof.
  apply (mask_is_edge_connected_background ringed white 60). reflexivity.
Defined.

(** *** An image of a single colour *)

Lemma all_reachable (candidate : Z -> bool) width height x y :
  (forall i, 0 <= i < width * height -> candidate i = true) ->
  inside width height x y -> reachable candidate width height x y.
Proof.
  intros Hall [Hx Hy].
  assert (Hn : forall n : nat, Z.of_nat n < width ->
                 reachable candidate width height (Z.of_nat n) y).
  { induction n as [|n IH]; intros Hn.
    - apply reach_edge; [split; lia|left; reflexivity|apply Hall; nia].
    - apply (reach_step _ _ _ (Z.of_nat n) y).
      + apply IH. lia.
      + split; lia.
      + right. left. split; lia.
      + apply Hall. nia. }
  replace x with (Z.of_nat (Z.to_nat x)) by lia. apply Hn. lia.
Qed.

Lemma applyTransparencyMask_sets data mask i :
  0 <= i < Z.of_nat (length mask) ->
  i * 4 + 3 < Z.of_nat (length data) ->
  load mask i = Some 1 ->
  load (applyTransparencyMask data mask) (i * 4 + 3) = Some 0.
Proof.
  intros Hi Hlen Hm. unfold applyTransparencyMask.
  apply (fold_left_hits
           (fun d => length d = length data)
           (fun d => load d (i * 4 + 3) = Some 0) _ _ i).
  - apply in_zrange. lia.
  - intros d j Hd. unfold maskStep.
    destruct (eqk (load mask j) 1); [now rewrite length_store|exact Hd].
  - intros d j Hd. unfold maskStep.
    destruct (eqk (load mask j) 1); [|exact Hd].
    exact (cleared_zero _ _ _ (cleared_store d j) Hd).
  - intros d Hd. unfold maskStep. rewrite Hm. simpl.
    destruct (load_in_range d (i * 4 + 3) ltac:(lia)) as [v Hv].
    exact (load_store_eq _ _ _ _ Hv).
  - reflexivity.
Qed.

Section Single.

Variable img : ImageData.

Hypothesis Hvalid : validImageData img = true.
Hypothesis Hone : singleColour img.

Lemma single_channel p c :
  0 <= p < img_width img * img_height img -> 0 <= c < 4 ->
  load (img_data img) (p * 4 + c) = load (img_data img) (0 + c).
Proof. intros Hp Hc. now rewrite Hone. Qed.

Lemma single_pixel p :
  0 <= p < img_width img * img_height img ->
  pixelAt (img_data img) (p * 4) = pixelAt (img_data img) 0.
Proof.
  intros Hp. unfold pixelAt.
  rewrite (single_channel p 1), (single_channel p 2), (single_channel p 3)
    by (assumption || lia).
  pose proof (single_channel p 0 Hp ltac:(lia)) as H0.
  rewrite Z.add_0_r in H0. rewrite H0. reflexivity.
Qed.

Lemma single_samples :
  sampleBackgroundPoints img = replicate 8 (pixelAt (img_data img) 0).
Proof.
  destruct (sample_points img Hvalid) as [E Hpts]. rewrite E.
  unfold samplePoints in *.
  repeat match goal with
         | H : Forall _ (_ :: _) |- _ =>
             apply Forall_cons in H; destruct H as [[? ?] H]
         end.
  simpl map.
  rewrite !single_pixel by nia. reflexivity.
Qed.

Lemma single_background :
  findMostCommonColor (sampleBackgroundPoints img) = pixelAt (img_data img) 0.
Proof.
  rewrite single_samples.
  destruct (valid_sizes img Hvalid) as (Hw & Hh & Hlen).
  pose proof (pixel_defined img 0 0 Hvalid ltac:(lia) ltac:(lia)) as Hd.
  replace ((0 * img_width img + 0) * 4) with 0 in Hd by lia.
  exact (most_common_same _ 7 Hd).
Qed.

Lemma single_candidate tolerance i :
  0 <= tolerance -> 0 <= i < img_width img * img_height img ->
  isCandidate (img_data img) (pixelAt (img_data img) 0) tolerance i = true.
Proof.
  intros Ht Hi. unfold isCandidate. cbv zeta.
  destruct (valid_sizes img Hvalid) as (Hw & Hh & Hlen).
  rewrite (single_channel i 1), (single_channel i 2) by (assumption || lia).
  pose proof (single_channel i 0 Hi ltac:(lia)) as H0.
  rewrite Z.add_0_r in H0. rewrite H0. simpl Z.add.
  destruct (load_in_range (img_data img) 0 ltac:(nia)) as [r Hr].
  destruct (load_in_range (img_data img) 1 ltac:(nia)) as [g Hg].
  destruct (load_in_range (img_data img) 2 ltac:(nia)) as [b Hb].
  unfold distanceWithin, pixelAt. cbn [c_r c_g c_b].
  change (0 + 0) with 0. change (0 + 1) with 1. change (0 + 2) with 2.
  rewrite Hr, Hg, Hb. simpl.
  rewrite !Z.sub_diag. simpl.
  apply andb_true_iff. split; [apply Z.leb_le; lia|apply Z.leb_le; nia].
Qed.

Lemma single_transparent lowSaturation tolerance aggressiveness :
  0 <= Z.max tolerance (aggressiveness * 2) ->
  exists out,
    removeBackground lowSaturation img tolerance aggressiveness = Some out /\
    img_width out = img_width img /\ img_height out = img_height img /\
    forall x y, inside (img_width img) (img_height img) x y ->
      load (img_data out) ((y * img_width img + x) * 4 + 3) = Some 0.
Proof.
  intros Ht. destruct (valid_sizes img Hvalid) as (Hw & Hh & Hlen).
  unfold removeBackground. rewrite Hvalid. cbv zeta.
  rewrite single_background.
  destruct (createBackgroundMask_exact img (pixelAt (img_data img) 0)
              (Z.max tolerance (aggressiveness * 2)) Hvalid)
    as (mask & -> & Hmlen & Hmask).
  eexists. split; [reflexivity|]. split; [reflexivity|]. split; [reflexivity|].
  intros x y Hin. simpl.
  eapply cleared_zero; [apply removeSemiTransparentPixels_cleared|].
  eapply cleared_zero; [apply removeGradientShadows_cleared|].
  destruct Hin as [Hx Hy].
  apply applyTransparencyMask_sets; [nia|nia|].
  apply Hmask; [now split|].
  apply all_reachable; [|now split].
  intros i Hi. now apply single_candidate.
Qed.

End Single.

(** X24: [removeBackground] makes an image of a single colour fully
    transparent.  All eight samples are that colour, so it is the
    background; with a tolerance that is not negative every pixel is a
    candidate joined to the border, the mask marks them all, and the
    later passes never raise an alpha: the result has the size of the
    input and alpha 0 everywhere. *)
Theorem single_colour_becomes_transparent lowSaturation img tolerance
    aggressiveness :
  validImageData img = true -> singleColour img ->
  0 <= Z.max tolerance (aggressiveness * 2) ->
  exists out,
    removeBackground lowSaturation img tolerance aggressiveness = Some out /\
    img_width out = img_width img /\ img_height out = img_height img /\
    forall x y, inside (img_width img) (img_height img) x y ->
      load (img_data out) ((y * img_width img + x) * 4 + 3) = Some 0.
Proof. intros. now apply single_transparent. Qed.

Lemma single_colour_becomes_transparent_witness :
  exists out,
    removeBackground lowSaturationExact plain 10 0 = Some out /\
    img_width out = img_width plain /\ img_height out = img_height plain /\
    forall x y, inside (img_width plain) (img_height plain) x y ->
      load (img_data out) ((y * img_width plain + x) * 4 + 3) = Some 0.
Proof.
  apply (single_colour_becomes_transparent lowSaturationExact plain 10 0).
  - reflexivity.
  - exact GridMore.plain_single_colour.
  - lia.
Defined.

End BackgroundMore.

(** ** Trimming transparent padding *)

Module TrimFacts.

Import ShapeDecomposer Terms BackgroundRemover Trim TrimTerms.

(** Two loops over the same list that keep a relation between their
    states. *)
Lemma fold_left_rel {A B C} (R : A -> C -> Prop) (f : A -> B -> A)
    (g : C -> B -> C) (l : list B) :
  (forall a c b, In b l -> R a c -> R (f a b) (g c b)) ->
  forall a c, R a c -> R (fold_left f l a) (fold_left g l c).
Proof.
  induction l as [|b l IH]; simpl; intros Hstep a c Hac; [exact Hac|].
  apply IH; [|apply Hstep; auto].
  intros a' c' b' Hb'. apply Hstep. now right.
Qed.

(** The scans of [findContentBounds] and of [trimTransparentPadding]
    agree as soon as they have seen a visible pixel. *)
Lemma extents_agree img :
  (scanExtent img = {| minX := img_width img; minY := img_height img;
                       maxX := 0; maxY := 0 |} /\
   trimExtent img = {| minX := img_width img; minY := img_height img;
                       maxX := -1; maxY := -1 |}) \/
  (scanExtent img = trimExtent img /\
   0 <= minX (trimExtent img) <= maxX (trimExtent img) /\
   0 <= minY (trimExtent img) <= maxY (trimExtent img)).
Proof.
  unfold scanExtent, trimExtent.
  set (R := fun a b : Extent =>
              (a = {| minX := img_width img; minY := img_height img;
                      maxX := 0; maxY := 0 |} /\
               b = {| minX := img_width img; minY := img_height img;
                      maxX := -1; maxY := -1 |}) \/
              (a = b /\ 0 <= minX b <= maxX b /\ 0 <= minY b <= maxY b)).
  apply (fold_left_rel R); [|left; now split].
  intros a b y Hy Hab. apply in_zrange in Hy.
  apply (fold_left_rel R); [|exact Hab].
  intros a' b' x Hx Hab'. apply in_zrange in Hx.
  unfold extendExtent. destruct (gt (alphaAt img x y) 0); [|exact Hab'].
  right. destruct Hab' as [[-> ->]|(-> & Hx' & Hy')]; simpl.
  - split; [f_equal; lia|lia].
  - split; [reflexivity|lia].
Qed.

(** X25: [trimTransparentPadding] and [findContentBounds] find the same
    box.  For an image of positive width, the trim reports an empty
    component when [findContentBounds] returns [null] or a box narrower
    or lower than 3 pixels; otherwise its bounds are that box and its
    image has the size of the box. *)
Theorem trim_agrees_with_content_bounds img :
  0 < img_width img ->
  match findContentBounds img with
  | None => trimTransparentPadding img = emptyTrim
  | Some b =>
      if (b_width b <? 3) || (b_height b <? 3)
      then trimTransparentPadding img = emptyTrim
      else t_isEmpty (trimTransparentPadding img) = false /\
           t_bounds (trimTransparentPadding img) = b /\
           img_width (t_image (trimTransparentPadding img)) = b_width b /\
           img_height (t_image (trimTransparentPadding img)) = b_height b
  end.
Proof.
  intros Hw. unfold findContentBounds, trimTransparentPadding.
  destruct (extents_agree img) as [[-> ->]|(-> & Hx & Hy)]; simpl.
  - destruct (Z.ltb_spec 0 (img_width img)); [reflexivity|lia].
  - set (e := trimExtent img) in *.
    destruct (Z.ltb_spec (maxX e) (minX e)); [lia|].
    destruct (Z.eqb_spec (maxX e) (-1)); [lia|].
    destruct (Z.eqb_spec (maxY e) (-1)); [lia|].
    simpl.
    destruct ((maxX e - minX e + 1 <? 3) || (maxY e - minY e + 1 <? 3));
      [reflexivity|]. simpl. auto.
Qed.

Lemma trim_agrees_with_content_bounds_witness :
  findContentBounds padded = Some (mkBounds 1 1 3 3) /\
  t_isEmpty (trimTransparentPadding padded) = false /\
  t_bounds (trimTransparentPadding padded) = mkBounds 1 1 3 3 /\
  img_width (t_image (trimTransparentPadding padded)) = 3 /\
  img_height (t_image (trimTransparentPadding padded)) = 3.
Proof.
  assert (E : findContentBounds padded = Some (mkBounds 1 1 3 3))
    by (vm_compute; reflexivity).
  split; [exact E|].
  pose proof (trim_agrees_with_content_bounds padded ltac:(simpl; lia)) as H.
  rewrite E in H. exact H.
Defined.

(** *** The copy loop *)

Lemma length_storeNum d i v : length (storeNum d i v) = length d.
Proof. apply length_store. Qed.

Lemma load_storeNum d i j v :
  0 <= i < Z.of_nat (length d) ->
  load (storeNum d i v) j =
  if j =? i
  then Some (match v with Some z => Z.max 0 (Z.min 255 z) | None => 0 end)
  else load d j.
Proof.
  intros Hi. unfold storeNum. destruct (Z.eqb_spec j i) as [->|Hne].
  - destruct (load_in_range d i Hi) as [a Ha].
    exact (load_store_eq _ _ _ _ Ha).
  - apply load_store_ne. congruence.
Qed.

Lemma pixel_index_unique tw x y c x' y' c' :
  0 <= x < tw -> 0 <= x' < tw -> 0 <= c < 4 -> 0 <= c' < 4 ->
  (y' * tw + x') * 4 + c' = (y * tw + x) * 4 + c ->
  x' = x /\ y' = y /\ c' = c.
Proof.
  intros Hx Hx' Hc Hc' E.
  assert (c' = c) by lia. subst c'.
  assert (y' = y) by (destruct (Z.lt_trichotomy y' y) as [?|[?|?]]; [nia|lia|nia]).
  subst y'. lia.
Qed.

Section Copy.

Variables (data : list Z) (width minX minY tw th : Z).

Hypothesis Htw : 0 < tw.
Hypothesis Hth : 0 < th.

(** The byte the copy loop writes for channel [c] of pixel [(x, y)]. *)
Let copied (x y c : Z) : Z :=
  match load data (((minY + y) * width + (minX + x)) * 4 + c) with
  | Some z => Z.max 0 (Z.min 255 z)
  | None => 0
  end.

Let sized (d : list Z) : Prop := Z.of_nat (length d) = tw * th * 4.

Lemma copyPixel_sized d y x :
  sized d -> sized (copyPixel data width minX minY tw y d x).
Proof.
  unfold sized, copyPixel. cbv zeta. now rewrite !length_storeNum.
Qed.

Lemma load_copyPixel d y x j :
  0 <= x < tw -> 0 <= y < th -> sized d ->
  load (copyPixel data width minX minY tw y d x) j =
  if j =? (y * tw + x) * 4 + 3 then Some (copied x y 3)
  else if j =? (y * tw + x) * 4 + 2 then Some (copied x y 2)
  else if j =? (y * tw + x) * 4 + 1 then Some (copied x y 1)
  else if j =? (y * tw + x) * 4 then Some (copied x y 0)
  else load d j.
Proof.
  intros Hx Hy Hd. unfold sized in Hd. unfold copyPixel. cbv zeta.
  assert (Hi : 0 <= (y * tw + x) * 4 /\ (y * tw + x) * 4 + 3 < tw * th * 4)
    by nia.
  rewrite load_storeNum by (rewrite !length_storeNum; lia).
  rewrite load_storeNum by (rewrite !length_storeNum; lia).
  rewrite load_storeNum by (rewrite !length_storeNum; lia).
  rewrite load_storeNum by lia.
  unfold copied. now rewrite Z.add_0_r.
Qed.

Lemma copyPixel_keeps d y x x0 y0 c0 :
  0 <= x < tw -> 0 <= y < th -> 0 <= x0 < tw -> 0 <= c0 < 4 ->
  sized d /\ load d ((y0 * tw + x0) * 4 + c0) = Some (copied x0 y0 c0) ->
  sized (copyPixel data width minX minY tw y d x) /\
  load (copyPixel data width minX minY tw y d x) ((y0 * tw + x0) * 4 + c0)
  = Some (copied x0 y0 c0).
Proof.
  intros Hx Hy Hx0 Hc0 [Hd Hl]. split; [now apply copyPixel_sized|].
  rewrite load_copyPixel by assumption.
  repeat match goal with
         | |- context [?a =? ?b] => destruct (Z.eqb_spec a b) as [E|_]
         end; try exact Hl.
  - destruct (pixel_index_unique tw x y 3 x0 y0 c0) as (-> & -> & ->);
      auto; lia.
  - destruct (pixel_index_unique tw x y 2 x0 y0 c0) as (-> & -> & ->);
      auto; lia.
  - destruct (pixel_index_unique tw x y 1 x0 y0 c0) as (-> & -> & ->);
      auto; lia.
  - destruct (pixel_index_unique tw x y 0 x0 y0 c0) as (-> & -> & ->);
      auto; lia.
Qed.

Lemma copyPixel_hits d x y c :
  0 <= x < tw -> 0 <= y < th -> 0 <= c < 4 -> sized d ->
  sized (copyPixel data width minX minY tw y d x) /\
  load (copyPixel data width minX minY tw y d x) ((y * tw + x) * 4 + c)
  = Some (copied x y c).
Proof.
  intros Hx Hy Hc Hd. split; [now apply copyPixel_sized|].
  rewrite load_copyPixel by assumption.
  assert (Hcase : c = 0 \/ c = 1 \/ c = 2 \/ c = 3) by lia.
  destruct Hcase as [->|[->|[->| ->]]];
    repeat match goal with
           | |- context [?a =? ?b] => destruct (Z.eqb_spec a b)
           end; try lia; reflexivity.
Qed.

Lemma copyRegion_sized : sized (copyRegion data width minX minY tw th).
Proof.
  unfold copyRegion. apply fold_left_inv.
  - intros d y _ Hd. apply fold_left_inv; [|exact Hd].
    intros d' x _. apply copyPixel_sized.
  - unfold sized. rewrite length_replicate. nia.
Qed.

Lemma copyRegion_pixel x y c :
  0 <= x < tw -> 0 <= y < th -> 0 <= c < 4 ->
  load (copyRegion data width minX minY tw th) ((y * tw + x) * 4 + c)
  = Some (copied x y c).
Proof.
  intros Hx Hy Hc. unfold copyRegion.
  apply (fold_left_hits_in sized
           (fun d => sized d /\
                     load d ((y * tw + x) * 4 + c) = Some (copied x y c))
           _ _ y).
  - apply in_zrange. lia.
  - intros d y' _ Hd. apply fold_left_inv; [|exact Hd].
    intros d' x' _. apply copyPixel_sized.
  - intros d y' Hy' Hd. apply in_zrange in Hy'.
    apply fold_left_inv; [|exact Hd].
    intros d' x' Hx' Hd'. apply in_zrange in Hx'.
    apply copyPixel_keeps; auto; lia.
  - intros d Hd.
    apply (fold_left_hits_in sized
             (fun d => sized d /\
                       load d ((y * tw + x) * 4 + c) = Some (copied x y c))
             _ _ x).
    + apply in_zrange. lia.
    + intros d' x' _. apply copyPixel_sized.
    + intros d' x' Hx' Hd'. apply in_zrange in Hx'.
      apply copyPixel_keeps; auto; lia.
    + intros d' Hd'. now apply copyPixel_hits.
    + exact Hd.
  - unfold sized. rewrite length_replicate. nia.
Qed.

End Copy.

(** X26: what [trimTransparentPadding] returns for a component that is
    not empty, on a well-formed image of bytes: the box lies inside the
    image and is at least 3 x 3, the trimmed image has the size of the
    box and a buffer of 4 bytes per pixel, and every channel of its
    pixel [(x, y)] is the channel of the source pixel
    [(bounds.x + x, bounds.y + y)]. *)
Theorem trimmed_pixels_are_source_pixels img :
  wellFormed img -> bytes (img_data img) ->
  t_isEmpty (trimTransparentPadding img) = false ->
  let t := trimTransparentPadding img in
  let b := t_bounds t in
  boxInside img b /\ 3 <= b_width b /\ 3 <= b_height b /\
  img_width (t_image t) = b_width b /\ img_height (t_image t) = b_height b /\
  Z.of_nat (length (img_data (t_image t))) = b_width b * b_height b * 4 /\
  forall x y c,
    0 <= x < b_width b -> 0 <= y < b_height b -> 0 <= c < 4 ->
    load (img_data (t_image t)) ((y * b_width b + x) * 4 + c)
    = load (img_data img) (((b_y b + y) * img_width img + (b_x b + x)) * 4 + c).
Proof.
  intros (Hw0 & Hh0 & Hlen) Hb. unfold trimTransparentPadding.
  set (e0 := {| minX := img_width img; minY := img_height img;
                maxX := -1; maxY := -1 |}).
  pose proof (ShapeMore.scan_attained img e0 eq_refl eq_refl
                ltac:(simpl; lia) ltac:(simpl; lia)) as Hatt.
  pose proof (fun X Y => ShapeMore.scan_covers img e0 X Y) as Hcov.
  cbv zeta in Hatt, Hcov. subst e0. fold (trimExtent img) in Hatt, Hcov.
  set (e := trimExtent img) in *.
  destruct (Z.eqb_spec (maxX e) (-1)) as [|HmX]; [discriminate|].
  destruct (Z.eqb_spec (maxY e) (-1)) as [|HmY]; [discriminate|].
  simpl orb.
  destruct (Z.ltb_spec (maxX e - minX e + 1) 3) as [|Hw3]; [discriminate|].
  destruct (Z.ltb_spec (maxY e - minY e + 1) 3) as [|Hh3]; [discriminate|].
  simpl. intros _.
  destruct Hatt as [E|(H1 & H2 & H3 & H4)].
  { rewrite E in HmX. simpl in HmX. lia. }
  destruct H1 as (y1 & V1). destruct H2 as (y2 & V2).
  destruct H3 as (x3 & V3). destruct H4 as (x4 & V4).
  pose proof V1 as (? & ? & _). pose proof V2 as (? & ? & _).
  pose proof V3 as (? & ? & _). pose proof V4 as (? & ? & _).
  split; [unfold boxInside; simpl; lia|].
  split; [exact Hw3|]. split; [exact Hh3|].
  split; [reflexivity|]. split; [reflexivity|].
  split; [apply copyRegion_sized; lia|].
  intros x y c Hx Hy Hc. rewrite copyRegion_pixel by lia.
  destruct (load_in_range (img_data img)
              (((minY e + y) * img_width img + (minX e + x)) * 4 + c))
    as [v Hv]; [nia|].
  rewrite Hv. f_equal.
  unfold bytes in Hb. rewrite Forall_lookup in Hb.
  unfold load in Hv. destruct (_ <? 0); [discriminate|].
  apply Hb in Hv. lia.
Qed.

Lemma trimmed_pixels_are_source_pixels_witness :
  let t := trimTransparentPadding padded in
  let b := t_bounds t in
  boxInside padded b /\ 3 <= b_width b /\ 3 <= b_height b /\
  img_width (t_image t) = b_width b /\ img_height (t_image t) = b_height b /\
  Z.of_nat (length (img_data (t_image t))) = b_width b * b_height b * 4 /\
  forall x y c,
    0 <= x < b_width b -> 0 <= y < b_height b -> 0 <= c < 4 ->
    load (img_data (t_image t)) ((y * b_width b + x) * 4 + c)
    = load (img_data padded) (((b_y b + y) * img_width padded + (b_x b + x)) * 4 + c).
Proof.
  apply (trimmed_pixels_are_source_pixels padded).
  - repeat split; simpl; lia.
  - unfold bytes, padded. simpl. repeat (constructor; [lia|]). constructor.
  - vm_compute. reflexivity.
Defined.

End TrimFacts.

(** ** Processing a cell *)

Module AnalyzerFacts.

Import ShapeDecomposer BackgroundRemover NineSlice Analyzer Terms GridTerms
  BackgroundFacts.

Lemma removeBackground_cleared lowSaturation img tolerance aggressiveness out :
  removeBackground lowSaturation img tolerance aggressiveness = Some out ->
  img_width out = img_width img /\ img_height out = img_height img /\
  onlyAlphaCleared (img_data img) (img_data out).
Proof.
  unfold removeBackground.
  destruct (validImageData img); [|discriminate].
  destruct (createBackgroundMask _ _ _) as [mask|]; [|discriminate].
  intros Hout. injection Hout as <-. simpl.
  split; [reflexivity|]. split; [reflexivity|].
  eapply cleared_trans; [|apply removeSemiTransparentPixels_cleared].
  eapply cleared_trans; [|apply removeGradientShadows_cleared].
  apply applyTransparencyMask_cleared.
Qed.

(** [calculateNineSliceBorders] never reads the bounds of an analysis
    that has none: [decomposeIntoShapes] reports such an analysis as
    empty. *)
Lemma nine_slice_returns img :
  exists borders,
    calculateNineSliceBorders img (decomposeIntoShapes img) = Returns borders /\
    (borders = None <-> isEmpty (decomposeIntoShapes img) = true).
Proof.
  unfold calculateNineSliceBorders.
  destruct (isEmpty (decomposeIntoShapes img)) eqn:Hempty.
  - exists None. now split.
  - destruct (bounds (decomposeIntoShapes img)) as [b|] eqn:Hb.
    + eexists. split; [reflexivity|]. split; discriminate.
    + unfold decomposeIntoShapes in Hb, Hempty.
      destruct (findContentBounds img); discriminate.
Qed.

(** X27: processing a cell never throws on a valid image of bytes.  The
    component carries an image of the size of the cell in which every
    pixel has kept its colour and has its alpha unchanged or lowered to
    0; its shapes are those of that image; and its nine-slice borders
    are [null] exactly when there is no shape. *)
Theorem cell_processing_returns lowSaturation cell cellHeight aggressiveness :
  validImageData cell = true -> bytes (img_data cell) ->
  exists comp,
    processCell lowSaturation cell cellHeight aggressiveness = Returns comp /\
    img_width (comp_imageData comp) = img_width cell /\
    img_height (comp_imageData comp) = img_height cell /\
    colorKeptAlphaLowered (img_data cell) (img_data (comp_imageData comp)) /\
    comp_shapes comp = shapes (decomposeIntoShapes (comp_imageData comp)) /\
    (comp_nineSlice comp = None <-> comp_shapes comp = []).
Proof.
  intros Hvalid Hb. unfold processCell.
  destruct (removeBackground lowSaturation cell 10 aggressiveness)
    as [cleaned|] eqn:Hclean.
  - destruct (removeBackground_cleared _ _ _ _ _ Hclean) as (Hw & Hh & Hc).
    cbv zeta.
    set (cleaned' := removeShadowsAlongSlices cleaned [0; cellHeight - 1] 3).
    destruct (nine_slice_returns cleaned') as (borders & -> & Hnull).
    eexists. split; [reflexivity|].
    cbn [comp_imageData comp_shapes comp_nineSlice].
    split; [exact Hw|]. split; [exact Hh|]. split; [|split; [reflexivity|]].
    + apply cleared_pixels; [exact Hb|].
      eapply cleared_trans; [exact Hc|].
      apply (removeShadowsAlongSlices_cleared cleaned).
    + rewrite Hnull. apply ShapeFacts.isEmpty_shapes.
  - exfalso. unfold removeBackground in Hclean. rewrite Hvalid in Hclean.
    destruct (createBackgroundMask_spec cell
                (findMostCommonColor (sampleBackgroundPoints cell))
                (Z.max 10 (aggressiveness * 2)) Hvalid) as (mask & Hm & _).
    rewrite Hm in Hclean. discriminate.
Qed.

Lemma cell_processing_returns_witness :
  exists comp,
    processCell lowSaturationExact ringed 5 30 = Returns comp /\
    img_width (comp_imageData comp) = img_width ringed /\
    img_height (comp_imageData comp) = img_height ringed /\
    colorKeptAlphaLowered (img_data ringed) (img_data (comp_imageData comp)) /\
    comp_shapes comp = shapes (decomposeIntoShapes (comp_imageData comp)) /\
    (comp_nineSlice comp = None <-> comp_shapes comp = []).
Proof.
  apply (cell_processing_returns lowSaturationExact ringed 5 30).
  - reflexivity.
  - unfold bytes, ringed. simpl. repeat (constructor; [lia|]). constructor.
Defined.

(** X28: a cell of a single colour gives an empty component: its image
    is transparent everywhere, it has no shape, and its nine-slice
    borders are [null], whatever the removal setting is. *)
Theorem blank_cell_is_empty lowSaturation cell cellHeight aggressiveness :
  validImageData cell = true -> singleColour cell ->
  exists cleaned,
    processCell lowSaturation cell cellHeight aggressiveness =
      Returns {| comp_imageData := cleaned; comp_shapes := [];
                 comp_nineSlice := None |} /\
    img_width cleaned = img_width cell /\
    img_height cleaned = img_height cell /\
    forall x y, inside (img_width cell) (img_height cell) x y ->
      load (img_data cleaned) ((y * img_width cell + x) * 4 + 3) = Some 0.
Proof.
  intros Hvalid Hone.
  destruct (BackgroundMore.single_transparent cell Hvalid Hone lowSaturation
              10 aggressiveness ltac:(lia)) as (out & Hout & Hw & Hh & Hzero).
  destruct (removeBackground_cleared _ _ _ _ _ Hout) as (_ & _ & Hc).
  destruct (BackgroundMore.valid_sizes cell Hvalid) as (Hwpos & Hhpos & Hlen).
  unfold processCell. rewrite Hout. cbv zeta.
  set (cleaned := removeShadowsAlongSlices out [0; cellHeight - 1] 3).
  assert (Hc' : onlyAlphaCleared (img_data out) (img_data cleaned))
    by apply removeShadowsAlongSlices_cleared.
  assert (Hz : forall x y, inside (img_width cell) (img_height cell) x y ->
                 load (img_data cleaned) ((y * img_width cell + x) * 4 + 3)
                 = Some 0).
  { intros x y Hin. eapply cleared_zero; [exact Hc'|]. now apply Hzero. }
  assert (Hwf : wellFormed cleaned).
  { destruct Hc as [Hl1 _], Hc' as [Hl2 _].
    unfold wellFormed. rewrite Hl2, Hl1.
    change (img_width cleaned) with (img_width out).
    change (img_height cleaned) with (img_height out).
    rewrite Hw, Hh. lia. }
  assert (Hno : ~ hasContent cleaned).
  { intros (x & y & Hx & Hy & Hv).
    change (img_width cleaned) with (img_width out) in Hx.
    change (img_height cleaned) with (img_height out) in Hy.
    unfold alphaAt in Hv.
    change (img_width cleaned) with (img_width out) in Hv.
    rewrite Hw in Hv, Hx. rewrite Hh in Hy.
    rewrite Hz in Hv by (split; assumption). discriminate. }
  destruct (ShapeFacts.decompose_transparent cleaned
              (ShapeFacts.no_content_transparent cleaned Hwf Hno))
    as [Hshapes Hempty].
  unfold calculateNineSliceBorders. rewrite Hempty, Hshapes.
  exists cleaned. split; [reflexivity|].
  split; [exact Hw|]. split; [exact Hh|]. exact Hz.
Qed.

Lemma blank_cell_is_empty_witness :
  exists cleaned,
    processCell lowSaturationExact plain 2 30 =
      Returns {| comp_imageData := cleaned; comp_shapes := [];
                 comp_nineSlice := None |} /\
    img_width cleaned = img_width plain /\
    img_height cleaned = img_height plain /\
    forall x y, inside (img_width plain) (img_height plain) x y ->
      load (img_data cleaned) ((y * img_width plain + x) * 4 + 3) = Some 0.
Proof.
  apply (blank_cell_is_empty lowSaturationExact plain 2 30).
  - reflexivity.
  - exact GridMore.plain_single_colour.
Defined.

End AnalyzerFacts.

(** ** The segments of the grid lines *)

Module GridSegments.

Import GridDetector GridTerms.

Lemma zrange_app a b c :
  a <= b -> b <= c -> zrange a b ++ zrange b c = zrange a c.
Proof.
  intros Hab Hbc. remember (Z.to_nat (b - a)) as n eqn:Hn.
  revert a Hab Hn. induction n as [|n IH]; intros a Hab Hn.
  - assert (a = b) as -> by lia. now rewrite (zrange_empty b b) by lia.
  - rewrite (zrange_first a b), (zrange_first a c) by lia. simpl. f_equal.
    apply IH; lia.
Qed.

Lemma imap_ids {A} (F : nat -> A -> Segment) (l : list A) : forall k,
  (forall i a, seg_id (F i a) = k + Z.of_nat i) ->
  map seg_id (imap F l) = zrange k (k + Z.of_nat (length l)).
Proof.
  revert F. induction l as [|a l IH]; intros F k HF.
  - simpl. now rewrite zrange_empty by lia.
  - rewrite imap_cons. simpl map. rewrite (zrange_first k) by (simpl length; lia).
    f_equal; [rewrite HF; lia|].
    rewrite (IH (F ∘ S) (k + 1)).
    + f_equal. simpl length. lia.
    + intros i a'. unfold compose. rewrite HF. lia.
Qed.

Lemma Forall_imap {A B} (P : B -> Prop) (F : nat -> A -> B) (l : list A) :
  (forall i a, In a l -> P (F i a)) -> Forall P (imap F l).
Proof.
  revert F. induction l as [|a l IH]; intros F HF.
  - constructor.
  - rewrite imap_cons. constructor; [apply HF; now left|].
    apply IH. intros i a' Ha'. apply HF. now right.
Qed.

Lemma intersection_ids (vGroups hGroups : list DividerGroup) : forall base,
  map seg_id
    (concat
       (imap (fun i hg =>
                imap (fun j vg =>
                        {| seg_id := base
                                     + Z.of_nat i * Z.of_nat (length vGroups)
                                     + Z.of_nat j;
                           seg_type := SegIntersection;
                           seg_x := g_start vg; seg_y := g_start hg;
                           seg_width := g_width vg; seg_height := g_width hg |})
                  vGroups)
          hGroups))
  = zrange base
      (base + Z.of_nat (length hGroups) * Z.of_nat (length vGroups)).
Proof.
  induction hGroups as [|hg hGroups IH]; intros base.
  - simpl. now rewrite zrange_empty by lia.
  - rewrite imap_cons. simpl concat. rewrite map_app.
    rewrite (imap_ids _ vGroups base) by (intros i a; simpl; lia).
    match goal with
    | |- _ ++ ?rest = _ =>
        assert (Erest : rest =
                  zrange (base + Z.of_nat (length vGroups))
                    (base + Z.of_nat (length vGroups)
                     + Z.of_nat (length hGroups) * Z.of_nat (length vGroups)))
    end.
    { rewrite <- IH. do 2 f_equal. apply imap_ext. intros i g _. unfold compose.
      apply imap_ext. intros j vg _. f_equal. lia. }
    rewrite Erest, zrange_app by nia. f_equal. simpl length. lia.
Qed.

Lemma segment_ids hGroups vGroups width height :
  map seg_id (computeGridLineSegments hGroups vGroups width height) =
  zrange 0 (Z.of_nat (length hGroups) + Z.of_nat (length vGroups)
            + Z.of_nat (length hGroups) * Z.of_nat (length vGroups)).
Proof.
  unfold computeGridLineSegments. cbv zeta. rewrite !map_app.
  rewrite (imap_ids _ hGroups 0) by (intros i a; simpl; lia).
  rewrite (imap_ids _ vGroups (Z.of_nat (length hGroups)))
    by (intros i a; simpl; lia).
  rewrite intersection_ids.
  rewrite zrange_app by lia. rewrite zrange_app by nia.
  f_equal; lia.
Qed.

Lemma refined_group_inside dividers size g :
  Forall (fun dv => 0 <= dv < size) dividers ->
  In g (refineDividerCenters (consolidateDividersToGroups dividers)) ->
  groupInside size g.
Proof.
  intros Hdiv. unfold refineDividerCenters. rewrite in_map_iff.
  intros (g0 & <- & Hg0). unfold groupInside. simpl.
  assert (H : flat_map linesOf (consolidateDividersToGroups dividers) = dividers /\
              Forall wellShaped (consolidateDividersToGroups dividers)).
  { unfold consolidateDividersToGroups. destruct dividers as [|d0 rest].
    - now split.
    - destruct (GridMore.consolidateFrom_lines rest d0 d0 ltac:(lia)) as [Hl Hw].
      split; [|exact Hw]. rewrite Hl.
      rewrite (zrange_first d0 (d0 + 1)) by lia.
      now rewrite (zrange_empty (d0 + 1) (d0 + 1)) by lia. }
  destruct H as [Hl Hw]. rewrite Forall_forall in Hw.
  destruct (Hw g0 ltac:(now apply list_elem_of_In)) as [Hc Hwidth].
  assert (Hin : forall dv, g_start g0 <= dv <= g_end g0 -> 0 <= dv < size).
  { intros dv Hdv. rewrite Forall_forall in Hdiv. apply Hdiv.
    apply list_elem_of_In. rewrite <- Hl. apply in_flat_map. exists g0.
    split; [exact Hg0|]. unfold linesOf. apply in_zrange. lia. }
  pose proof (Hin (g_start g0) ltac:(lia)).
  pose proof (Hin (g_end g0) ltac:(lia)). lia.
Qed.

Lemma retained_groups_inside dividers size minGap :
  Forall (fun dv => 0 <= dv < size) dividers ->
  Forall (groupInside size)
    (enforceMinimumGap
       (refineDividerCenters (consolidateDividersToGroups dividers)) minGap).
Proof.
  intros Hdiv. apply Forall_forall. intros g Hg.
  apply (refined_group_inside dividers); [exact Hdiv|].
  apply list_elem_of_In. eapply elem_of_sublist; [exact Hg|].
  apply GridMore.enforce_sublist.
Qed.

Lemma filtered_range (P : Z -> Prop) `{!forall x, Decision (P x)} size :
  Forall (fun dv => 0 <= dv < size) (filter P (zrange 0 size)).
Proof.
  apply Forall_forall. intros dv Hdv. apply list_elem_of_filter in Hdv.
  destruct Hdv as [_ Hdv]. now apply list_elem_of_In, in_zrange in Hdv.
Qed.

(** X29: the grid line segments of [detectGrid].  There is one segment
    per horizontal line group, one per vertical line group and one per
    crossing of the two; their identifiers count from 0 without a gap,
    in that order; and the rectangle of every segment lies inside the
    image. *)
Theorem segments_numbered_and_inside img tolerance minXGap minYGap :
  let grid := detectGrid img tolerance minXGap minYGap in
  let nh := Z.of_nat (length (horizontalLineGroups grid)) in
  let nv := Z.of_nat (length (verticalLineGroups grid)) in
  map seg_id (gridLineSegments grid) = zrange 0 (nh + nv + nh * nv) /\
  Forall (segmentInside img) (gridLineSegments grid).
Proof.
  unfold detectGrid; simpl. split; [apply segment_ids|].
  pose proof (retained_groups_inside _ (img_height img) minYGap
                (filtered_range
                   (fun y => isUniformRow (img_data img) (img_width img)
                               tolerance y = true) (img_height img))) as Hh.
  pose proof (retained_groups_inside _ (img_width img) minXGap
                (filtered_range
                   (fun x => isUniformColumn (img_data img) (img_width img)
                               (img_height img) tolerance x = true)
                   (img_width img))) as Hv.
  fold (findHorizontalDividers (img_data img) (img_width img) (img_height img)
          tolerance) in Hh.
  fold (findVerticalDividers (img_data img) (img_width img) (img_height img)
          tolerance) in Hv.
  set (hG := enforceMinimumGap _ minYGap) in *.
  set (vG := enforceMinimumGap _ minXGap) in *.
  rewrite Forall_forall in Hh, Hv.
  unfold computeGridLineSegments. cbv zeta.
  apply Forall_app. split; [|apply Forall_app; split].
  - apply Forall_imap. intros i g Hg.
    destruct (Hh g ltac:(now apply list_elem_of_In)) as (H0 & H1 & H2).
    unfold segmentInside; simpl. lia.
  - apply Forall_imap. intros i g Hg.
    destruct (Hv g ltac:(now apply list_elem_of_In)) as (H0 & H1 & H2).
    unfold segmentInside; simpl. lia.
  - apply Forall_concat. apply Forall_imap. intros i hg Hhg.
    apply Forall_imap. intros j vg Hvg.
    destruct (Hh hg ltac:(now apply list_elem_of_In)) as (H0 & H1 & H2).
    destruct (Hv vg ltac:(now apply list_elem_of_In)) as (H3 & H4 & H5).
    unfold segmentInside; simpl. lia.
Qed.

End GridSegments.

(** ** The older background remover *)

Module FirstCorner.

Import BackgroundRemover BackgroundTerms BackgroundFacts.

Lemma first_pixel_candidate img tolerance :
  validImageData img = true -> 0 <= tolerance ->
  isCandidate (img_data img) (pixelAt (img_data img) 0) tolerance 0 = true.
Proof.
  intros Hvalid Ht.
  destruct (BackgroundMore.valid_sizes img Hvalid) as (Hw & Hh & Hlen).
  unfold isCandidate. cbv zeta. change (0 * 4) with 0.
  destruct (load_in_range (img_data img) 0 ltac:(nia)) as [r Hr].
  destruct (load_in_range (img_data img) 1 ltac:(nia)) as [g Hg].
  destruct (load_in_range (img_data img) 2 ltac:(nia)) as [b Hb].
  unfold distanceWithin, pixelAt. cbn [c_r c_g c_b].
  change (0 + 1) with 1. change (0 + 2) with 2.
  rewrite Hr, Hg, Hb. simpl. rewrite !Z.sub_diag. simpl.
  apply andb_true_iff. split; [apply Z.leb_le; lia|apply Z.leb_le; nia].
Qed.

(** X30: the [removeBackground] of [background-remover.js], on a valid
    image.  It returns an image of the same size in which a pixel has
    alpha 0 when a 4-connected path of pixels within the tolerance of
    the top-left pixel joins it to the border, and the alpha of the
    input otherwise; with a tolerance that is not negative the top-left
    pixel itself is always made transparent. *)
Theorem first_corner_removal_exact img tolerance :
  validImageData img = true ->
  let background := isCandidate (img_data img) (pixelAt (img_data img) 0)
                      tolerance in
  exists out,
    removeBackgroundFirstCorner img tolerance = Some out /\
    img_width out = img_width img /\ img_height out = img_height img /\
    (forall x y,
       inside (img_width img) (img_height img) x y ->
       (reachable background (img_width img) (img_height img) x y ->
        load (img_data out) ((y * img_width img + x) * 4 + 3) = Some 0) /\
       (~ reachable background (img_width img) (img_height img) x y ->
        load (img_data out) ((y * img_width img + x) * 4 + 3)
        = load (img_data img) ((y * img_width img + x) * 4 + 3))) /\
    (0 <= tolerance -> load (img_data out) 3 = Some 0).
Proof.
  intros Hvalid background.
  destruct (BackgroundMore.valid_sizes img Hvalid) as (Hw & Hh & Hlen).
  destruct (BackgroundMore.createBackgroundMask_exact img
              (pixelAt (img_data img) 0) tolerance Hvalid)
    as (mask & Hmask & Hmlen & Hexact).
  unfold removeBackgroundFirstCorner. rewrite Hvalid, Hmask.
  eexists. split; [reflexivity|]. simpl.
  split; [reflexivity|]. split; [reflexivity|].
  assert (Hpix : forall x y,
            inside (img_width img) (img_height img) x y ->
            (reachable background (img_width img) (img_height img) x y ->
             load (applyTransparencyMask (img_data img) mask)
               ((y * img_width img + x) * 4 + 3) = Some 0) /\
            (~ reachable background (img_width img) (img_height img) x y ->
             load (applyTransparencyMask (img_data img) mask)
               ((y * img_width img + x) * 4 + 3)
             = load (img_data img) ((y * img_width img + x) * 4 + 3))).
  { intros x y Hin. destruct (Hexact x y Hin) as [Hone Hzero].
    destruct Hin as [Hx Hy]. split; intros Hr.
    - apply BackgroundMore.applyTransparencyMask_sets; [nia|nia|now apply Hone].
    - apply applyTransparencyMask_keeps. now rewrite (Hzero Hr). }
  split; [exact Hpix|].
  intros Ht. destruct (Hpix 0 0 ltac:(split; lia)) as [Hclear _].
  replace ((0 * img_width img + 0) * 4 + 3) with 3 in Hclear by lia.
  apply Hclear. apply reach_edge; [split; lia|now left|].
  replace (0 * img_width img + 0) with 0 by lia.
  now apply first_pixel_candidate.
Qed.

Lemma first_corner_removal_exact_witness :
  let background := isCandidate (img_data ringed) (pixelAt (img_data ringed) 0)
                      10 in
  exists out,
    removeBackgroundFirstCorner ringed 10 = Some out /\
    img_width out = img_width ringed /\ img_height out = img_height ringed /\
    (forall x y,
       inside (img_width ringed) (img_height ringed) x y ->
       (reachable background (img_width ringed) (img_height ringed) x y ->
        load (img_data out) ((y * img_width ringed + x) * 4 + 3) = Some 0) /\
       (~ reachable background (img_width ringed) (img_height ringed) x y ->
        load (img_data out) ((y * img_width ringed + x) * 4 + 3)
        = load (img_data ringed) ((y * img_width ringed + x) * 4 + 3))) /\
    (0 <= 10 -> load (img_data out) 3 = Some 0).
Proof.
  apply (first_corner_removal_exact ringed 10). reflexivity.
Defined.

End FirstCorner.
